(** * Member lists of compound and enumeration datatypes (H5Tfields.c)

    A shallow embedding of the member-list operations of
    [src/extlibs/hdf5/H5Tfields.c]: [H5T_get_nmembers],
    [H5T_get_member_name], [H5Tget_member_index], [H5T_sort_value] and
    [H5T_sort_name], followed by the properties the specification states
    about them.

    Conventions of the embedding.
    - A C array with a live element count ([memb]/[nmembs],
      [name]/[nmembs]) is a list; [nmembs] is its length.
    - The enumeration value buffer is the flat byte list the code works
      on: member [k] occupies bytes [k*size .. k*size+size-1].
    - A member name is the character buffer the [char *] points to; the
      terminating NUL follows its last character.
    - [assert] is modelled: a run either returns, stops at a failed
      assertion (unless compiled with NDEBUG), or leaves defined
      behaviour (an exchange of enumeration values wider than the
      scratch buffer).
    - The FUNC_ENTER / FUNC_LEAVE bookkeeping (library initialisation,
      call tracing) is outside the model: the library is initialised. *)

From Stdlib Require Import ZArith Ascii String Lia.
From Stdlib.Strings Require Import Byte.
From stdpp Require Import base list strings sorting.

Local Open Scope Z_scope.

(** * Part I: the program *)

(* ===================================================================== *)
(** ** C library primitives used by the file *)
(* ===================================================================== *)

Module Libc.

(** Value of a [char] read as [unsigned char]. *)
Definition uchar (c : ascii) : Z := Z.of_N (N_of_ascii c).

(** Value of a byte of raw storage. *)
Definition ubyte (b : byte) : Z := Z.of_N (Byte.to_N b).

(** Modelled from the spec: [HDstrcmp] is a macro of H5private.h (not
    part of the sources at hand) over the C library's [strcmp]: the
    two strings are compared character by character as unsigned
    bytes, up to and including the terminating NUL; the result is the
    difference at the first position where they differ, and 0 when
    none does.  The end of the Rocq string stands for the terminator;
    a NUL inside the buffer terminates the C string early. *)
Fixpoint HDstrcmp (s1 s2 : string) : Z :=
  match s1, s2 with
  | EmptyString, EmptyString => 0
  | EmptyString, String c2 _ => 0 - uchar c2
  | String c1 _, EmptyString => uchar c1 - 0
  | String c1 r1, String c2 r2 =>
      if uchar c1 =? uchar c2
      then (if uchar c1 =? 0 then 0 else HDstrcmp r1 r2)
      else uchar c1 - uchar c2
  end.

(** The C string held in a character buffer: the characters before the
    first NUL. *)
Fixpoint c_str (s : string) : string :=
  match s with
  | EmptyString => EmptyString
  | String c r => if uchar c =? 0 then EmptyString else String c (c_str r)
  end.

(** Modelled from the spec: [HDmemcmp] is a macro of H5private.h over
    the C library's [memcmp]: the first [n] bytes at [p] and at [q]
    are compared as unsigned bytes from the first one on; the result
    is the difference at the first position where they differ, and 0
    when none does.  A pointer is the list of the bytes from its
    address on; reading past the end of the storage (not done on a
    well-formed buffer) ends the comparison. *)
Fixpoint HDmemcmp (p q : list byte) (n : nat) : Z :=
  match n with
  | O => 0
  | S n' =>
      match p, q with
      | a :: p', b :: q' =>
          if ubyte a =? ubyte b then HDmemcmp p' q' n' else ubyte a - ubyte b
      | _, _ => 0
      end
  end.

(** [HDmemcpy(buf + off, src, n)]: the buffer after [n] bytes at [src]
    have been copied to offset [off] of [buf]; both regions lie inside
    their storage wherever the code is within its contract. *)
Definition HDmemcpy (buf : list byte) (off : nat) (src : list byte) (n : nat)
  : list byte :=
  take off buf ++ take n src ++ drop (off + n) buf.

(** [H5MM_xstrdup]: a fresh copy of the C string at [s]. *)
Definition H5MM_xstrdup (s : string) : string := c_str s.

End Libc.
Import Libc.

(* ===================================================================== *)
(** ** Data model *)
(* ===================================================================== *)

(** Modelled from the spec: [H5T_sort_t] is declared in H5Tpkg.h (not
    part of the sources at hand).  The sort state of a member list is
    one of unsorted, sorted by name, sorted by value; the source names
    the last two. *)
Inductive H5T_sort_t := H5T_SORT_NONE | H5T_SORT_NAME | H5T_SORT_VALUE.

Global Instance H5T_sort_t_eq_dec : EqDecision H5T_sort_t.
Proof. solve_decision. Defined.

(** Modelled from the spec: [H5T_class_t] is declared in H5Tpublic.h
    (not part of the sources at hand).  The source names [H5T_COMPOUND]
    and [H5T_ENUM]; the other classes of the library stand for the
    descriptors that are neither. *)
Inductive H5T_class_t :=
  | H5T_INTEGER | H5T_FLOAT | H5T_TIME | H5T_STRING | H5T_BITFIELD
  | H5T_OPAQUE | H5T_COMPOUND | H5T_REFERENCE | H5T_ENUM | H5T_VLEN
  | H5T_ARRAY.

Global Instance H5T_class_t_eq_dec : EqDecision H5T_class_t.
Proof. solve_decision. Defined.

(** Classes that carry no member list. *)
Inductive H5T_atomic_class :=
  | AC_INTEGER | AC_FLOAT | AC_TIME | AC_STRING | AC_BITFIELD
  | AC_OPAQUE | AC_REFERENCE | AC_VLEN | AC_ARRAY.

(** Modelled from the spec: [H5T_cmemb_t] is declared in H5Tpkg.h (not
    part of the sources at hand).  A compound member has a name, an
    unsigned byte offset into the record, and a payload (the member's
    own type) that this file never looks into. *)
Record H5T_cmemb_t := mk_cmemb {
  cm_name : string;
  cm_offset : N;
  cm_payload : N
}.

Global Instance H5T_cmemb_t_eq_dec : EqDecision H5T_cmemb_t.
Proof. solve_decision. Defined.

(** [dt->u.compnd], as far as this file uses it: the member array
    [memb] (of [nmembs] entries) and its sort state [sorted]. *)
Record H5T_compnd_t := mk_compnd {
  compnd_sorted : H5T_sort_t;
  compnd_memb : list H5T_cmemb_t
}.

(** [dt->u.enumer], as far as this file uses it: the sort state
    [sorted] and the parallel arrays [name] (of [nmembs] entries) and
    [value], the values stored back to back, [dt->size] bytes each. *)
Record H5T_enum_t := mk_enumer {
  enumer_sorted : H5T_sort_t;
  enumer_name : list string;
  enumer_value : list byte
}.

(** The union [dt->u], tagged by [dt->type]. *)
Inductive H5T_u :=
  | U_compnd (c : H5T_compnd_t)
  | U_enumer (e : H5T_enum_t)
  | U_atomic (cls : H5T_atomic_class).

(** A datatype descriptor ([H5T_t]), as far as this file uses it:
    [dt->size], and [dt->type] with [dt->u]. *)
Record H5T_t := mk_H5T {
  dt_size : nat;
  dt_u : H5T_u
}.

Definition atomic_class (a : H5T_atomic_class) : H5T_class_t :=
  match a with
  | AC_INTEGER => H5T_INTEGER | AC_FLOAT => H5T_FLOAT | AC_TIME => H5T_TIME
  | AC_STRING => H5T_STRING | AC_BITFIELD => H5T_BITFIELD
  | AC_OPAQUE => H5T_OPAQUE | AC_REFERENCE => H5T_REFERENCE
  | AC_VLEN => H5T_VLEN | AC_ARRAY => H5T_ARRAY
  end.

(** [dt->type]. *)
Definition dt_type (dt : H5T_t) : H5T_class_t :=
  match dt_u dt with
  | U_compnd _ => H5T_COMPOUND
  | U_enumer _ => H5T_ENUM
  | U_atomic a => atomic_class a
  end.

Definition compnd_nmembs (c : H5T_compnd_t) : Z := Z.of_nat (length (compnd_memb c)).
Definition enumer_nmembs (e : H5T_enum_t) : Z := Z.of_nat (length (enumer_name e)).

(** Error codes pushed by HGOTO_ERROR in this file. *)
Inductive H5E_major := H5E_ARGS.
Inductive H5E_minor := H5E_BADTYPE | H5E_BADVALUE.

(** Result of a function that reports errors through HGOTO_ERROR: the
    value it returns, or the error it pushed (it then returns its
    failure value, NULL or FAIL). *)
Inductive result (A : Type) :=
  | Success (a : A)
  | Failure (maj : H5E_major) (min : H5E_minor).
Arguments Success {A} a.
Arguments Failure {A} maj min.

(** Modelled from the spec: [SUCCEED] and [FAIL] are macros of
    H5private.h (not part of the sources at hand): success is
    non-negative, and the failure value is -1, as the header comment of
    [H5Tget_member_index] says. *)
Definition SUCCEED : Z := 0.
Definition FAIL : Z := -1.

(** The spec's names for the two error conditions. *)
Definition UnsupportedKind {A} : result A := Failure H5E_ARGS H5E_BADTYPE.
Definition InvalidIndex {A} : result A := Failure H5E_ARGS H5E_BADVALUE.

(* ===================================================================== *)
(** ** Member store *)
(* ===================================================================== *)

(** [H5T_get_nmembers(dt)] *)
Definition H5T_get_nmembers (dt : H5T_t) : result Z :=
  match dt_u dt with
  | U_compnd c => Success (compnd_nmembs c)
  | U_enumer e => Success (enumer_nmembs e)
  | U_atomic _ => Failure H5E_ARGS H5E_BADTYPE
  end.

(** [a[i]] for an index already checked to be in range; the default is
    never read. *)
Definition array_get {A} (d : A) (a : list A) (i : Z) : A :=
  nth (Z.to_nat i) a d.

(** [H5T_get_member_name(dt, membno)]; the string of a success is the
    copy handed to the caller. *)
Definition H5T_get_member_name (dt : H5T_t) (membno : Z) : result string :=
  match dt_u dt with
  | U_compnd c =>
      if (membno <? 0) || (membno >=? compnd_nmembs c)
      then Failure H5E_ARGS H5E_BADVALUE
      else Success (H5MM_xstrdup
                      (cm_name (array_get (mk_cmemb EmptyString 0 0) (compnd_memb c) membno)))
  | U_enumer e =>
      if (membno <? 0) || (membno >=? enumer_nmembs e)
      then Failure H5E_ARGS H5E_BADVALUE
      else Success (H5MM_xstrdup (array_get EmptyString (enumer_name e) membno))
  | U_atomic _ => Failure H5E_ARGS H5E_BADTYPE
  end.

(** The search loop of [H5Tget_member_index],
    [for(i=0; i<nmembs; i++) if(!HDstrcmp(name_i, name)) HGOTO_DONE(i);]
    started at index [i] on the names from [i] on; [FAIL], the initial
    [ret_value], is what is left when the loop runs to its end. *)
Fixpoint locate_member (names : list string) (name : string) (i : Z) : Z :=
  match names with
  | [] => FAIL
  | n :: rest =>
      if HDstrcmp n name =? 0 then i else locate_member rest name (i + 1)
  end.

Section Handles.

(** Identifiers ([hid_t]) and the identifier table's lookup
    [H5I_object_verify(type_id, H5I_DATATYPE)], an external service:
    [None] is its NULL. *)
Variable hid_t : Type.
Variable H5I_object_verify : hid_t → option H5T_t.

(** [H5Tget_member_index(type_id, name)] *)
Definition H5Tget_member_index (type_id : hid_t) (name : string) : result Z :=
  match H5I_object_verify type_id with
  | None => Failure H5E_ARGS H5E_BADTYPE
  | Some dt =>
      match dt_u dt with
      | U_compnd c => Success (locate_member (cm_name <$> compnd_memb c) name 0)
      | U_enumer e => Success (locate_member (enumer_name e) name 0)
      | U_atomic _ => Failure H5E_ARGS H5E_BADTYPE
      end
  end.

End Handles.

Arguments H5Tget_member_index {hid_t} H5I_object_verify type_id name.

(* ===================================================================== *)
(** ** Sort engine *)
(* ===================================================================== *)

(** How a run of a function with assertions ends: it returns, it stops
    at an assertion that does not hold (builds without NDEBUG only), or
    it steps outside defined behaviour. *)
Inductive outcome (A : Type) :=
  | Returned (a : A)
  | AssertFailed
  | Undefined.
Arguments Returned {A} a.
Arguments AssertFailed {A}.
Arguments Undefined {A}.

(** [tmp = a[j]; a[j] = a[j+1]; a[j+1] = tmp].  Both indices are inside
    the member arrays whenever the loops reach this, and inside the
    caller's [map] when it has [nmembs] entries as required; outside,
    the model leaves the array alone. *)
Definition swap_elems {A} (j : nat) (a : list A) : list A :=
  match a !! j, a !! S j with
  | Some x, Some y => <[S j := x]> (<[j := y]> a)
  | _, _ => a
  end.

(** [if (map) { x = map[j]; map[j] = map[j+1]; map[j+1] = x; }] *)
Definition swap_map (j : nat) (map : option (list Z)) : option (list Z) :=
  swap_elems j <$> map.

Section Bubble.

(** The loop nest shared by the four sorts,
<<
    for (i=nmembs-1, swapped=TRUE; i>0 && swapped; --i)
        for (j=0, swapped=FALSE; j<i; j++)
            if (GT(j)) { SWAP(j); swapped = TRUE; }
>>
    over the storage [St] the sort works on, with the test [gt] and
    the exchange [swp] of the sort at hand.  The last component of
    the results counts the exchanges made; it is not a variable of
    the program. *)
Context {St : Type}.
Variable gt : nat → St → bool.
Variable swp : nat → St → St.

(** The inner loop from [j] on, with [todo = i - j] iterations left. *)
Fixpoint inner_loop (todo j : nat) (s : St) (swapped : bool) (k : nat)
  : St * bool * nat :=
  match todo with
  | O => (s, swapped, k)
  | S todo' =>
      if gt j s
      then inner_loop todo' (S j) (swp j s) true (S k)
      else inner_loop todo' (S j) s swapped k
  end.

(** The outer loop at its test, with index [i]. *)
Fixpoint outer_loop (i : nat) (swapped : bool) (s : St) (k : nat) : St * nat :=
  match i with
  | O => (s, k)
  | S i' =>
      if swapped
      then let '(s', swapped', k') := inner_loop i 0 s false k in
           outer_loop i' swapped' s' k'
      else (s, k)
  end.

Definition bubble (nmembs : nat) (s : St) : St * nat :=
  outer_loop (nmembs - 1) true s 0.

End Bubble.

(** The debug loops [for (i=0; i<nmembs-1; i++) assert(OK(i));]. *)
Definition assert_all (nmembs : nat) (ok : nat → bool) : bool :=
  forallb ok (seq 0 (nmembs - 1)).

(** *** Compound datatypes *)

(** What the compound loops work on: [dt->u.compnd.memb] and [map]. *)
Record compnd_st := mk_compnd_st {
  cs_memb : list H5T_cmemb_t;
  cs_map : option (list Z)
}.

(** [memb[j].offset > memb[j+1].offset] *)
Definition compnd_value_gt (j : nat) (s : compnd_st) : bool :=
  match cs_memb s !! j, cs_memb s !! S j with
  | Some a, Some b => (cm_offset b <? cm_offset a)%N
  | _, _ => false
  end.

(** [HDstrcmp(memb[j].name, memb[j+1].name) > 0] *)
Definition compnd_name_gt (j : nat) (s : compnd_st) : bool :=
  match cs_memb s !! j, cs_memb s !! S j with
  | Some a, Some b => 0 <? HDstrcmp (cm_name a) (cm_name b)
  | _, _ => false
  end.

(** The exchange of the compound loops: the two member records as a
    whole, and the two entries of [map] when there is one. *)
Definition compnd_swap (j : nat) (s : compnd_st) : compnd_st :=
  {| cs_memb := swap_elems j (cs_memb s);
     cs_map := swap_map j (cs_map s) |}.

(** [assert(memb[i].offset < memb[i+1].offset)] *)
Definition compnd_value_lt (memb : list H5T_cmemb_t) (i : nat) : bool :=
  match memb !! i, memb !! S i with
  | Some a, Some b => (cm_offset a <? cm_offset b)%N
  | _, _ => true
  end.

(** [assert(HDstrcmp(memb[i].name, memb[i+1].name) < 0)] *)
Definition compnd_name_lt (memb : list H5T_cmemb_t) (i : nat) : bool :=
  match memb !! i, memb !! S i with
  | Some a, Some b => HDstrcmp (cm_name a) (cm_name b) <? 0
  | _, _ => true
  end.

(** *** Enumeration datatypes *)

(** [sizeof(tbuf)] *)
Definition tbuf_size : nat := 32.

(** What the enumeration loops work on: [dt->u.enumer.name],
    [dt->u.enumer.value], the scratch buffer [tbuf] and [map]. *)
Record enumer_st := mk_enumer_st {
  es_name : list string;
  es_value : list byte;
  es_tbuf : list byte;
  es_map : option (list Z)
}.

(** [tbuf] at function entry.  It is uninitialised storage; every read
    of it follows a write of the bytes read. *)
Definition tbuf_init : list byte := replicate tbuf_size x00.

Section EnumLoops.

(** [size = dt->size] *)
Variable size : nat.

(** [HDmemcmp(value+j*size, value+(j+1)*size, size) > 0] *)
Definition enumer_value_gt (j : nat) (s : enumer_st) : bool :=
  0 <? HDmemcmp (drop (j * size) (es_value s))
                (drop ((j + 1) * size) (es_value s)) size.

(** [HDstrcmp(name[j], name[j+1]) > 0] *)
Definition enumer_name_gt (j : nat) (s : enumer_st) : bool :=
  match es_name s !! j, es_name s !! S j with
  | Some a, Some b => 0 <? HDstrcmp a b
  | _, _ => false
  end.

(** The exchange of the enumeration loops: the two name pointers, the
    two values through [tbuf], and the two entries of [map]. *)
Definition enumer_swap (j : nat) (s : enumer_st) : enumer_st :=
  let name' := swap_elems j (es_name s) in
  let tbuf' := HDmemcpy (es_tbuf s) 0 (drop (j * size) (es_value s)) size in
  let value1 :=
    HDmemcpy (es_value s) (j * size) (drop ((j + 1) * size) (es_value s)) size in
  let value2 := HDmemcpy value1 ((j + 1) * size) tbuf' size in
  {| es_name := name'; es_value := value2; es_tbuf := tbuf';
     es_map := swap_map j (es_map s) |}.

(** [assert(HDmemcmp(value+i*size, value+(i+1)*size, size) < 0)] *)
Definition enumer_value_lt (value : list byte) (i : nat) : bool :=
  HDmemcmp (drop (i * size) value) (drop ((i + 1) * size) value) size <? 0.

End EnumLoops.

(** [assert(HDstrcmp(name[i], name[i+1]) < 0)] *)
Definition enumer_name_lt (name : list string) (i : nat) : bool :=
  match name !! i, name !! S i with
  | Some a, Some b => HDstrcmp a b <? 0
  | _, _ => true
  end.

(** *** The two entry points *)

(** What a sort call hands back: its return value, the descriptor and
    the caller's [map] as it leaves them, and the number of exchanges
    it made (an observation about the run, not a program value). *)
Record sort_ret := mk_sort_ret {
  ret_value : Z;
  ret_dt : H5T_t;
  ret_map : option (list Z);
  ret_swaps : nat
}.

(** [H5T_sort_value(dt, map)]: members of a compound type by offset,
    members of an enumeration by value.  [NDEBUG] tells whether the
    assertions are compiled out; [map] is [None] for a NULL map. *)
Definition H5T_sort_value (NDEBUG : bool) (dt : H5T_t) (map : option (list Z))
  : outcome sort_ret :=
  match dt_u dt with
  | U_compnd c =>
      if decide (H5T_SORT_VALUE = compnd_sorted c)
      then Returned (mk_sort_ret SUCCEED dt map 0)
      else
        let nmembs := length (compnd_memb c) in
        let '(s, k) := bubble compnd_value_gt compnd_swap nmembs
                              (mk_compnd_st (compnd_memb c) map) in
        if NDEBUG || assert_all nmembs (compnd_value_lt (cs_memb s))
        then Returned
               (mk_sort_ret SUCCEED
                  (mk_H5T (dt_size dt)
                     (U_compnd (mk_compnd H5T_SORT_VALUE (cs_memb s))))
                  (cs_map s) k)
        else AssertFailed
  | U_enumer e =>
      if decide (H5T_SORT_VALUE = enumer_sorted e)
      then Returned (mk_sort_ret SUCCEED dt map 0)
      else
        let nmembs := length (enumer_name e) in
        let size := dt_size dt in
        (* [assert(size<=sizeof(tbuf))] *)
        if negb (size <=? tbuf_size)%nat && negb NDEBUG then AssertFailed
        else
          let '(s, k) := bubble (enumer_value_gt size) (enumer_swap size) nmembs
                                (mk_enumer_st (enumer_name e) (enumer_value e)
                                              tbuf_init map) in
          (* a value wider than [tbuf]: the first exchange writes past
             the end of [tbuf]; a run without exchanges never touches it *)
          if negb (size <=? tbuf_size)%nat && negb (k =? 0)%nat then Undefined
          else if NDEBUG || assert_all nmembs (enumer_value_lt size (es_value s))
          then Returned
                 (mk_sort_ret SUCCEED
                    (mk_H5T (dt_size dt)
                       (U_enumer (mk_enumer H5T_SORT_VALUE (es_name s) (es_value s))))
                    (es_map s) k)
          else AssertFailed
  | U_atomic _ =>
      (* [assert(H5T_COMPOUND==dt->type || H5T_ENUM==dt->type)]; without
         it neither branch is taken *)
      if NDEBUG then Returned (mk_sort_ret SUCCEED dt map 0) else AssertFailed
  end.

(** [H5T_sort_name(dt, map)]: members of a compound or enumeration type
    by name. *)
Definition H5T_sort_name (NDEBUG : bool) (dt : H5T_t) (map : option (list Z))
  : outcome sort_ret :=
  match dt_u dt with
  | U_compnd c =>
      if decide (H5T_SORT_NAME = compnd_sorted c)
      then Returned (mk_sort_ret SUCCEED dt map 0)
      else
        let nmembs := length (compnd_memb c) in
        let '(s, k) := bubble compnd_name_gt compnd_swap nmembs
                              (mk_compnd_st (compnd_memb c) map) in
        if NDEBUG || assert_all nmembs (compnd_name_lt (cs_memb s))
        then Returned
               (mk_sort_ret SUCCEED
                  (mk_H5T (dt_size dt)
                     (U_compnd (mk_compnd H5T_SORT_NAME (cs_memb s))))
                  (cs_map s) k)
        else AssertFailed
  | U_enumer e =>
      if decide (H5T_SORT_NAME = enumer_sorted e)
      then Returned (mk_sort_ret SUCCEED dt map 0)
      else
        let nmembs := length (enumer_name e) in
        let size := dt_size dt in
        if negb (size <=? tbuf_size)%nat && negb NDEBUG then AssertFailed
        else
          let '(s, k) := bubble enumer_name_gt (enumer_swap size) nmembs
                                (mk_enumer_st (enumer_name e) (enumer_value e)
                                              tbuf_init map) in
          if negb (size <=? tbuf_size)%nat && negb (k =? 0)%nat then Undefined
          else if NDEBUG || assert_all nmembs (enumer_name_lt (es_name s))
          then Returned
                 (mk_sort_ret SUCCEED
                    (mk_H5T (dt_size dt)
                       (U_enumer (mk_enumer H5T_SORT_NAME (es_name s) (es_value s))))
                    (es_map s) k)
          else AssertFailed
  | U_atomic _ =>
      if NDEBUG then Returned (mk_sort_ret SUCCEED dt map 0) else AssertFailed
  end.

(** The two entry points are the same text up to the order asked for,
    the tests of the loops and the tests of the closing assertions.
    [sort_skeleton] is that text with these as arguments; the proofs go
    through it. *)
Definition sort_skeleton
    (want : H5T_sort_t)
    (c_gt : nat → compnd_st → bool) (c_lt : list H5T_cmemb_t → nat → bool)
    (e_gt : nat → nat → enumer_st → bool)
    (e_lt : nat → list string → list byte → nat → bool)
    (NDEBUG : bool) (dt : H5T_t) (map : option (list Z)) : outcome sort_ret :=
  match dt_u dt with
  | U_compnd c =>
      if decide (want = compnd_sorted c)
      then Returned (mk_sort_ret SUCCEED dt map 0)
      else
        let nmembs := length (compnd_memb c) in
        let '(s, k) := bubble c_gt compnd_swap nmembs
                              (mk_compnd_st (compnd_memb c) map) in
        if NDEBUG || assert_all nmembs (c_lt (cs_memb s))
        then Returned
               (mk_sort_ret SUCCEED
                  (mk_H5T (dt_size dt) (U_compnd (mk_compnd want (cs_memb s))))
                  (cs_map s) k)
        else AssertFailed
  | U_enumer e =>
      if decide (want = enumer_sorted e)
      then Returned (mk_sort_ret SUCCEED dt map 0)
      else
        let nmembs := length (enumer_name e) in
        let size := dt_size dt in
        if negb (size <=? tbuf_size)%nat && negb NDEBUG then AssertFailed
        else
          let '(s, k) := bubble (e_gt size) (enumer_swap size) nmembs
                                (mk_enumer_st (enumer_name e) (enumer_value e)
                                              tbuf_init map) in
          if negb (size <=? tbuf_size)%nat && negb (k =? 0)%nat then Undefined
          else if NDEBUG || assert_all nmembs (e_lt size (es_name s) (es_value s))
          then Returned
                 (mk_sort_ret SUCCEED
                    (mk_H5T (dt_size dt)
                       (U_enumer (mk_enumer want (es_name s) (es_value s))))
                    (es_map s) k)
          else AssertFailed
  | U_atomic _ =>
      if NDEBUG then Returned (mk_sort_ret SUCCEED dt map 0) else AssertFailed
  end.

(** Scenario descriptors of the specification. *)
Definition scenario_A : H5T_t :=
  mk_H5T 12 (U_compnd (mk_compnd H5T_SORT_NONE
    [mk_cmemb "b" 8 0; mk_cmemb "a" 0 1; mk_cmemb "c" 4 2])).

(** Scenario B with the values stored least significant byte first. *)
Definition scenario_B_le : H5T_t :=
  mk_H5T 4 (U_enumer (mk_enumer H5T_SORT_NONE ["RED"; "GREEN"]
    [x02; x00; x00; x00;  x01; x00; x00; x00])).

(** Scenario B with the values stored most significant byte first. *)
Definition scenario_B_be : H5T_t :=
  mk_H5T 4 (U_enumer (mk_enumer H5T_SORT_NONE ["RED"; "GREEN"]
    [x00; x00; x00; x02;  x00; x00; x00; x01])).

(* ===================================================================== *)
(** ** Observations and auxiliary notions *)
(* ===================================================================== *)

(** The test of the loops on a plain array whose elements are compared
    with [gtb]. *)
Definition lgt {A} (gtb : A → A → bool) (j : nat) (l : list A) : bool :=
  match l !! j, l !! S j with
  | Some a, Some b => gtb a b
  | _, _ => false
  end.

(** "Not greater" for the comparison [gtb]: the order the loops
    establish. *)
Definition ngt {A} (gtb : A → A → bool) (a b : A) : Prop := gtb a b = false.

(** Every element is in relation with its right neighbour. *)
Definition adjacent_ordered {A} (R : A → A → Prop) (l : list A) : Prop :=
  ∀ i a b, l !! i = Some a → l !! S i = Some b → R a b.

(** The member names of a descriptor, in their current order. *)
Definition member_names (dt : H5T_t) : list string :=
  match dt_u dt with
  | U_compnd c => cm_name <$> compnd_memb c
  | U_enumer e => enumer_name e
  | U_atomic _ => []
  end.

(** The member offsets of a compound descriptor, in their current order. *)
Definition member_offsets (dt : H5T_t) : list N :=
  match dt_u dt with
  | U_compnd c => cm_offset <$> compnd_memb c
  | _ => []
  end.

(** The [k]-th value of an enumeration's value buffer. *)
Definition enum_value (size : nat) (value : list byte) (k : nat) : list byte :=
  take size (drop (k * size) value).

(** The sort state recorded in a descriptor. *)
Definition sort_state (dt : H5T_t) : option H5T_sort_t :=
  match dt_u dt with
  | U_compnd c => Some (compnd_sorted c)
  | U_enumer e => Some (enumer_sorted e)
  | U_atomic _ => None
  end.

(** Names in [strcmp] order. *)
Definition name_le (a b : string) : Prop := HDstrcmp a b ≤ 0.

(** The data model's invariant on the sort state: a member list marked
    as sorted by value (by name) is in that order. *)
Definition sort_state_consistent (dt : H5T_t) : Prop :=
  match dt_u dt with
  | U_compnd c =>
      (compnd_sorted c = H5T_SORT_VALUE →
         adjacent_ordered N.le (cm_offset <$> compnd_memb c)) ∧
      (compnd_sorted c = H5T_SORT_NAME →
         adjacent_ordered name_le (cm_name <$> compnd_memb c))
  | U_enumer e =>
      (enumer_sorted e = H5T_SORT_VALUE →
         ∀ i, (S i < length (enumer_name e))%nat →
              HDmemcmp (drop (i * dt_size dt) (enumer_value e))
                       (drop (S i * dt_size dt) (enumer_value e))
                       (dt_size dt) ≤ 0) ∧
      (enumer_sorted e = H5T_SORT_NAME →
         adjacent_ordered name_le (enumer_name e))
  | U_atomic _ => True
  end.

(** The comparisons of the loops on two elements: compound members by
    offset, names by [HDstrcmp], compound members by name. *)
Definition offset_gtb (a b : H5T_cmemb_t) : bool := (cm_offset b <? cm_offset a)%N.
Definition name_gtb (a b : string) : bool := 0 <? HDstrcmp a b.
Definition cname_gtb (a b : H5T_cmemb_t) : bool := name_gtb (cm_name a) (cm_name b).

(** Lexicographic "greater than" on byte sequences, bytes unsigned. *)
Fixpoint lex_gt (a b : list byte) : bool :=
  match a, b with
  | [], _ => false
  | _ :: _, [] => true
  | x :: a', y :: b' =>
      if ubyte x =? ubyte y then lex_gt a' b' else ubyte y <? ubyte x
  end.

(** Comparison of two members of an enumeration by their values. *)
Definition value_gtb (p q : string * list byte) : bool := lex_gt p.2 q.2.

(** The map [0, 1, ..., n-1]. *)
Definition identity_map (n : nat) : list Z := Z.of_nat <$> seq 0 n.

(** [map] tells where the elements of [final] were in [orig]: the
    element now at [k] is the one [orig] had at index [map[k]]. *)
Definition tracks_origin {A} (orig final : list A) (map : list Z) : Prop :=
  ∀ k a, final !! k = Some a →
         ∃ x, map !! k = Some x ∧ 0 ≤ x ∧ orig !! Z.to_nat x = Some a.

(** What the compound loops keep of a map that tracks the members. *)
Definition compnd_tracked (orig : list H5T_cmemb_t) (s : compnd_st) : Prop :=
  ∃ m, cs_map s = Some m ∧ length m = length (cs_memb s) ∧
       length (cs_memb s) = length orig ∧ tracks_origin orig (cs_memb s) m.

(** What the enumeration loops keep of a map that tracks the names. *)
Definition enumer_tracked (orig : list string) (s : enumer_st) : Prop :=
  ∃ m, es_map s = Some m ∧ length m = length (es_name s) ∧
       length (es_name s) = length orig ∧ tracks_origin orig (es_name s) m.

(** The members of an enumeration: each name with its value. *)
Definition enum_members (size : nat) (name : list string) (value : list byte)
  : list (string * list byte) :=
  imap (λ k nm, (nm, enum_value size value k)) name.

(** The storage of the enumeration loops is laid out as the code relies
    on: [n] names, [n] values of [size] bytes, room for a value in
    [tbuf]. *)
Definition enumer_wf (n size : nat) (s : enumer_st) : Prop :=
  length (es_name s) = n ∧
  length (es_value s) = (n * size)%nat ∧
  (size ≤ length (es_tbuf s))%nat.

(** What a member name is associated with: the byte offset of a compound
    member, the value of an enumeration member. *)
Inductive member_key :=
  | Offset (o : N)
  | Value (v : list byte).

(** The members of a descriptor, each name with its key, in their
    current order. *)
Definition members (dt : H5T_t) : list (string * member_key) :=
  match dt_u dt with
  | U_compnd c => (λ m, (cm_name m, Offset (cm_offset m))) <$> compnd_memb c
  | U_enumer e =>
      (λ p, (p.1, Value p.2)) <$>
        enum_members (dt_size dt) (enumer_name e) (enumer_value e)
  | U_atomic _ => []
  end.

(** The value buffer of an enumeration holds one value of [dt->size]
    bytes per name. *)
Definition value_buffer_ok (dt : H5T_t) : Prop :=
  match dt_u dt with
  | U_enumer e =>
      length (enumer_value e) = (length (enumer_name e) * dt_size dt)%nat
  | _ => True
  end.

(** What the enumeration loops keep of the members: the layout, and the
    members up to their order. *)
Definition enumer_reordered (n size : nat) (orig : list (string * list byte))
    (s : enumer_st) : Prop :=
  enumer_wf n size s ∧ enum_members size (es_name s) (es_value s) ≡ₚ orig.

(** A sort call reports failure to its caller: it returns a negative
    value. *)
Definition sort_fails (o : outcome sort_ret) : Prop :=
  ∃ r, o = Returned r ∧ ret_value r < 0.

(** The result of [H5Tget_member_index] when no member has the name:
    [FAIL] is returned and no error is pushed. *)
Definition NotFound : result Z := Success FAIL.

(* ===================================================================== *)
(** ** The loop nest step by step *)
(* ===================================================================== *)

(** Program points of the loop nest: at the test of the outer loop, at
    the test of the inner loop, past the loops. *)
Inductive loop_pc := AtOuterTest | AtInnerTest | AtLoopExit.

(** The variables of the loop nest at a program point: [i], [j] and
    [swapped] as the program has them ([int]s and a flag), the storage
    being sorted, and the count of exchanges made so far. *)
Record loop_cfg (St : Type) := mk_cfg {
  pc : loop_pc;
  var_i : Z;
  var_j : Z;
  var_swapped : bool;
  store : St;
  exchanges : nat
}.
Arguments mk_cfg {St} pc var_i var_j var_swapped store exchanges.
Arguments pc {St} _.
Arguments var_i {St} _.
Arguments var_j {St} _.
Arguments var_swapped {St} _.
Arguments store {St} _.
Arguments exchanges {St} _.

Section Machine.
Context {St : Type}.
Variable gt : nat → St → bool.
Variable swp : nat → St → St.

(** One step: a loop test together with what follows it up to the
    next test. *)
Definition loop_step (c : loop_cfg St) : loop_cfg St :=
  match pc c with
  | AtOuterTest =>
      (* i>0 && swapped ?  then j=0, swapped=FALSE *)
      if (0 <? var_i c) && var_swapped c
      then mk_cfg AtInnerTest (var_i c) 0 false (store c) (exchanges c)
      else mk_cfg AtLoopExit (var_i c) (var_j c) (var_swapped c)
                  (store c) (exchanges c)
  | AtInnerTest =>
      (* j<i ?  then the body and j++, else --i *)
      if var_j c <? var_i c
      then
        if gt (Z.to_nat (var_j c)) (store c)
        then mk_cfg AtInnerTest (var_i c) (var_j c + 1) true
                    (swp (Z.to_nat (var_j c)) (store c)) (S (exchanges c))
        else mk_cfg AtInnerTest (var_i c) (var_j c + 1) (var_swapped c)
                    (store c) (exchanges c)
      else mk_cfg AtOuterTest (var_i c - 1) (var_j c) (var_swapped c)
                  (store c) (exchanges c)
  | AtLoopExit => c
  end.

(** Run until the loops are left, for at most [fuel] steps. *)
Fixpoint loop_run (fuel : nat) (c : loop_cfg St) : option (St * nat) :=
  match pc c with
  | AtLoopExit => Some (store c, exchanges c)
  | _ =>
      match fuel with
      | O => None
      | S fuel' => loop_run fuel' (loop_step c)
      end
  end.

(** [i=nmembs-1, swapped=TRUE]; [j] is not yet set. *)
Definition loop_init (nmembs : Z) (s : St) : loop_cfg St :=
  mk_cfg AtOuterTest (nmembs - 1) 0 true s 0.

Definition bubble_run (fuel : nat) (nmembs : nat) (s : St) : option (St * nat) :=
  loop_run fuel (loop_init (Z.of_nat nmembs) s).

End Machine.

(** Steps that suffice for the loops started with outer index [i]. *)
Fixpoint loop_cost (i : nat) : nat :=
  match i with
  | O => 1
  | S i' => (i + 2 + loop_cost i')%nat
  end.

(** Steps that suffice for a sort of the descriptor. *)
Definition sort_fuel (dt : H5T_t) : nat :=
  loop_cost (length (member_names dt) - 1).

(** [sort_skeleton] with its loops run step by step on [fuel] steps;
    [None] when the fuel does not suffice. *)
Definition sort_skeleton_run
    (fuel : nat) (want : H5T_sort_t)
    (c_gt : nat → compnd_st → bool) (c_lt : list H5T_cmemb_t → nat → bool)
    (e_gt : nat → nat → enumer_st → bool)
    (e_lt : nat → list string → list byte → nat → bool)
    (NDEBUG : bool) (dt : H5T_t) (map : option (list Z))
  : option (outcome sort_ret) :=
  match dt_u dt with
  | U_compnd c =>
      if decide (want = compnd_sorted c)
      then Some (Returned (mk_sort_ret SUCCEED dt map 0))
      else
        let nmembs := length (compnd_memb c) in
        match bubble_run c_gt compnd_swap fuel nmembs
                         (mk_compnd_st (compnd_memb c) map) with
        | None => None
        | Some (s, k) =>
            if NDEBUG || assert_all nmembs (c_lt (cs_memb s))
            then Some (Returned
                   (mk_sort_ret SUCCEED
                      (mk_H5T (dt_size dt) (U_compnd (mk_compnd want (cs_memb s))))
                      (cs_map s) k))
            else Some AssertFailed
        end
  | U_enumer e =>
      if decide (want = enumer_sorted e)
      then Some (Returned (mk_sort_ret SUCCEED dt map 0))
      else
        let nmembs := length (enumer_name e) in
        let size := dt_size dt in
        if negb (size <=? tbuf_size)%nat && negb NDEBUG then Some AssertFailed
        else
          match bubble_run (e_gt size) (enumer_swap size) fuel nmembs
                           (mk_enumer_st (enumer_name e) (enumer_value e)
                                         tbuf_init map) with
          | None => None
          | Some (s, k) =>
              if negb (size <=? tbuf_size)%nat && negb (k =? 0)%nat
              then Some Undefined
              else if NDEBUG || assert_all nmembs (e_lt size (es_name s) (es_value s))
              then Some (Returned
                     (mk_sort_ret SUCCEED
                        (mk_H5T (dt_size dt)
                           (U_enumer (mk_enumer want (es_name s) (es_value s))))
                        (es_map s) k))
              else Some AssertFailed
          end
  | U_atomic _ =>
      Some (if NDEBUG then Returned (mk_sort_ret SUCCEED dt map 0) else AssertFailed)
  end.

Definition H5T_sort_value_run (fuel : nat)
  : bool → H5T_t → option (list Z) → option (outcome sort_ret) :=
  sort_skeleton_run fuel H5T_SORT_VALUE compnd_value_gt compnd_value_lt
    enumer_value_gt (fun size _ value => enumer_value_lt size value).

Definition H5T_sort_name_run (fuel : nat)
  : bool → H5T_t → option (list Z) → option (outcome sort_ret) :=
  sort_skeleton_run fuel H5T_SORT_NAME compnd_name_gt compnd_name_lt
    (fun _ => enumer_name_gt) (fun _ name _ => enumer_name_lt name).

(* ===================================================================== *)
(** ** Further descriptors used in examples *)
(* ===================================================================== *)

(** A descriptor of integer class, four bytes wide. *)
Definition int_descriptor : H5T_t := mk_H5T 4 (U_atomic AC_INTEGER).

(** A compound type in which the name "x" occurs twice. *)
Definition duplicate_names : H5T_t :=
  mk_H5T 12 (U_compnd (mk_compnd H5T_SORT_NONE
    [mk_cmemb "x" 4 0; mk_cmemb "y" 0 1; mk_cmemb "x" 8 2])).

(** A compound type without members. *)
Definition empty_compound : H5T_t := mk_H5T 0 (U_compnd (mk_compnd H5T_SORT_NONE [])).

(** Scenario A once sorted by value. *)
Definition scenario_A_by_value : H5T_t :=
  mk_H5T 12 (U_compnd (mk_compnd H5T_SORT_VALUE
    [mk_cmemb "a" 0 1; mk_cmemb "c" 4 2; mk_cmemb "b" 8 0])).

(** Scenario B once sorted by name. *)
Definition scenario_B_by_name : H5T_t :=
  mk_H5T 4 (U_enumer (mk_enumer H5T_SORT_NAME ["GREEN"; "RED"]
    [x01; x00; x00; x00;  x02; x00; x00; x00])).

(** The loop storage of scenario B at function entry. *)
Definition scenario_B_store : enumer_st :=
  mk_enumer_st ["RED"; "GREEN"] [x02; x00; x00; x00;  x01; x00; x00; x00]
               tbuf_init None.

(* ===================================================================== *)
(** ** The public entry points for the count and the names *)
(* ===================================================================== *)

(** Result of a public function that calls a private one: the value it
    returns, or the errors the call pushed on the error stack, in the
    order in which they were pushed (the last one is the one on top). *)
Inductive api_result (A : Type) :=
  | ApiOk (a : A)
  | ApiFail (stack : list (H5E_major * H5E_minor)).
Arguments ApiOk {A} a.
Arguments ApiFail {A} stack.

Section PublicApi.

Variable hid_t : Type.
Variable H5I_object_verify : hid_t → option H5T_t.

(** [H5Tget_nmembers(type_id)] *)
Definition H5Tget_nmembers (type_id : hid_t) : api_result Z :=
  match H5I_object_verify type_id with
  | None => ApiFail [(H5E_ARGS, H5E_BADTYPE)]
  | Some dt =>
      match H5T_get_nmembers dt with
      | Success ret_value =>
          if ret_value <? 0
          then ApiFail [(H5E_ARGS, H5E_BADTYPE)]
          else ApiOk ret_value
      | Failure maj min => ApiFail [(maj, min); (H5E_ARGS, H5E_BADTYPE)]
      end
  end.

(** [H5Tget_member_name(type_id, membno)] *)
Definition H5Tget_member_name (type_id : hid_t) (membno : Z) : api_result string :=
  match H5I_object_verify type_id with
  | None => ApiFail [(H5E_ARGS, H5E_BADTYPE)]
  | Some dt =>
      match H5T_get_member_name dt membno with
      | Success ret_value => ApiOk ret_value
      | Failure maj min => ApiFail [(maj, min); (H5E_ARGS, H5E_BADTYPE)]
      end
  end.

End PublicApi.

Arguments H5Tget_nmembers {hid_t} H5I_object_verify type_id.
Arguments H5Tget_member_name {hid_t} H5I_object_verify type_id membno.

(** The error on top of the error stack after a failed call. *)
Definition top_error {A} (r : api_result A) : option (H5E_major * H5E_minor) :=
  match r with
  | ApiOk _ => None
  | ApiFail stack => last stack
  end.

(* ===================================================================== *)
(** ** Further observations *)
(* ===================================================================== *)

Global Instance byte_eq_dec : EqDecision byte := Byte.byte_eq_dec.

(** A descriptor has a member list: it is of compound or of enumeration
    class. *)
Definition has_members (dt : H5T_t) : Prop :=
  match dt_u dt with
  | U_atomic _ => False
  | _ => True
  end.

(** The member records of a compound descriptor, in their current order. *)
Definition record_members (dt : H5T_t) : list H5T_cmemb_t :=
  match dt_u dt with
  | U_compnd c => compnd_memb c
  | _ => []
  end.

(** The members of an enumeration descriptor, each name with its value,
    in their current order. *)
Definition enumeration_members (dt : H5T_t) : list (string * list byte) :=
  match dt_u dt with
  | U_enumer e => enum_members (dt_size dt) (enumer_name e) (enumer_value e)
  | _ => []
  end.

(** The members are in the order [want]: by value, no offset (no value)
    is greater than the next; by name, no name is greater than the next;
    no condition for [H5T_SORT_NONE]. *)
Definition members_in_order (want : H5T_sort_t) (dt : H5T_t) : Prop :=
  match want with
  | H5T_SORT_NONE => True
  | H5T_SORT_NAME => adjacent_ordered name_le (member_names dt)
  | H5T_SORT_VALUE =>
      match dt_u dt with
      | U_compnd c => adjacent_ordered N.le (cm_offset <$> compnd_memb c)
      | U_enumer e =>
          ∀ i, (S i < length (enumer_name e))%nat →
               HDmemcmp (drop (i * dt_size dt) (enumer_value e))
                        (drop (S i * dt_size dt) (enumer_value e))
                        (dt_size dt) ≤ 0
      | U_atomic _ => True
      end
  end.

(** The descriptor with its sort state set to [want] and nothing else
    changed. *)
Definition retag (want : H5T_sort_t) (dt : H5T_t) : H5T_t :=
  mk_H5T (dt_size dt)
    match dt_u dt with
    | U_compnd c => U_compnd (mk_compnd want (compnd_memb c))
    | U_enumer e => U_enumer (mk_enumer want (enumer_name e) (enumer_value e))
    | U_atomic a => U_atomic a
    end.

(** What the enumeration loops keep of the members that satisfy [Q],
    when no exchange is of two such members. *)
Definition enumer_filtered (n size : nat) (Q : string * list byte → Prop)
    `{∀ p, Decision (Q p)} (orig : list (string * list byte))
    (s : enumer_st) : Prop :=
  enumer_wf n size s ∧
  filter Q (enum_members size (es_name s) (es_value s)) = filter Q orig.

(** What the loops keep of a map with an entry for every member: its
    length, its entries up to their order, the entries past the
    members, and which entry goes with which name. *)
Definition map_in_step (n : nat) (orig_names : list string) (orig_map : list Z)
    (names : list string) (map : option (list Z)) : Prop :=
  ∃ m, map = Some m ∧ length m = length orig_map ∧ length names = n ∧
       m ≡ₚ orig_map ∧ drop n m = drop n orig_map ∧
       zip names m ≡ₚ zip orig_names orig_map.

(** The values of an enumeration fit the scratch buffer of the sorts. *)
Definition fits_scratch (dt : H5T_t) : Prop :=
  match dt_u dt with
  | U_enumer _ => (dt_size dt ≤ tbuf_size)%nat
  | _ => True
  end.

(** A descriptor with two members at the same offset. *)
Definition shared_offset : H5T_t :=
  mk_H5T 8 (U_compnd (mk_compnd H5T_SORT_NONE
    [mk_cmemb "u" 4 0; mk_cmemb "v" 0 1; mk_cmemb "w" 4 2])).

(** [shared_offset] once sorted by value: "u" stays before "w". *)
Definition shared_offset_by_value : H5T_t :=
  mk_H5T 8 (U_compnd (mk_compnd H5T_SORT_VALUE
    [mk_cmemb "v" 0 1; mk_cmemb "u" 4 0; mk_cmemb "w" 4 2])).

(** Scenario A once sorted by name. *)
Definition scenario_A_by_name : H5T_t :=
  mk_H5T 12 (U_compnd (mk_compnd H5T_SORT_NAME
    [mk_cmemb "a" 0 1; mk_cmemb "b" 8 0; mk_cmemb "c" 4 2])).

(** An enumeration with values of 40 bytes, wider than [tbuf], whose
    two members are out of order by value and by name. *)
Definition wide_values : H5T_t :=
  mk_H5T 40 (U_enumer (mk_enumer H5T_SORT_NONE ["B"; "A"]
    (replicate 40 x01 ++ replicate 40 x00))).

(** * Part II: properties *)

(* ===================================================================== *)
(** ** Properties of the C library primitives *)
(* ===================================================================== *)

Section LibcFacts.

Lemma uchar_nonneg c : 0 ≤ uchar c.
Proof. unfold uchar. lia. Qed.

Lemma uchar_inj c d : uchar c = uchar d → c = d.
Proof.
  unfold uchar. intros H. apply N2Z.inj in H.
  rewrite <- (ascii_N_embedding c), <- (ascii_N_embedding d). by rewrite H.
Qed.

Lemma ubyte_inj a b : ubyte a = ubyte b → a = b.
Proof.
  unfold ubyte. intros H. apply N2Z.inj in H.
  apply (f_equal Byte.of_N) in H. rewrite !Byte.of_to_N in H. congruence.
Qed.

(** Bring the sign of every character and byte in sight into the
    context, for [lia]. *)
Ltac char_bounds :=
  repeat match goal with
    | c : ascii |- _ =>
        lazymatch goal with
        | _ : 0 ≤ uchar c |- _ => fail
        | _ => pose proof (uchar_nonneg c)
        end
    end.

Lemma HDstrcmp_antisym s t : HDstrcmp t s = - HDstrcmp s t.
Proof.
  revert t. induction s as [|c s IH]; intros [|d t]; simpl; try lia.
  rewrite (Z.eqb_sym (uchar d) (uchar c)).
  destruct (Z.eqb_spec (uchar c) (uchar d)) as [E|E]; [|lia].
  rewrite <- E. destruct (uchar c =? 0); [done|apply IH].
Qed.

Lemma HDstrcmp_refl s : HDstrcmp s s = 0.
Proof.
  induction s as [|c s IH]; simpl; [done|].
  rewrite Z.eqb_refl. by destruct (uchar c =? 0).
Qed.

Ltac case_eqbs :=
  repeat match goal with
    | |- context [Z.eqb ?a ?b] => destruct (Z.eqb_spec a b)
    | H : context [Z.eqb ?a ?b] |- _ => destruct (Z.eqb_spec a b)
    end.

Lemma HDstrcmp_le_trans a b c :
  HDstrcmp a b ≤ 0 → HDstrcmp b c ≤ 0 → HDstrcmp a c ≤ 0.
Proof.
  revert b c. induction a as [|x a IH]; intros [|y b] [|z c]; simpl;
    intros Hab Hbc; char_bounds; case_eqbs; try lia.
  by apply (IH b c).
Qed.

Lemma HDstrcmp_c_str s t : HDstrcmp s t = 0 ↔ c_str s = c_str t.
Proof.
  revert t. induction s as [|c s IH]; intros [|d t]; simpl.
  - done.
  - pose proof (uchar_nonneg d).
    destruct (Z.eqb_spec (uchar d) 0); split; (lia || done).
  - pose proof (uchar_nonneg c).
    destruct (Z.eqb_spec (uchar c) 0); split; (lia || done).
  - destruct (Z.eqb_spec (uchar c) (uchar d)) as [E|E].
    + rewrite <- E. apply uchar_inj in E as <-.
      destruct (Z.eqb_spec (uchar c) 0); [done|].
      rewrite IH. split; [congruence|]. by intros [= ->].
    + destruct (Z.eqb_spec (uchar c) 0); destruct (Z.eqb_spec (uchar d) 0);
        split; try lia; try done.
      intros [= -> _]. done.
Qed.

Lemma c_str_idemp s : c_str (c_str s) = c_str s.
Proof.
  induction s as [|c s IH]; simpl; [done|].
  destruct (Z.eqb_spec (uchar c) 0) as [E|E]; simpl; [done|].
  destruct (Z.eqb_spec (uchar c) 0); [done|]. by rewrite IH.
Qed.

Lemma HDstrcmp_xstrdup s : HDstrcmp s (H5MM_xstrdup s) = 0.
Proof. apply HDstrcmp_c_str. unfold H5MM_xstrdup. by rewrite c_str_idemp. Qed.

Lemma lex_gt_asym a b : lex_gt a b = true → lex_gt b a = false.
Proof.
  revert b. induction a as [|x a IH]; intros [|y b]; simpl; try done.
  rewrite (Z.eqb_sym (ubyte y)).
  destruct (Z.eqb_spec (ubyte x) (ubyte y)); [apply IH|lia].
Qed.

Lemma lex_gt_trans a b c :
  lex_gt a b = false → lex_gt b c = false → lex_gt a c = false.
Proof.
  revert b c. induction a as [|x a IH]; intros [|y b] [|z c]; simpl; try done.
  destruct (Z.eqb_spec (ubyte x) (ubyte y)) as [E1|E1];
  destruct (Z.eqb_spec (ubyte y) (ubyte z)) as [E2|E2];
  destruct (Z.eqb_spec (ubyte x) (ubyte z)) as [E3|E3]; try lia.
  apply IH.
Qed.

Lemma HDmemcmp_take p q n : HDmemcmp p q n = HDmemcmp (take n p) (take n q) n.
Proof.
  revert p q. induction n as [|n IH]; intros [|a p] [|b q]; simpl; try done.
  destruct (ubyte a =? ubyte b); [apply IH|done].
Qed.

Lemma HDmemcmp_lex_gt a b n :
  length a = n → length b = n → (0 <? HDmemcmp a b n) = lex_gt a b.
Proof.
  revert a b. induction n as [|n IH]; intros [|x a] [|y b]; simpl; try done.
  intros [= Ha] [= Hb].
  destruct (Z.eqb_spec (ubyte x) (ubyte y)); [by apply IH|].
  destruct (Z.ltb_spec 0 (ubyte x - ubyte y)), (Z.ltb_spec (ubyte y) (ubyte x)); lia.
Qed.

Lemma HDmemcmp_nil_r p n : HDmemcmp p [] n = 0.
Proof. destruct n, p; done. Qed.

End LibcFacts.

(** The entry points are instances of [sort_skeleton]. *)
Lemma H5T_sort_value_skeleton :
  H5T_sort_value =
  sort_skeleton H5T_SORT_VALUE compnd_value_gt compnd_value_lt
    enumer_value_gt (fun size _ value => enumer_value_lt size value).
Proof. reflexivity. Qed.

Lemma H5T_sort_name_skeleton :
  H5T_sort_name =
  sort_skeleton H5T_SORT_NAME compnd_name_gt compnd_name_lt
    (fun _ => enumer_name_gt) (fun _ name _ => enumer_name_lt name).
Proof. reflexivity. Qed.

(* ===================================================================== *)
(** ** The loop nest on a plain array *)
(* ===================================================================== *)

Section SwapFacts.
Context {A : Type}.
Implicit Types l : list A.

Lemma lookup_middle_S l1 x y l2 :
  (l1 ++ x :: y :: l2) !! S (length l1) = Some y.
Proof.
  replace (l1 ++ x :: y :: l2) with ((l1 ++ [x]) ++ y :: l2)
    by (by rewrite <- app_assoc).
  apply list_lookup_middle. rewrite length_app. simpl. lia.
Qed.

Lemma swap_elems_app l1 x y l2 :
  swap_elems (length l1) (l1 ++ x :: y :: l2) = l1 ++ y :: x :: l2.
Proof.
  unfold swap_elems.
  rewrite list_lookup_middle by done. rewrite lookup_middle_S.
  rewrite insert_app_r_alt by lia. rewrite Nat.sub_diag. simpl.
  rewrite insert_app_r_alt by lia.
  replace (S (length l1) - length l1)%nat with 1%nat by lia. done.
Qed.

Lemma swap_elems_split j l x y :
  l !! j = Some x → l !! S j = Some y →
  l = take j l ++ x :: y :: drop (S (S j)) l ∧ length (take j l) = j.
Proof.
  intros Hx Hy. split.
  - rewrite <- (take_drop_middle l j x Hx) at 1. f_equal. f_equal.
    rewrite <- (take_drop_middle l (S j) y Hy) at 1.
    rewrite drop_app_length'; [done|].
    rewrite length_take. apply lookup_lt_Some in Hy. lia.
  - rewrite length_take. apply lookup_lt_Some in Hx. lia.
Qed.

Lemma swap_elems_perm j l : swap_elems j l ≡ₚ l.
Proof.
  destruct (l !! j) as [x|] eqn:Hx; [|by unfold swap_elems; rewrite Hx].
  destruct (l !! S j) as [y|] eqn:Hy; [|by unfold swap_elems; rewrite Hx, Hy].
  destruct (swap_elems_split j l x y Hx Hy) as [E Hlen].
  rewrite E at 1. rewrite <- Hlen at 1. rewrite swap_elems_app.
  rewrite E at 3. apply Permutation_app_head, perm_swap.
Qed.

Lemma swap_elems_length j l : length (swap_elems j l) = length l.
Proof. apply Permutation_length, swap_elems_perm. Qed.

Lemma swap_elems_lookup j l x y :
  l !! j = Some x → l !! S j = Some y →
  ∀ p, swap_elems j l !! p =
       if decide (p = j) then Some y
       else if decide (p = S j) then Some x else l !! p.
Proof.
  intros Hx Hy p. unfold swap_elems. rewrite Hx, Hy.
  pose proof (lookup_lt_Some _ _ _ Hx). pose proof (lookup_lt_Some _ _ _ Hy).
  destruct (decide (p = j)) as [->|].
  - rewrite list_lookup_insert_ne by lia.
    by rewrite list_lookup_insert_eq by lia.
  - destruct (decide (p = S j)) as [->|].
    + by rewrite list_lookup_insert_eq by (rewrite length_insert; lia).
    + by rewrite !list_lookup_insert_ne by lia.
Qed.

End SwapFacts.

Section ListBubble.
Context {A : Type} (gtb : A → A → bool).


Lemma inner_loop_perm todo : ∀ j (l : list A) sw k,
  (inner_loop (lgt gtb) swap_elems todo j l sw k).1.1 ≡ₚ l.
Proof.
  induction todo as [|todo IH]; intros j l sw k; simpl; [done|].
  destruct (lgt gtb j l); rewrite IH; [apply swap_elems_perm|done].
Qed.

Lemma outer_loop_perm i : ∀ (l : list A) sw k,
  (outer_loop (lgt gtb) swap_elems i sw l k).1 ≡ₚ l.
Proof.
  induction i as [|i IH]; intros l sw k; [done|].
  cbn [outer_loop]. destruct sw; [|done].
  pose proof (inner_loop_perm (S i) 0 l false k) as Hp.
  destruct (inner_loop _ _ (S i) 0 l false k) as [[l' sw'] k'].
  rewrite IH. exact Hp.
Qed.

Lemma bubble_perm n (l : list A) : (bubble (lgt gtb) swap_elems n l).1 ≡ₚ l.
Proof. apply outer_loop_perm. Qed.

Hypothesis gtb_asym : ∀ a b, gtb a b = true → gtb b a = false.
Hypothesis gtb_trans : ∀ a b c, gtb a b = false → gtb b c = false → gtb a c = false.

Local Instance ngt_trans : Transitive (ngt gtb).
Proof. intros a b c. apply gtb_trans. Qed.

(** One pass, seen from the element [x] it currently carries: [done] is
    what the pass has left behind, none of it greater than [x]. *)
Lemma inner_loop_carry todo : ∀ done x rest sw k,
  (todo ≤ length rest)%nat →
  Forall (λ d, ngt gtb d x) done →
  ∃ mid m sw' k',
    inner_loop (lgt gtb) swap_elems todo (length done) (done ++ x :: rest) sw k
      = (done ++ mid ++ m :: drop todo rest, sw', k') ∧
    length mid = todo ∧
    mid ++ [m] ≡ₚ x :: take todo rest ∧
    Forall (λ d, ngt gtb d m) (done ++ mid) ∧
    (sw' = false →
       sw = false ∧ mid ++ [m] = x :: take todo rest ∧
       Sorted (ngt gtb) (x :: take todo rest)).
Proof.
  induction todo as [|todo IH]; intros done x rest sw k Hlen Hdone.
  - exists [], x, sw, k. simpl. rewrite drop_0, take_0, app_nil_r.
    repeat split; try done. repeat constructor.
  - destruct rest as [|y rest]; [simpl in Hlen; lia|]. simpl in Hlen.
    cbn [inner_loop]. unfold lgt at 1.
    rewrite list_lookup_middle by done. rewrite lookup_middle_S.
    destruct (gtb x y) eqn:Hxy.
    + rewrite swap_elems_app.
      destruct (IH (done ++ [y]) x rest true (S k)) as (mid & m & sw' & k' & E & Hm & Hp & Hf & Hs).
      { lia. }
      { apply Forall_app. split; [done|]. constructor; [|done]. by apply gtb_asym. }
      exists (y :: mid), m, sw', k'.
      rewrite length_app in E. simpl in E. rewrite Nat.add_1_r in E.
      replace ((done ++ [y]) ++ x :: rest) with (done ++ y :: x :: rest) in E
        by (by rewrite <- app_assoc).
      rewrite E. rewrite <- !app_assoc in *. simpl in *.
      split_and!; [done|by rewrite Hm|by rewrite Hp; apply perm_swap|done|].
      intros Hsw. by destruct (Hs Hsw).
    + destruct (IH (done ++ [x]) y rest sw k) as (mid & m & sw' & k' & E & Hm & Hp & Hf & Hs).
      { lia. }
      { apply Forall_app. split.
        - eapply Forall_impl; [exact Hdone|]. intros d Hd. simpl in *.
          by apply (gtb_trans d x y).
        - by repeat constructor. }
      exists (x :: mid), m, sw', k'.
      rewrite length_app in E. simpl in E. rewrite Nat.add_1_r in E.
      replace ((done ++ [x]) ++ y :: rest) with (done ++ x :: y :: rest) in E
        by (by rewrite <- app_assoc).
      rewrite E. rewrite <- !app_assoc in *. simpl in *.
      split_and!; [done|by rewrite Hm|by rewrite Hp|done|].
      intros Hsw. destruct (Hs Hsw) as (-> & -> & Hsorted).
      split_and!; [done|done|]. constructor; [done|]. by constructor.
Qed.

Lemma outer_loop_sorted i : ∀ (l : list A) sw k,
  (i < length l)%nat →
  StronglySorted (ngt gtb) (drop (S i) l) →
  (∀ x y, x ∈ take (S i) l → y ∈ drop (S i) l → ngt gtb x y) →
  (sw = false → StronglySorted (ngt gtb) (take (S i) l)) →
  StronglySorted (ngt gtb) (outer_loop (lgt gtb) swap_elems i sw l k).1.
Proof.
  induction i as [|i IH]; intros l sw k Hlen Hsuf Hcross Hpre.
  - simpl. rewrite <- (take_drop 1 l). apply StronglySorted_app_2; [done| |done].
    destruct l as [|x l]; simpl; repeat constructor.
  - cbn [outer_loop]. destruct sw.
    2:{ simpl. rewrite <- (take_drop (S (S i)) l).
        apply StronglySorted_app_2; auto. }
    destruct l as [|x rest]; [simpl in Hlen; lia|]. simpl in Hlen.
    destruct (inner_loop_carry (S i) [] x rest false k) as
      (mid & m & sw' & k' & E & Hm & Hp & Hf & Hs); [lia|done|].
    cbn [app length] in E. rewrite E. cbn [app] in Hf. cbn [fst].
    cbn [drop take] in Hsuf, Hcross.
    assert (Hdrop : drop (S i) (mid ++ m :: drop (S i) rest) = m :: drop (S i) rest).
    { by rewrite drop_app_length' by done. }
    assert (Htake : take (S i) (mid ++ m :: drop (S i) rest) = mid).
    { by rewrite take_app_length' by done. }
    assert (Hcross' : ∀ z y, z ∈ mid ++ [m] → y ∈ drop (S i) rest → ngt gtb z y).
    { intros z y Hz Hy. apply Hcross; [by rewrite <- Hp|done]. }
    apply IH.
    + rewrite length_app. simpl. lia.
    + rewrite Hdrop. constructor; [done|].
      apply Forall_forall. intros y Hy. apply Hcross'; [|done].
      apply elem_of_app. right. by apply list_elem_of_singleton.
    + rewrite Hdrop, Htake. intros z y Hz [->|Hy]%elem_of_cons.
      * rewrite Forall_forall in Hf. by apply Hf.
      * apply Hcross'; [|done]. apply elem_of_app. by left.
    + intros Hsw. destruct (Hs Hsw) as (_ & Heq & Hsorted).
      rewrite Htake. apply Sorted_StronglySorted in Hsorted; [|apply _].
      rewrite <- Heq in Hsorted. by apply StronglySorted_app_1_l in Hsorted.
Qed.

Theorem bubble_sorted (l : list A) :
  StronglySorted (ngt gtb) (bubble (lgt gtb) swap_elems (length l) l).1.
Proof.
  unfold bubble. destruct l as [|x l]; [simpl; constructor|].
  apply outer_loop_sorted.
  - simpl. lia.
  - rewrite drop_ge by (simpl; lia). constructor.
  - intros a b _. rewrite drop_ge by (simpl; lia). by intros ?%elem_of_nil.
  - done.
Qed.

End ListBubble.

(* ===================================================================== *)
(** ** From the storage of a sort to the array it orders *)
(* ===================================================================== *)

Section LoopInvariant.
Context {St : Type}.
Variable gt : nat → St → bool.
Variable swp : nat → St → St.

(** Every exchange of [bubble nmembs] is of two elements inside the
    first [nmembs]; a property kept by such exchanges is kept by the
    loops. *)
Variable nmembs : nat.
Variable P : St → Prop.
Hypothesis swp_keeps : ∀ j s, (S j < nmembs)%nat → P s → P (swp j s).

Lemma inner_loop_keeps todo : ∀ j s sw k,
  (j + todo < nmembs)%nat → P s → P (inner_loop gt swp todo j s sw k).1.1.
Proof.
  induction todo as [|todo IH]; intros j s sw k Hj Hs; [done|].
  cbn [inner_loop]. destruct (gt j s); apply IH; try lia; try done.
  apply swp_keeps; [lia|done].
Qed.

Lemma outer_loop_keeps i : ∀ s sw k,
  (i < nmembs)%nat → P s → P (outer_loop gt swp i sw s k).1.
Proof.
  induction i as [|i IH]; intros s sw k Hi Hs; [done|].
  cbn [outer_loop]. destruct sw; [|done].
  pose proof (inner_loop_keeps (S i) 0 s false k ltac:(lia) Hs) as Hp.
  destruct (inner_loop gt swp (S i) 0 s false k) as [[s' sw'] k'].
  apply IH; [lia|done].
Qed.

Lemma bubble_keeps s : P s → P (bubble gt swp nmembs s).1.
Proof.
  intros Hs. unfold bubble.
  destruct (Nat.eq_dec nmembs 0%nat) as [E|E]; [by rewrite E|].
  apply outer_loop_keeps; [lia|done].
Qed.

End LoopInvariant.

Section NoExchange.
Context {St : Type}.
Variable gt : nat → St → bool.
Variable swp : nat → St → St.

(** The count of exchanges only grows, and a loop that leaves it as it
    was found every pair it looked at in order and changed nothing. *)
Lemma inner_loop_count todo : ∀ j s sw k s' sw' k',
  inner_loop gt swp todo j s sw k = (s', sw', k') →
  (k ≤ k')%nat ∧
  (k' = k → s' = s ∧ sw' = sw ∧
            ∀ j', (j ≤ j' < j + todo)%nat → gt j' s = false).
Proof.
  induction todo as [|todo IH]; intros j s sw k s' sw' k' H; cbn [inner_loop] in H.
  - injection H as <- <- <-. split; [lia|]. intros _. split_and!; try done.
    intros; lia.
  - destruct (gt j s) eqn:E; apply IH in H as [Hle Heq].
    + split; [lia|]. intros ->. lia.
    + split; [done|]. intros Hk. destruct (Heq Hk) as (-> & -> & Hno).
      split_and!; try done. intros j' Hj'.
      destruct (decide (j' = j)) as [->|]; [done|]. apply Hno. lia.
Qed.

Lemma outer_loop_count i : ∀ sw s k s' k',
  outer_loop gt swp i sw s k = (s', k') →
  (k ≤ k')%nat ∧
  (k' = k → s' = s ∧ (sw = true → ∀ j', (j' < i)%nat → gt j' s = false)).
Proof.
  induction i as [|i IH]; intros sw s k s' k' H; cbn [outer_loop] in H.
  - injection H as <- <-. split; [lia|]. intros _. split; [done|]. intros; lia.
  - destruct sw.
    2:{ injection H as <- <-. split; [lia|]. by intros _. }
    destruct (inner_loop gt swp (S i) 0 s false k) as [[s1 sw1] k1] eqn:E.
    apply inner_loop_count in E as [Hle1 Heq1]. apply IH in H as [Hle Heq].
    split; [lia|]. intros ->. assert (k1 = k) as -> by lia.
    destruct (Heq1 eq_refl) as (-> & -> & Hno). destruct (Heq eq_refl) as [-> _].
    split; [done|]. intros _ j' Hj'. apply Hno. lia.
Qed.

Lemma bubble_no_exchange nmembs s s' :
  bubble gt swp nmembs s = (s', 0%nat) →
  s' = s ∧ ∀ j, (S j < nmembs)%nat → gt j s = false.
Proof.
  intros H. apply outer_loop_count in H as [_ Heq].
  destruct (Heq eq_refl) as [-> Hno]. split; [done|].
  intros j Hj. apply Hno; [done|lia].
Qed.

End NoExchange.

Section Simulation.
Context {St A : Type}.
Variable gt : nat → St → bool.
Variable swp : nat → St → St.

(** [view] reads off the storage the array being ordered, [gtb] is the
    comparison of two of its elements. *)
Variable view : St → list A.
Variable inv : St → Prop.
Variable gtb : A → A → bool.
Hypothesis sim_gt : ∀ j s, inv s → gt j s = lgt gtb j (view s).
Hypothesis sim_swp : ∀ j s,
  inv s → (S j < length (view s))%nat →
  inv (swp j s) ∧ view (swp j s) = swap_elems j (view s).

Lemma lgt_true_lt j (l : list A) : lgt gtb j l = true → (S j < length l)%nat.
Proof.
  unfold lgt. destruct (l !! j); [|done].
  destruct (l !! S j) eqn:E; [|done]. intros _. by apply lookup_lt_Some in E.
Qed.

Lemma sim_inner_loop todo : ∀ j s sw k,
  inv s →
  ∃ s' sw' k',
    inner_loop gt swp todo j s sw k = (s', sw', k') ∧ inv s' ∧
    inner_loop (lgt gtb) swap_elems todo j (view s) sw k = (view s', sw', k').
Proof.
  induction todo as [|todo IH]; intros j s sw k Hs; [by eexists _, _, _|].
  cbn [inner_loop]. rewrite (sim_gt j s Hs).
  destruct (lgt gtb j (view s)) eqn:E; [|by apply IH].
  destruct (sim_swp j s Hs (lgt_true_lt _ _ E)) as [Hinv <-]. by apply IH.
Qed.

Lemma sim_outer_loop i : ∀ s sw k,
  inv s →
  ∃ s' k',
    outer_loop gt swp i sw s k = (s', k') ∧ inv s' ∧
    outer_loop (lgt gtb) swap_elems i sw (view s) k = (view s', k').
Proof.
  induction i as [|i IH]; intros s sw k Hs; [by eexists _, _|].
  cbn [outer_loop]. destruct sw; [|by eexists _, _].
  destruct (sim_inner_loop (S i) 0 s false k Hs) as (s' & sw' & k' & -> & Hs' & ->).
  by apply IH.
Qed.

Lemma sim_bubble n s :
  inv s →
  ∃ s' k',
    bubble gt swp n s = (s', k') ∧ inv s' ∧
    bubble (lgt gtb) swap_elems n (view s) = (view s', k').
Proof. apply sim_outer_loop. Qed.

Hypothesis gtb_asym : ∀ a b, gtb a b = true → gtb b a = false.
Hypothesis gtb_trans : ∀ a b c, gtb a b = false → gtb b c = false → gtb a c = false.

(** The loops, run over as many elements as the array has, leave it
    in order. *)
Lemma bubble_view_sorted s :
  inv s →
  StronglySorted (ngt gtb) (view (bubble gt swp (length (view s)) s).1).
Proof.
  intros Hs. destruct (sim_bubble (length (view s)) s Hs) as (s' & k' & E & _ & El).
  rewrite E. cbn [fst].
  pose proof (bubble_sorted gtb gtb_asym gtb_trans (view s)) as H.
  by rewrite El in H.
Qed.

End Simulation.

(* ===================================================================== *)
(** ** Order between neighbours *)
(* ===================================================================== *)

Section OrderFacts.
Context {A : Type}.

Lemma StronglySorted_adjacent (R : A → A → Prop) l :
  StronglySorted R l → adjacent_ordered R l.
Proof.
  intros H. induction H as [|x l Hs IH Hall]; intros i a b Ha Hb; [done|].
  destruct i as [|i]; simpl in *.
  - injection Ha as ->. rewrite Forall_forall in Hall. apply Hall.
    by eapply list_elem_of_lookup_2.
  - by eapply IH.
Qed.

Lemma adjacent_ordered_fmap {B} (f : A → B) (R : B → B → Prop) l :
  adjacent_ordered (λ a b, R (f a) (f b)) l → adjacent_ordered R (f <$> l).
Proof.
  intros H i a b. rewrite !list_lookup_fmap.
  destruct (l !! i) as [x|] eqn:Hx; [|done].
  destruct (l !! S i) as [y|] eqn:Hy; [|done].
  intros [= <-] [= <-]. by eapply H.
Qed.

Lemma adjacent_ordered_impl (R R' : A → A → Prop) l :
  (∀ a b, R a b → R' a b) → adjacent_ordered R l → adjacent_ordered R' l.
Proof. intros HR H i a b Ha Hb. eapply HR, H; eauto. Qed.

End OrderFacts.

(* ===================================================================== *)
(** ** The arrays the four loops order *)
(* ===================================================================== *)

Lemma offset_gtb_asym a b : offset_gtb a b = true → offset_gtb b a = false.
Proof. unfold offset_gtb. intros H%N.ltb_lt. apply N.ltb_ge. lia. Qed.

Lemma offset_gtb_trans a b c :
  offset_gtb a b = false → offset_gtb b c = false → offset_gtb a c = false.
Proof. unfold offset_gtb. rewrite !N.ltb_ge. lia. Qed.

Lemma name_gtb_asym a b : name_gtb a b = true → name_gtb b a = false.
Proof.
  unfold name_gtb. rewrite (HDstrcmp_antisym a b).
  intros H%Z.ltb_lt. apply Z.ltb_ge. lia.
Qed.

Lemma name_gtb_trans a b c :
  name_gtb a b = false → name_gtb b c = false → name_gtb a c = false.
Proof. unfold name_gtb. rewrite !Z.ltb_ge. apply HDstrcmp_le_trans. Qed.

Lemma compnd_value_sorted memb map :
  adjacent_ordered N.le
    (cm_offset <$> cs_memb (bubble compnd_value_gt compnd_swap (length memb)
                              (mk_compnd_st memb map)).1).
Proof.
  apply adjacent_ordered_fmap.
  pose proof (bubble_view_sorted compnd_value_gt compnd_swap cs_memb
                (λ _, True) offset_gtb ltac:(done) ltac:(done)
                offset_gtb_asym offset_gtb_trans (mk_compnd_st memb map) I) as H.
  eapply adjacent_ordered_impl; [|apply StronglySorted_adjacent, H].
  intros a b. unfold ngt, offset_gtb. rewrite N.ltb_ge. lia.
Qed.

Lemma compnd_name_sorted memb map :
  adjacent_ordered name_le
    (cm_name <$> cs_memb (bubble compnd_name_gt compnd_swap (length memb)
                            (mk_compnd_st memb map)).1).
Proof.
  apply adjacent_ordered_fmap.
  pose proof (bubble_view_sorted compnd_name_gt compnd_swap cs_memb
                (λ _, True) cname_gtb ltac:(done) ltac:(done)
                (λ a b, name_gtb_asym _ _) (λ a b c, name_gtb_trans _ _ _)
                (mk_compnd_st memb map) I) as H.
  eapply adjacent_ordered_impl; [|apply StronglySorted_adjacent, H].
  intros a b. unfold ngt, cname_gtb, name_gtb, name_le. by rewrite Z.ltb_ge.
Qed.

Lemma enumer_name_sorted size name value tbuf map :
  adjacent_ordered name_le
    (es_name (bubble enumer_name_gt (enumer_swap size) (length name)
                (mk_enumer_st name value tbuf map)).1).
Proof.
  pose proof (bubble_view_sorted enumer_name_gt (enumer_swap size) es_name
                (λ _, True) name_gtb ltac:(done) ltac:(done)
                name_gtb_asym name_gtb_trans
                (mk_enumer_st name value tbuf map) I) as H.
  eapply adjacent_ordered_impl; [|apply StronglySorted_adjacent, H].
  intros a b. unfold ngt, name_gtb, name_le. by rewrite Z.ltb_ge.
Qed.

(* ===================================================================== *)
(** ** Order after a sort *)
(* ===================================================================== *)

Lemma adjacent_ordered_nil {A} (R : A → A → Prop) : adjacent_ordered R [].
Proof. by intros i a b ?. Qed.

(** C1. On a descriptor whose recorded sort state is truthful (the data
    model's invariant), a call of [H5T_sort_value] that returns leaves
    the members of a compound type with non-decreasing offsets between
    neighbours, and a call of [H5T_sort_name] that returns leaves the
    member names of a compound or enumeration type in non-decreasing
    [strcmp] order between neighbours. *)
Theorem sort_order_invariant NDEBUG dt map r :
  sort_state_consistent dt →
  (H5T_sort_value NDEBUG dt map = Returned r →
     adjacent_ordered N.le (member_offsets (ret_dt r))) ∧
  (H5T_sort_name NDEBUG dt map = Returned r →
     adjacent_ordered name_le (member_names (ret_dt r))).
Proof.
  intros Hinv. destruct dt as [size [c|e|a]]; split; intros H.
  - unfold H5T_sort_value in H. cbn [dt_u dt_size] in H.
    destruct (decide _) as [Es|Es].
    + injection H as <-. apply Hinv. done.
    + pose proof (compnd_value_sorted (compnd_memb c) map) as Hs.
      destruct (bubble _ _ _ _) as [s k]. destruct (NDEBUG || _); [|done].
      injection H as <-. exact Hs.
  - unfold H5T_sort_name in H. cbn [dt_u dt_size] in H.
    destruct (decide _) as [Es|Es].
    + injection H as <-. apply Hinv. done.
    + pose proof (compnd_name_sorted (compnd_memb c) map) as Hs.
      destruct (bubble _ _ _ _) as [s k]. destruct (NDEBUG || _); [|done].
      injection H as <-. exact Hs.
  - unfold H5T_sort_value in H. cbn [dt_u dt_size] in H.
    destruct (decide _); [injection H as <-; apply adjacent_ordered_nil|].
    destruct (negb (_ <=? _)%nat && negb NDEBUG); [done|].
    destruct (bubble _ _ _ _) as [s k].
      destruct (negb _ && negb (k =? 0)%nat); [done|]. destruct (NDEBUG || _); [|done].
    injection H as <-. apply adjacent_ordered_nil.
  - unfold H5T_sort_name in H. cbn [dt_u dt_size] in H.
    destruct (decide _) as [Es|Es].
    + injection H as <-. apply Hinv. done.
    + destruct (negb (_ <=? _)%nat && negb NDEBUG); [done|].
      pose proof (enumer_name_sorted size (enumer_name e) (enumer_value e)
                    tbuf_init map) as Hs.
      destruct (bubble _ _ _ _) as [s k].
      destruct (negb _ && negb (k =? 0)%nat); [done|]. destruct (NDEBUG || _); [|done].
      injection H as <-. exact Hs.
  - unfold H5T_sort_value in H. cbn [dt_u] in H. destruct NDEBUG; [|done].
    injection H as <-. apply adjacent_ordered_nil.
  - unfold H5T_sort_name in H. cbn [dt_u] in H. destruct NDEBUG; [|done].
    injection H as <-. apply adjacent_ordered_nil.
Qed.

(* ===================================================================== *)
(** ** The caller's map *)
(* ===================================================================== *)

Section Tracking.
Context {A : Type}.
Implicit Types orig final : list A.

Lemma tracks_origin_identity orig :
  tracks_origin orig orig (identity_map (length orig)).
Proof.
  intros k a Hk. exists (Z.of_nat k). unfold identity_map.
  rewrite list_lookup_fmap, lookup_seq_lt by (by eapply lookup_lt_Some).
  rewrite Nat2Z.id. split_and!; [done|lia|done].
Qed.

Lemma tracks_origin_swap orig final map j :
  length map = length final → (S j < length final)%nat →
  tracks_origin orig final map →
  tracks_origin orig (swap_elems j final) (swap_elems j map).
Proof.
  intros Hlen Hj Ht k a.
  destruct (lookup_lt_is_Some_2 final j ltac:(lia)) as [x Hx].
  destruct (lookup_lt_is_Some_2 final (S j) ltac:(lia)) as [y Hy].
  destruct (lookup_lt_is_Some_2 map j ltac:(lia)) as [mx Hmx].
  destruct (lookup_lt_is_Some_2 map (S j) ltac:(lia)) as [my Hmy].
  rewrite (swap_elems_lookup j final x y Hx Hy).
  rewrite (swap_elems_lookup j map mx my Hmx Hmy).
  destruct (decide (k = j)) as [->|]; [|destruct (decide (k = S j)) as [->|]].
  - intros [= <-]. destruct (Ht _ _ Hy) as (z & Hz & ?). exists z. by rewrite <- Hmy.
  - intros [= <-]. destruct (Ht _ _ Hx) as (z & Hz & ?). exists z. by rewrite <- Hmx.
  - apply Ht.
Qed.

Lemma tracks_origin_fmap {B} (f : A → B) orig final map :
  tracks_origin orig final map → tracks_origin (f <$> orig) (f <$> final) map.
Proof.
  intros Ht k b. rewrite list_lookup_fmap.
  destruct (final !! k) as [a|] eqn:Ha; [|done]. intros [= <-].
  destruct (Ht _ _ Ha) as (x & Hx & Hx0 & Ho). exists x.
  by rewrite list_lookup_fmap, Ho.
Qed.

End Tracking.

Lemma compnd_swap_tracked orig j s :
  (S j < length orig)%nat → compnd_tracked orig s → compnd_tracked orig (compnd_swap j s).
Proof.
  intros Hj (m & Hm & Hlen & Hn & Ht). exists (swap_elems j m). simpl.
  rewrite Hm, !swap_elems_length. split_and!; try done.
  apply tracks_origin_swap; [done|lia|done].
Qed.

Lemma enumer_swap_tracked size orig j s :
  (S j < length orig)%nat → enumer_tracked orig s → enumer_tracked orig (enumer_swap size j s).
Proof.
  intros Hj (m & Hm & Hlen & Hn & Ht). exists (swap_elems j m). simpl.
  rewrite Hm, !swap_elems_length. split_and!; try done.
  apply tracks_origin_swap; [done|lia|done].
Qed.

Lemma identity_map_length n : length (identity_map n) = n.
Proof. unfold identity_map. by rewrite length_fmap, length_seq. Qed.

Lemma skeleton_tracks want c_gt c_lt e_gt e_lt NDEBUG dt r :
  sort_skeleton want c_gt c_lt e_gt e_lt NDEBUG dt
    (Some (identity_map (length (member_names dt)))) = Returned r →
  ∃ map', ret_map r = Some map' ∧
          length map' = length (member_names dt) ∧
          tracks_origin (member_names dt) (member_names (ret_dt r)) map'.
Proof.
  pose proof identity_map_length as Hil.
  destruct dt as [size [c|e|a]]; unfold sort_skeleton, member_names;
    cbn [dt_u dt_size]; intros H.
  - rewrite length_fmap in *. destruct (decide _).
    + injection H as <-. eexists. split_and!; [done|by rewrite Hil|].
      simpl. rewrite <- (length_fmap cm_name). apply tracks_origin_identity.
    + pose proof (bubble_keeps c_gt compnd_swap (length (compnd_memb c))
                    (compnd_tracked (compnd_memb c))
                    (compnd_swap_tracked (compnd_memb c))
                    (mk_compnd_st (compnd_memb c)
                       (Some (identity_map (length (compnd_memb c)))))) as Hk.
      destruct (bubble _ _ _ _) as [s k]. destruct (NDEBUG || _); [|done].
      injection H as <-. simpl in *.
      destruct Hk as (m & Hm & Hlen & Hn & Ht).
      { eexists. split_and!; [done|by rewrite Hil|done|].
        apply tracks_origin_identity. }
      exists m. split_and!; [done|lia|by apply tracks_origin_fmap].
  - destruct (decide _).
    + injection H as <-. eexists. split_and!; [done|by rewrite Hil|].
      apply tracks_origin_identity.
    + destruct (negb (_ <=? _)%nat && negb NDEBUG); [done|].
      pose proof (bubble_keeps (e_gt size) (enumer_swap size) (length (enumer_name e))
                    (enumer_tracked (enumer_name e))
                    (enumer_swap_tracked size (enumer_name e))
                    (mk_enumer_st (enumer_name e) (enumer_value e) tbuf_init
                       (Some (identity_map (length (enumer_name e)))))) as Hk.
      destruct (bubble _ _ _ _) as [s k].
      destruct (negb _ && negb (k =? 0)%nat); [done|]. destruct (NDEBUG || _); [|done].
      injection H as <-. simpl in *.
      destruct Hk as (m & Hm & Hlen & Hn & Ht).
      { eexists. split_and!; [done|by rewrite Hil|done|].
        apply tracks_origin_identity. }
      exists m. split_and!; [done|lia|done].
  - destruct NDEBUG; [|done]. injection H as <-. by exists [].
Qed.

(** C2 (as amended).  When the caller's map starts out as the identity
    [0, 1, ..., n-1], after a call of [H5T_sort_value] or [H5T_sort_name]
    that returns, the member at each position [k] is, by name, the
    member that was at index [map[k]] before the call; the map still has
    [n] entries.  For the record [("b",8), ("a",0), ("c",4)] sorting by
    value gives [("a",0), ("c",4), ("b",8)] and the map [1,2,0]. *)
Theorem map_tracks_origin NDEBUG dt r :
  H5T_sort_value NDEBUG dt (Some (identity_map (length (member_names dt)))) = Returned r ∨
  H5T_sort_name NDEBUG dt (Some (identity_map (length (member_names dt)))) = Returned r →
  (∃ map', ret_map r = Some map' ∧
           length map' = length (member_names dt) ∧
           tracks_origin (member_names dt) (member_names (ret_dt r)) map') ∧
  H5T_sort_value NDEBUG scenario_A (Some [0; 1; 2]) =
    Returned (mk_sort_ret SUCCEED
                (mk_H5T 12 (U_compnd (mk_compnd H5T_SORT_VALUE
                   [mk_cmemb "a" 0 1; mk_cmemb "c" 4 2; mk_cmemb "b" 8 0])))
                (Some [1; 2; 0]) 2).
Proof.
  intros H. split; [|by destruct NDEBUG].
  destruct H as [H|H].
  - rewrite H5T_sort_value_skeleton in H. by eapply skeleton_tracks.
  - rewrite H5T_sort_name_skeleton in H. by eapply skeleton_tracks.
Qed.

(** C2, the claim as stated fails when the map does not start out as the
    identity: with the map [0,0,0] the record of scenario A is sorted to
    "a", "c", "b", the map stays [0,0,0], and the member at position 0
    is "a" while the member originally at index [map[0] = 0] is "b". *)
Lemma map_tracks_origin_needs_identity :
  ∃ r, H5T_sort_value true scenario_A (Some [0; 0; 0]) = Returned r ∧
       ret_map r = Some [0; 0; 0] ∧
       member_names (ret_dt r) = ["a"; "c"; "b"]%string ∧
       member_names scenario_A = ["b"; "a"; "c"]%string ∧
       ¬ tracks_origin (member_names scenario_A) (member_names (ret_dt r)) [0; 0; 0].
Proof.
  eexists. split_and!; [reflexivity..|].
  intros Ht. destruct (Ht 0%nat "a"%string eq_refl) as (x & Hx & _ & Ho).
  injection Hx as <-. discriminate Ho.
Qed.

(* ===================================================================== *)
(** ** The value buffer of an enumeration *)
(* ===================================================================== *)

Section ValueBuffer.
Local Open Scope nat_scope.
Implicit Types buf src value : list byte.

Lemma HDmemcpy_length buf off src n :
  off + n ≤ length buf → n ≤ length src →
  length (HDmemcpy buf off src n) = length buf.
Proof.
  intros. unfold HDmemcpy.
  rewrite !length_app, !length_take_le, length_drop by lia. lia.
Qed.

Lemma HDmemcpy_lookup buf off src n p :
  off + n ≤ length buf → n ≤ length src →
  HDmemcpy buf off src n !! p =
    if decide (off ≤ p < off + n) then src !! (p - off) else buf !! p.
Proof.
  intros. unfold HDmemcpy. destruct (decide (p < off)).
  - rewrite lookup_app_l by (rewrite length_take; lia).
    rewrite lookup_take_lt by lia. case_decide; [lia|done].
  - rewrite lookup_app_r by (rewrite length_take; lia).
    rewrite length_take_le by lia. destruct (decide (p < off + n)).
    + rewrite lookup_app_l by (rewrite length_take; lia).
      rewrite lookup_take_lt by lia. case_decide; [done|lia].
    + rewrite lookup_app_r by (rewrite length_take; lia).
      rewrite length_take_le by lia. rewrite lookup_drop.
      case_decide; [lia|]. f_equal. lia.
Qed.

Lemma enum_value_lookup size value k q :
  enum_value size value k !! q =
    if decide (q < size) then value !! (k * size + q) else None.
Proof. unfold enum_value. rewrite lookup_take. case_decide; [|done]. apply lookup_drop. Qed.

Lemma enum_value_length n size value k :
  length value = n * size → k < n → length (enum_value size value k) = size.
Proof.
  intros Hv Hk. unfold enum_value. rewrite length_take, length_drop, Hv.
  assert (k * size + size ≤ n * size) by nia. lia.
Qed.

(** The three [HDmemcpy] calls exchange values [j] and [j+1] and leave
    the others alone. *)
Lemma enumer_swap_values n size j s :
  enumer_wf n size s → S j < n →
  enumer_wf n size (enumer_swap size j s) ∧
  ∀ k, enum_value size (es_value (enumer_swap size j s)) k =
       if decide (k = j) then enum_value size (es_value s) (S j)
       else if decide (k = S j) then enum_value size (es_value s) j
       else enum_value size (es_value s) k.
Proof.
  intros (Hn & Hv & Ht) Hj. destruct s as [name value tbuf map].
  cbn [es_name es_value es_tbuf] in *.
  assert (H1 : j * size + size ≤ n * size) by nia.
  assert (H2 : (j + 1) * size + size ≤ n * size) by nia.
  assert (H3 : (j + 1) * size = j * size + size) by lia.
  unfold enumer_swap. cbn [es_name es_value es_tbuf es_map].
  set (tbuf' := HDmemcpy tbuf 0 (drop (j * size) value) size).
  set (value1 := HDmemcpy value (j * size) (drop ((j + 1) * size) value) size).
  set (value2 := HDmemcpy value1 ((j + 1) * size) tbuf' size).
  assert (Lt : length tbuf' = length tbuf).
  { apply HDmemcpy_length; [lia|]. rewrite length_drop. lia. }
  assert (L1 : length value1 = length value).
  { apply HDmemcpy_length; [lia|]. rewrite length_drop. lia. }
  assert (L2 : length value2 = length value).
  { unfold value2. rewrite HDmemcpy_length; [done|lia|lia]. }
  split.
  { unfold enumer_wf. cbn [es_name es_value es_tbuf].
    rewrite swap_elems_length. split_and!; [done|lia|lia]. }
  intros k. apply list_eq. intros q.
  rewrite enum_value_lookup.
  assert (Hread : ∀ k', enum_value size value k' !! q =
                        if decide (q < size) then value !! (k' * size + q) else None)
    by (intros; apply enum_value_lookup).
  destruct (decide (q < size)) as [Hq|Hq].
  2:{ repeat case_decide; by rewrite Hread. }
  unfold value2. rewrite HDmemcpy_lookup by lia.
  unfold tbuf' at 1. rewrite HDmemcpy_lookup by (rewrite ?length_drop; lia).
  unfold value1. rewrite HDmemcpy_lookup by (rewrite ?length_drop; lia).
  rewrite !lookup_drop.
  destruct (decide (k = j)) as [->|Hkj]; [|destruct (decide (k = S j)) as [->|Hkj']].
  - rewrite Hread. repeat case_decide; try lia. f_equal. lia.
  - rewrite Hread. repeat case_decide; try lia. f_equal. lia.
  - rewrite Hread.
    assert (k < j ∨ S (S j) ≤ k) as [Hlt|Hgt] by lia.
    + assert (k * size + size ≤ j * size) by nia.
      repeat case_decide; try lia; done.
    + assert ((j + 1) * size + size ≤ k * size) by nia.
      repeat case_decide; try lia; done.
Qed.

Lemma enum_members_lookup size name value k :
  enum_members size name value !! k =
    (λ nm, (nm, enum_value size value k)) <$> name !! k.
Proof. unfold enum_members. apply list_lookup_imap. Qed.

Lemma enumer_swap_members n size j s :
  enumer_wf n size s → S j < n →
  enum_members size (es_name (enumer_swap size j s))
                    (es_value (enumer_swap size j s))
  = swap_elems j (enum_members size (es_name s) (es_value s)).
Proof.
  intros Hwf Hj. destruct (enumer_swap_values n size j s Hwf Hj) as [_ Hval].
  destruct Hwf as (Hn & _ & _).
  destruct (lookup_lt_is_Some_2 (es_name s) j ltac:(lia)) as [x Hx].
  destruct (lookup_lt_is_Some_2 (es_name s) (S j) ltac:(lia)) as [y Hy].
  apply list_eq. intros k.
  rewrite (swap_elems_lookup j _ (x, enum_value size (es_value s) j)
                                 (y, enum_value size (es_value s) (S j)))
    by (by rewrite enum_members_lookup, ?Hx, ?Hy).
  rewrite !enum_members_lookup, Hval.
  change (es_name (enumer_swap size j s)) with (swap_elems j (es_name s)).
  rewrite (swap_elems_lookup j _ x y Hx Hy).
  repeat case_decide; done.
Qed.

End ValueBuffer.

(* ===================================================================== *)
(** ** Members are only reordered *)
(* ===================================================================== *)

Lemma enumer_swap_reordered n size orig j s :
  (S j < n)%nat → enumer_reordered n size orig s →
  enumer_reordered n size orig (enumer_swap size j s).
Proof.
  intros Hj [Hwf Hp]. split; [by apply enumer_swap_values|].
  rewrite (enumer_swap_members n) by done. by rewrite swap_elems_perm.
Qed.

Lemma compnd_swap_reordered (orig : list H5T_cmemb_t) j s :
  cs_memb s ≡ₚ orig → cs_memb (compnd_swap j s) ≡ₚ orig.
Proof. intros Hp. simpl. by rewrite swap_elems_perm. Qed.

Lemma skeleton_members want c_gt c_lt e_gt e_lt NDEBUG dt map r :
  value_buffer_ok dt →
  sort_skeleton want c_gt c_lt e_gt e_lt NDEBUG dt map = Returned r →
  H5T_get_nmembers (ret_dt r) = H5T_get_nmembers dt ∧
  members (ret_dt r) ≡ₚ members dt ∧
  value_buffer_ok (ret_dt r).
Proof.
  destruct dt as [size [c|e|a]]; unfold sort_skeleton, value_buffer_ok;
    cbn [dt_u dt_size]; intros Hok H.
  - destruct (decide _); [by injection H as <-|].
    pose proof (bubble_keeps c_gt compnd_swap (length (compnd_memb c))
                  (λ s, cs_memb s ≡ₚ compnd_memb c)
                  (λ j s _, compnd_swap_reordered (compnd_memb c) j s)
                  (mk_compnd_st (compnd_memb c) map) ltac:(simpl; reflexivity)) as Hk.
    destruct (bubble _ _ _ _) as [s k]. destruct (NDEBUG || _); [|done].
    injection H as <-. cbn in *. split_and!; [|by rewrite Hk|done].
    unfold H5T_get_nmembers, compnd_nmembs. cbn. by rewrite Hk.
  - destruct (decide _); [by injection H as <-|].
    destruct (size <=? tbuf_size)%nat eqn:Hsz; cbn [negb andb] in H.
    + apply Nat.leb_le in Hsz.
      pose proof (bubble_keeps (e_gt size) (enumer_swap size) (length (enumer_name e))
                    (enumer_reordered (length (enumer_name e)) size
                       (enum_members size (enumer_name e) (enumer_value e)))
                    (enumer_swap_reordered _ size _)
                    (mk_enumer_st (enumer_name e) (enumer_value e) tbuf_init map)) as Hk.
      destruct (bubble _ _ _ _) as [s k]. destruct (NDEBUG || _); [|done].
      injection H as <-. cbn in *.
      destruct Hk as [(Hn & Hv & Ht) Hp].
      { split; [|done]. split_and!; [done|done|]. exact Hsz. }
      split_and!.
      * unfold H5T_get_nmembers, enumer_nmembs. cbn. by rewrite Hn.
      * unfold members. cbn. by rewrite Hp.
      * by rewrite Hn.
    + destruct NDEBUG; [|done]. cbn [negb orb] in H.
      destruct (bubble _ _ _ _) as [s k] eqn:E. destruct k as [|k]; [|done].
      apply bubble_no_exchange in E as [-> _]. by injection H as <-.
  - destruct NDEBUG; [|done]. by injection H as <-.
Qed.

(** C9. On a compound or enumeration descriptor (the value buffer of an
    enumeration holding one value per name), a call of [H5T_sort_value]
    or [H5T_sort_name] that returns leaves the member count as it was,
    and the members, each name with its offset or value, are a
    permutation of those before the call: the same pairs, no more and no
    fewer. *)
Theorem sort_permutes_members NDEBUG dt map r :
  value_buffer_ok dt →
  H5T_sort_value NDEBUG dt map = Returned r ∨
  H5T_sort_name NDEBUG dt map = Returned r →
  H5T_get_nmembers (ret_dt r) = H5T_get_nmembers dt ∧
  length (members (ret_dt r)) = length (members dt) ∧
  members (ret_dt r) ≡ₚ members dt ∧
  (∀ p, p ∈ members (ret_dt r) ↔ p ∈ members dt).
Proof.
  intros Hok H.
  assert (H5T_get_nmembers (ret_dt r) = H5T_get_nmembers dt ∧
          members (ret_dt r) ≡ₚ members dt ∧ value_buffer_ok (ret_dt r))
    as (Hn & Hp & _).
  { destruct H as [H|H].
    - rewrite H5T_sort_value_skeleton in H. by eapply skeleton_members.
    - rewrite H5T_sort_name_skeleton in H. by eapply skeleton_members. }
  split_and!; [done|by rewrite Hp|done|]. intros p. by rewrite Hp.
Qed.

(* ===================================================================== *)
(** ** Short circuit and unsupported kinds *)
(* ===================================================================== *)

Lemma skeleton_short_circuit want c_gt c_lt e_gt e_lt NDEBUG dt map :
  sort_state dt = Some want →
  sort_skeleton want c_gt c_lt e_gt e_lt NDEBUG dt map =
    Returned (mk_sort_ret SUCCEED dt map 0).
Proof.
  destruct dt as [size [c|e|a]]; unfold sort_skeleton, sort_state;
    cbn [dt_u dt_size]; intros [= <-]; by rewrite decide_True.
Qed.

Lemma skeleton_sort_state want c_gt c_lt e_gt e_lt NDEBUG dt map r :
  sort_skeleton want c_gt c_lt e_gt e_lt NDEBUG dt map = Returned r →
  sort_state (ret_dt r) = Some want ∨
  (sort_state dt = None ∧ NDEBUG = true ∧ r = mk_sort_ret SUCCEED dt map 0).
Proof.
  destruct dt as [size [c|e|a]]; unfold sort_skeleton, sort_state;
    cbn [dt_u dt_size]; intros H.
  - left. destruct (decide _) as [->|]; [by injection H as <-|].
    destruct (bubble _ _ _ _) as [s k]. destruct (NDEBUG || _); [|done].
    by injection H as <-.
  - left. destruct (decide _) as [->|]; [by injection H as <-|].
    destruct (negb (_ <=? _)%nat && negb NDEBUG); [done|].
    destruct (bubble _ _ _ _) as [s k].
      destruct (negb _ && negb (k =? 0)%nat); [done|]. destruct (NDEBUG || _); [|done].
    by injection H as <-.
  - right. destruct NDEBUG; [|done]. by injection H as <-.
Qed.

Lemma skeleton_twice want c_gt c_lt e_gt e_lt NDEBUG dt map r :
  sort_skeleton want c_gt c_lt e_gt e_lt NDEBUG dt map = Returned r →
  sort_skeleton want c_gt c_lt e_gt e_lt NDEBUG (ret_dt r) (ret_map r) =
    Returned (mk_sort_ret SUCCEED (ret_dt r) (ret_map r) 0).
Proof.
  intros H. destruct (skeleton_sort_state _ _ _ _ _ _ _ _ _ H) as [Hs|(Hs & -> & ->)].
  - by apply skeleton_short_circuit.
  - cbn [ret_dt ret_map]. unfold sort_skeleton.
    destruct dt as [size [c|e|a]]; try done.
Qed.

Lemma skeleton_succeeds want c_gt c_lt e_gt e_lt NDEBUG dt map r :
  sort_skeleton want c_gt c_lt e_gt e_lt NDEBUG dt map = Returned r →
  ret_value r = SUCCEED.
Proof.
  destruct dt as [size [c|e|a]]; unfold sort_skeleton;
    cbn [dt_u dt_size]; intros H.
  - destruct (decide _); [by injection H as <-|].
    destruct (bubble _ _ _ _) as [s k]. destruct (NDEBUG || _); [|done].
    by injection H as <-.
  - destruct (decide _); [by injection H as <-|].
    destruct (negb (_ <=? _)%nat && negb NDEBUG); [done|].
    destruct (bubble _ _ _ _) as [s k].
      destruct (negb _ && negb (k =? 0)%nat); [done|]. destruct (NDEBUG || _); [|done].
    by injection H as <-.
  - destruct NDEBUG; [|done]. by injection H as <-.
Qed.

(** C3. A sort called on a descriptor whose sort state is already the
    one asked for returns at once: the descriptor and the caller's map
    come back as they were and no exchange is made.  Hence a second call
    of the same sort, right after a first one that returned, changes
    nothing and makes no exchange. *)
Theorem sort_short_circuit NDEBUG dt map r :
  (sort_state dt = Some H5T_SORT_VALUE →
     H5T_sort_value NDEBUG dt map = Returned (mk_sort_ret SUCCEED dt map 0)) ∧
  (sort_state dt = Some H5T_SORT_NAME →
     H5T_sort_name NDEBUG dt map = Returned (mk_sort_ret SUCCEED dt map 0)) ∧
  (H5T_sort_value NDEBUG dt map = Returned r →
     H5T_sort_value NDEBUG (ret_dt r) (ret_map r) =
       Returned (mk_sort_ret SUCCEED (ret_dt r) (ret_map r) 0)) ∧
  (H5T_sort_name NDEBUG dt map = Returned r →
     H5T_sort_name NDEBUG (ret_dt r) (ret_map r) =
       Returned (mk_sort_ret SUCCEED (ret_dt r) (ret_map r) 0)).
Proof.
  rewrite H5T_sort_value_skeleton, H5T_sort_name_skeleton. split_and!.
  - apply skeleton_short_circuit.
  - apply skeleton_short_circuit.
  - apply skeleton_twice.
  - apply skeleton_twice.
Qed.

(** C4 (as amended).  On a descriptor that is neither compound nor
    enumeration the sorts report no error: the class is only asserted.
    With assertions compiled in the call stops at the assertion; with
    NDEBUG it returns success and hands the descriptor and the map back
    untouched.  No call of either sort, on any descriptor, returns a
    failure value. *)
Theorem sort_unsupported_kind NDEBUG dt map :
  dt_type dt ≠ H5T_COMPOUND → dt_type dt ≠ H5T_ENUM →
  H5T_sort_value NDEBUG dt map =
    (if NDEBUG then Returned (mk_sort_ret SUCCEED dt map 0) else AssertFailed) ∧
  H5T_sort_name NDEBUG dt map =
    (if NDEBUG then Returned (mk_sort_ret SUCCEED dt map 0) else AssertFailed) ∧
  (∀ NDEBUG' dt' map',
     ¬ sort_fails (H5T_sort_value NDEBUG' dt' map') ∧
     ¬ sort_fails (H5T_sort_name NDEBUG' dt' map')).
Proof.
  intros Hc He. split_and!.
  - destruct dt as [size [c|e|a]]; done.
  - destruct dt as [size [c|e|a]]; done.
  - intros N' dt' map'. rewrite H5T_sort_value_skeleton, H5T_sort_name_skeleton.
    split; intros (r & Hr & Hneg); apply skeleton_succeeds in Hr;
      rewrite Hr in Hneg; done.
Qed.

(** C4, the claim as stated fails: on a descriptor of integer class
    neither sort reports a failure, whether assertions are compiled in
    or not. *)
Lemma sort_unsupported_kind_not_reported :
  H5T_sort_value true int_descriptor None =
    Returned (mk_sort_ret SUCCEED int_descriptor None 0) ∧
  H5T_sort_name true int_descriptor None =
    Returned (mk_sort_ret SUCCEED int_descriptor None 0) ∧
  H5T_sort_value false int_descriptor None = AssertFailed ∧
  H5T_sort_name false int_descriptor None = AssertFailed ∧
  ¬ sort_fails (H5T_sort_value true int_descriptor None) ∧
  ¬ sort_fails (H5T_sort_name true int_descriptor None) ∧
  ¬ sort_fails (H5T_sort_value false int_descriptor None) ∧
  ¬ sort_fails (H5T_sort_name false int_descriptor None).
Proof.
  split_and!; try reflexivity; intros (r & Hr & Hneg); try discriminate Hr;
    injection Hr as <-; done.
Qed.

(* ===================================================================== *)
(** ** Properties of the member store *)
(* ===================================================================== *)

Section LocateMember.

Lemma locate_member_spec names name : ∀ i,
  (locate_member names name i = FAIL ∧
     ∀ k nm, names !! k = Some nm → HDstrcmp nm name ≠ 0) ∨
  (∃ k nm, locate_member names name i = i + Z.of_nat k ∧
     names !! k = Some nm ∧ HDstrcmp nm name = 0 ∧
     ∀ k' nm', (k' < k)%nat → names !! k' = Some nm' → HDstrcmp nm' name ≠ 0).
Proof.
  induction names as [|n names IH]; intros i; cbn [locate_member].
  - left. split; [done|]. by intros k nm ?.
  - destruct (Z.eqb_spec (HDstrcmp n name) 0) as [E|E].
    + right. exists 0%nat, n. split_and!; [lia|done|done|]. intros; lia.
    + destruct (IH (i + 1)) as [[Hf Hnone]|(k & nm & Hr & Hk & Hm & Hfirst)].
      * left. split; [done|]. intros [|k] nm; simpl; [by intros [= <-]|]. apply Hnone.
      * right. exists (S k), nm. split_and!; [lia|done|done|].
        intros [|k'] nm' Hlt; simpl; [by intros [= <-]|]. apply Hfirst. lia.
Qed.

Lemma locate_member_first names name k nm :
  names !! k = Some nm → HDstrcmp nm name = 0 →
  (∀ k' nm', (k' < k)%nat → names !! k' = Some nm' → HDstrcmp nm' name ≠ 0) →
  locate_member names name 0 = Z.of_nat k.
Proof.
  intros Hk Hm Hfirst.
  destruct (locate_member_spec names name 0)
    as [[_ Hnone]|(k1 & nm1 & -> & Hk1 & Hm1 & Hfirst1)].
  - by destruct (Hnone _ _ Hk).
  - destruct (Nat.lt_trichotomy k1 k) as [Hlt|[->|Hlt]]; [|lia|].
    + by destruct (Hfirst _ _ Hlt Hk1).
    + by destruct (Hfirst1 _ _ Hlt Hk).
Qed.

End LocateMember.

Lemma get_nmembers_names dt n :
  H5T_get_nmembers dt = Success n → n = Z.of_nat (length (member_names dt)).
Proof.
  unfold H5T_get_nmembers, member_names, compnd_nmembs, enumer_nmembs.
  destruct (dt_u dt); intros [= <-]; by rewrite ?length_fmap.
Qed.

Lemma get_member_name_spec dt n index :
  H5T_get_nmembers dt = Success n →
  H5T_get_member_name dt index =
    if (index <? 0) || (index >=? n) then InvalidIndex
    else Success (H5MM_xstrdup (nth (Z.to_nat index) (member_names dt) EmptyString)).
Proof.
  unfold H5T_get_nmembers, H5T_get_member_name, member_names, array_get.
  destruct (dt_u dt) as [c|e|a]; intros [= <-]; [|done].
  destruct (_ || _); [done|]. do 2 f_equal.
  change EmptyString with (cm_name (mk_cmemb EmptyString 0 0)) at 2.
  by rewrite map_nth.
Qed.

Lemma get_member_index_spec {hid_t} (tbl : hid_t → option H5T_t) id dt n name :
  tbl id = Some dt → H5T_get_nmembers dt = Success n →
  H5Tget_member_index tbl id name = Success (locate_member (member_names dt) name 0).
Proof.
  unfold H5T_get_nmembers, H5Tget_member_index, member_names. intros ->.
  by destruct (dt_u dt).
Qed.

(** C6. On a compound or enumeration descriptor with [n] members,
    [H5T_get_member_name] fails with the bad-value error exactly for the
    indices below 0 or at least [n], so in particular for -1 and for
    [n]; when [n] is 0 it fails so for every index, and
    [H5Tget_member_index] finds no member whatever the name. *)
Theorem member_name_bounds {hid_t} (tbl : hid_t → option H5T_t) id dt n index name :
  H5T_get_nmembers dt = Success n →
  tbl id = Some dt →
  (H5T_get_member_name dt index = InvalidIndex ↔ index < 0 ∨ n ≤ index) ∧
  H5T_get_member_name dt (-1) = InvalidIndex ∧
  H5T_get_member_name dt n = InvalidIndex ∧
  (n = 0 → H5T_get_member_name dt index = InvalidIndex ∧
           H5Tget_member_index tbl id name = NotFound).
Proof.
  intros Hn Htbl. pose proof (get_nmembers_names dt n Hn) as Hlen.
  rewrite !(get_member_name_spec dt n) by done. split_and!.
  - destruct (Z.ltb_spec index 0), (Z.geb_spec index n); simpl;
      split; try done; lia.
  - done.
  - destruct (Z.ltb_spec n 0), (Z.geb_spec n n); simpl; try done; lia.
  - intros ->. split.
    + destruct (Z.ltb_spec index 0), (Z.geb_spec index 0); simpl; try done; lia.
    + rewrite (get_member_index_spec tbl id dt 0) by done.
      destruct (member_names dt); [done|simpl in Hlen; lia].
Qed.

(** C7. On a compound or enumeration descriptor whose member names are
    pairwise different C strings, looking up by name the name found at a
    valid index gives that index back, whatever the sort state. *)
Theorem member_index_of_name {hid_t} (tbl : hid_t → option H5T_t) id dt n i :
  tbl id = Some dt →
  H5T_get_nmembers dt = Success n →
  0 ≤ i < n →
  NoDup (c_str <$> member_names dt) →
  ∃ nm, H5T_get_member_name dt i = Success nm ∧
        H5Tget_member_index tbl id nm = Success i.
Proof.
  intros Htbl Hn Hi Hnd. pose proof (get_nmembers_names dt n Hn) as Hlen.
  rewrite (get_member_name_spec dt n) by done.
  destruct (Z.ltb_spec i 0), (Z.geb_spec i n); try lia. simpl.
  eexists. split; [done|].
  rewrite (get_member_index_spec tbl id dt n) by done. f_equal.
  destruct (lookup_lt_is_Some_2 (member_names dt) (Z.to_nat i) ltac:(lia)) as [nm Hnm].
  rewrite (nth_lookup_Some _ _ _ _ Hnm).
  rewrite <- (Z2Nat.id i) at 1 by lia.
  apply (locate_member_first _ _ _ nm Hnm); [apply HDstrcmp_xstrdup|].
  intros k' nm' Hlt Hk' Heq.
  apply HDstrcmp_c_str in Heq. unfold H5MM_xstrdup in Heq. rewrite c_str_idemp in Heq.
  assert (k' = Z.to_nat i); [|lia].
  eapply (NoDup_lookup _ _ _ (c_str nm') Hnd); rewrite list_lookup_fmap.
  - by rewrite Hk'.
  - by rewrite Hnm, Heq.
Qed.

(** C8. On a compound or enumeration descriptor [H5Tget_member_index]
    scans the names in their current order and returns the lowest index
    whose name is the same C string as the argument, or [FAIL] when
    there is none.  With a name that occurs twice the answer depends on
    the current order: on the members "x", "y", "x" at offsets 4, 0, 8
    the name "x" is found at index 0, and at index 1 once the members
    are sorted by offset. *)
Theorem member_index_first_match {hid_t} (tbl : hid_t → option H5T_t) id dt n name :
  tbl id = Some dt →
  H5T_get_nmembers dt = Success n →
  (∃ r, H5Tget_member_index tbl id name = Success r ∧
     ((r = FAIL ∧
       ∀ k nm, member_names dt !! k = Some nm → c_str nm ≠ c_str name) ∨
      (0 ≤ r < n ∧
       ∃ nm, member_names dt !! Z.to_nat r = Some nm ∧ c_str nm = c_str name ∧
             ∀ k nm', (k < Z.to_nat r)%nat → member_names dt !! k = Some nm' →
                      c_str nm' ≠ c_str name))) ∧
  (H5Tget_member_index (λ _ : unit, Some duplicate_names) () "x" = Success 0 ∧
   ∃ r, H5T_sort_value false duplicate_names None = Returned r ∧
        H5Tget_member_index (λ _ : unit, Some (ret_dt r)) () "x" = Success 1).
Proof.
  intros Htbl Hn. split; [|split; [done|by eexists]].
  pose proof (get_nmembers_names dt n Hn) as Hlen.
  eexists. split; [by apply (get_member_index_spec tbl id dt n)|].
  destruct (locate_member_spec (member_names dt) name 0)
    as [[-> Hnone]|(k & nm & -> & Hk & Hm & Hfirst)].
  - left. split; [done|]. intros k nm Hk. rewrite <- HDstrcmp_c_str. by eapply Hnone.
  - right. pose proof (lookup_lt_Some _ _ _ Hk). split; [lia|].
    exists nm. rewrite Z.add_0_l, Nat2Z.id. split_and!; [done|by apply HDstrcmp_c_str|].
    intros k' nm' Hlt Hk'. rewrite <- HDstrcmp_c_str. by eapply Hfirst.
Qed.

(* ===================================================================== *)
(** ** Comparison of enumeration values *)
(* ===================================================================== *)

Section ValueOrder.
Local Open Scope nat_scope.

Lemma lex_gt_spec a : ∀ b,
  length a = length b →
  (lex_gt a b = true ↔
   ∃ k x y, a !! k = Some x ∧ b !! k = Some y ∧ (ubyte y < ubyte x)%Z ∧
            ∀ q, q < k → a !! q = b !! q).
Proof.
  induction a as [|x a IH]; intros [|y b] Hlen; try done.
  - split; [done|]. by intros (k & ? & ? & ? & _).
  - injection Hlen as Hlen. cbn [lex_gt].
    destruct (Z.eqb_spec (ubyte x) (ubyte y)) as [E|E].
    + rewrite (IH b Hlen). apply ubyte_inj in E as <-. split.
      * intros (k & u & v & Hu & Hv & Hlt & Hpre).
        exists (S k), u, v. split_and!; try done.
        intros [|q] Hq; [done|]. apply Hpre. lia.
      * intros ([|k] & u & v & Hu & Hv & Hlt & Hpre); simpl in *.
        { injection Hu as <-. injection Hv as <-. lia. }
        exists k, u, v. split_and!; try done.
        intros q Hq. apply (Hpre (S q)). lia.
    + split.
      * intros Hlt%Z.ltb_lt. exists 0, x, y. split_and!; try done. intros; lia.
      * intros ([|k] & u & v & Hu & Hv & Hlt & Hpre); simpl in *.
        { injection Hu as <-. injection Hv as <-. by apply Z.ltb_lt. }
        specialize (Hpre 0 ltac:(lia)). simpl in Hpre. congruence.
Qed.

Lemma enumer_value_gt_lex n size j s :
  enumer_wf n size s → S j < n →
  enumer_value_gt size j s =
    lex_gt (enum_value size (es_value s) j) (enum_value size (es_value s) (S j)).
Proof.
  intros (Hn & Hv & Ht) Hj. unfold enumer_value_gt.
  rewrite HDmemcmp_take. replace (j + 1) with (S j) by lia.
  apply HDmemcmp_lex_gt; apply (enum_value_length n); (done || lia).
Qed.

Lemma enumer_value_sim_gt n size j s :
  enumer_wf n size s →
  enumer_value_gt size j s =
    lgt value_gtb j (enum_members size (es_name s) (es_value s)).
Proof.
  intros Hwf. unfold lgt. rewrite !enum_members_lookup.
  destruct (decide (S j < n)) as [Hj|Hj].
  - rewrite (enumer_value_gt_lex n) by done. destruct Hwf as (Hn & _ & _).
    destruct (lookup_lt_is_Some_2 (es_name s) j ltac:(lia)) as [x ->].
    destruct (lookup_lt_is_Some_2 (es_name s) (S j) ltac:(lia)) as [y ->].
    done.
  - destruct Hwf as (Hn & Hv & _).
    rewrite (lookup_ge_None_2 (es_name s) (S j)) by lia.
    unfold enumer_value_gt.
    rewrite (drop_ge (es_value s) ((j + 1) * size)) by nia.
    rewrite HDmemcmp_nil_r. by destruct (es_name s !! j).
Qed.

Lemma enumer_value_sim_swp n size j s :
  enumer_wf n size s →
  S j < length (enum_members size (es_name s) (es_value s)) →
  enumer_wf n size (enumer_swap size j s) ∧
  enum_members size (es_name (enumer_swap size j s))
                    (es_value (enumer_swap size j s))
  = swap_elems j (enum_members size (es_name s) (es_value s)).
Proof.
  intros Hwf Hj. unfold enum_members in Hj. rewrite length_imap in Hj.
  assert (S j < n) by (destruct Hwf as (<- & _); done).
  split; [by apply enumer_swap_values|by apply (enumer_swap_members n)].
Qed.

Lemma value_gtb_asym p q : value_gtb p q = true → value_gtb q p = false.
Proof. apply lex_gt_asym. Qed.

Lemma value_gtb_trans p q r :
  value_gtb p q = false → value_gtb q r = false → value_gtb p r = false.
Proof. apply lex_gt_trans. Qed.

(** After the value loops, no value compares greater than its right
    neighbour. *)
Lemma enumer_value_sorted size name value map :
  length value = length name * size → size ≤ tbuf_size →
  let s' := (bubble (enumer_value_gt size) (enumer_swap size) (length name)
               (mk_enumer_st name value tbuf_init map)).1 in
  enumer_wf (length name) size s' ∧
  ∀ i, S i < length name →
       (HDmemcmp (drop (i * size) (es_value s'))
                 (drop (S i * size) (es_value s')) size ≤ 0)%Z.
Proof.
  intros Hv Hsz.
  set (s := mk_enumer_st name value tbuf_init map).
  assert (Hwf : enumer_wf (length name) size s) by done.
  pose proof (bubble_view_sorted (enumer_value_gt size) (enumer_swap size)
                (λ s, enum_members size (es_name s) (es_value s))
                (enumer_wf (length name) size) value_gtb
                (λ j s, enumer_value_sim_gt _ size j s)
                (λ j s, enumer_value_sim_swp _ size j s)
                value_gtb_asym value_gtb_trans s Hwf) as Hsorted.
  destruct (sim_bubble (enumer_value_gt size) (enumer_swap size)
              (λ s, enum_members size (es_name s) (es_value s))
              (enumer_wf (length name) size) value_gtb
              (λ j s, enumer_value_sim_gt _ size j s)
              (λ j s, enumer_value_sim_swp _ size j s)
              (length name) s Hwf) as (s' & k' & E & Hwf' & _).
  assert (Hl : length (enum_members size (es_name s) (es_value s)) = length name)
    by (unfold enum_members; by rewrite length_imap).
  cbn beta in Hsorted. rewrite Hl in Hsorted.
  rewrite E in *. cbn [fst] in *. split; [done|]. intros i Hi.
  apply StronglySorted_adjacent in Hsorted.
  pose proof Hwf' as (Hn' & _ & _).
  destruct (lookup_lt_is_Some_2 (es_name s') i ltac:(lia)) as [x Hx].
  destruct (lookup_lt_is_Some_2 (es_name s') (S i) ltac:(lia)) as [y Hy].
  specialize (Hsorted i (x, enum_value size (es_value s') i)
                        (y, enum_value size (es_value s') (S i))).
  rewrite !enum_members_lookup, Hx, Hy in Hsorted.
  specialize (Hsorted eq_refl eq_refl). unfold ngt, value_gtb in Hsorted.
  cbn [snd] in Hsorted.
  rewrite <- (enumer_value_gt_lex (length name)) in Hsorted by done.
  unfold enumer_value_gt in Hsorted. apply Z.ltb_ge in Hsorted.
  by replace (i + 1) with (S i) in Hsorted by lia.
Qed.

End ValueOrder.

(** C5. In the value sort of an enumeration, member [j] is found greater
    than member [j+1] exactly when, at the first byte position where the
    two values differ, the byte of member [j] is the larger one as an
    unsigned number: the [size] bytes of each value are compared in
    storage order from the first byte on.  The enumeration RED = 2,
    GREEN = 1 with four-byte values is sorted to GREEN, RED, in either
    byte order of the values. *)
Theorem enum_value_comparison n size j s :
  enumer_wf n size s → (S j < n)%nat →
  (enumer_value_gt size j s = true ↔
   ∃ k x y,
     (k < size)%nat ∧
     es_value s !! (j * size + k)%nat = Some x ∧
     es_value s !! ((j + 1) * size + k)%nat = Some y ∧
     ubyte y < ubyte x ∧
     ∀ q, (q < k)%nat →
          es_value s !! (j * size + q)%nat = es_value s !! ((j + 1) * size + q)%nat) ∧
  (∀ NDEBUG,
     H5T_sort_value NDEBUG scenario_B_le None =
       Returned (mk_sort_ret SUCCEED
                  (mk_H5T 4 (U_enumer (mk_enumer H5T_SORT_VALUE ["GREEN"; "RED"]
                     [x01; x00; x00; x00;  x02; x00; x00; x00])))
                  None 1) ∧
     H5T_sort_value NDEBUG scenario_B_be None =
       Returned (mk_sort_ret SUCCEED
                  (mk_H5T 4 (U_enumer (mk_enumer H5T_SORT_VALUE ["GREEN"; "RED"]
                     [x00; x00; x00; x01;  x00; x00; x00; x02])))
                  None 1)).
Proof.
  intros Hwf Hj. split; [|by intros []].
  rewrite (enumer_value_gt_lex n) by done.
  pose proof Hwf as (Hn & Hv & _).
  rewrite lex_gt_spec by (rewrite !(enum_value_length n); (done || lia)).
  replace (j + 1)%nat with (S j) by lia.
  split.
  - intros (k & x & y & Hx & Hy & Hlt & Hpre).
    rewrite enum_value_lookup in Hx, Hy.
    destruct (decide (k < size)%nat) as [Hk|]; [|done].
    exists k, x, y. split_and!; try done.
    intros q Hq. specialize (Hpre q Hq). rewrite !enum_value_lookup in Hpre.
    by rewrite !decide_True in Hpre by lia.
  - intros (k & x & y & Hk & Hx & Hy & Hlt & Hpre).
    exists k, x, y. rewrite !enum_value_lookup, !decide_True by done.
    split_and!; try done.
    intros q Hq. rewrite !enum_value_lookup, !decide_True by lia. by apply Hpre.
Qed.

(* ===================================================================== *)
(** ** Termination of the loop nest *)
(* ===================================================================== *)

Section MachineFacts.
Context {St : Type}.
Variable gt : nat → St → bool.
Variable swp : nat → St → St.
Local Abbreviation step := (loop_step gt swp).
Local Abbreviation run := (loop_run gt swp).

Lemma step_exit (c : loop_cfg St) : pc c = AtLoopExit → step c = c.
Proof. unfold loop_step. by intros ->. Qed.

Lemma iter_step_exit n (c : loop_cfg St) :
  pc c = AtLoopExit → Nat.iter n step c = c.
Proof. intros H. induction n as [|n IH]; [done|]. simpl. by rewrite IH, step_exit. Qed.

Lemma run_iter n : ∀ fuel (c : loop_cfg St),
  run (n + fuel) c = run fuel (Nat.iter n step c).
Proof.
  induction n as [|n IH]; intros fuel c; [done|].
  rewrite Nat.iter_succ_r. cbn [Nat.add loop_run].
  destruct (pc c) eqn:E; try apply IH.
  rewrite step_exit, iter_step_exit by done. destruct fuel; simpl; by rewrite E.
Qed.

(** The inner loop, from its test with [todo] iterations to go to the
    next test of the outer loop. *)
Lemma inner_steps todo : ∀ j s sw k,
  Nat.iter (S todo) step
    (mk_cfg AtInnerTest (Z.of_nat (j + todo)) (Z.of_nat j) sw s k)
  = let '(s', sw', k') := inner_loop gt swp todo j s sw k in
    mk_cfg AtOuterTest (Z.of_nat (j + todo) - 1) (Z.of_nat (j + todo)) sw' s' k'.
Proof.
  induction todo as [|todo IH]; intros j s sw k.
  - simpl. unfold loop_step. cbn [pc var_i var_j var_swapped store exchanges].
    rewrite Nat.add_0_r, Z.ltb_irrefl. done.
  - rewrite Nat.iter_succ_r. unfold loop_step at 2.
    cbn [pc var_i var_j var_swapped store exchanges inner_loop].
    destruct (Z.ltb_spec (Z.of_nat j) (Z.of_nat (j + S todo))); [|lia].
    rewrite Nat2Z.id.
    replace (Z.of_nat j + 1) with (Z.of_nat (S j)) by lia.
    replace (j + S todo)%nat with (S j + todo)%nat by lia.
    destruct (gt j s); apply IH.
Qed.

(** One pass: from the test of the outer loop, passed with index [i],
    to the same test with index [i - 1]. *)
Lemma pass_steps i j0 s k :
  Nat.iter (S (S (S i))) step (mk_cfg AtOuterTest (Z.of_nat (S i)) j0 true s k)
  = let '(s', sw', k') := inner_loop gt swp (S i) 0 s false k in
    mk_cfg AtOuterTest (Z.of_nat (S i) - 1) (Z.of_nat (S i)) sw' s' k'.
Proof.
  rewrite Nat.iter_succ_r. unfold loop_step at 2.
  cbn [pc var_i var_j var_swapped store exchanges].
  destruct (Z.ltb_spec 0 (Z.of_nat (S i))); [|lia]. cbn [andb].
  apply (inner_steps (S i) 0).
Qed.

Lemma outer_run i : ∀ j0 sw s k fuel,
  (loop_cost i ≤ fuel)%nat →
  run fuel (mk_cfg AtOuterTest (Z.of_nat i) j0 sw s k)
  = Some (outer_loop gt swp i sw s k).
Proof.
  induction i as [|i IH]; intros j0 sw s k fuel Hfuel.
  - destruct fuel as [|fuel]; [simpl in Hfuel; lia|]. simpl. unfold loop_step. simpl.
    destruct fuel; done.
  - destruct sw.
    2:{ destruct fuel as [|fuel]; [simpl in Hfuel; lia|].
        cbn [loop_run pc outer_loop]. unfold loop_step.
        cbn [pc var_i var_j var_swapped store exchanges].
        rewrite andb_false_r. by destruct fuel. }
    cbn [loop_cost] in Hfuel.
    replace fuel with (S (S (S i)) + (fuel - S (S (S i))))%nat by lia.
    rewrite run_iter, pass_steps. cbn [outer_loop].
    destruct (inner_loop gt swp (S i) 0 s false k) as [[s' sw'] k'].
    replace (Z.of_nat (S i) - 1) with (Z.of_nat i) by lia.
    apply IH. lia.
Qed.

Lemma bubble_run_total nmembs s fuel :
  (loop_cost (nmembs - 1) ≤ fuel)%nat →
  bubble_run gt swp fuel nmembs s = Some (bubble gt swp nmembs s).
Proof.
  intros Hfuel. unfold bubble_run, bubble, loop_init.
  destruct nmembs as [|n].
  - destruct fuel as [|fuel]; [simpl in Hfuel; lia|]. simpl. unfold loop_step. simpl.
    by destruct fuel.
  - replace (Z.of_nat (S n) - 1) with (Z.of_nat (S n - 1)) by lia.
    by apply outer_run.
Qed.

End MachineFacts.

Lemma skeleton_run_total want c_gt c_lt e_gt e_lt NDEBUG dt map fuel :
  (sort_fuel dt ≤ fuel)%nat →
  sort_skeleton_run fuel want c_gt c_lt e_gt e_lt NDEBUG dt map =
    Some (sort_skeleton want c_gt c_lt e_gt e_lt NDEBUG dt map).
Proof.
  unfold sort_fuel, member_names, sort_skeleton_run, sort_skeleton.
  destruct dt as [size [c|e|a]]; cbn [dt_u dt_size]; intros Hfuel; [| |done].
  - rewrite length_fmap in Hfuel. destruct (decide _); [done|].
    rewrite bubble_run_total by done.
    destruct (bubble _ _ _ _) as [s k]. by destruct (NDEBUG || _).
  - destruct (decide _); [done|].
    destruct (negb (_ <=? _)%nat && negb NDEBUG); [done|].
    rewrite bubble_run_total by done.
    destruct (bubble _ _ _ _) as [s k].
    destruct (negb _ && negb (k =? 0)%nat); [done|]. by destruct (NDEBUG || _).
Qed.

(** C10. Both sorts terminate on every descriptor.  Run step by step,
    [H5T_sort_value] and [H5T_sort_name] reach their end within
    [sort_fuel dt] steps of their loops, with the result the functions
    are defined to have.  In the loop nest, a test of the outer loop
    that is passed (index [i > 0], [swapped] set) is followed, [i + 2]
    steps later, by the same test with index [i - 1]; and the test is
    not passed, so the loops are left, as soon as a pass made no
    exchange or the index is no longer positive. *)
Theorem sorts_terminate NDEBUG dt map :
  (∀ fuel, (sort_fuel dt ≤ fuel)%nat →
     H5T_sort_value_run fuel NDEBUG dt map = Some (H5T_sort_value NDEBUG dt map) ∧
     H5T_sort_name_run fuel NDEBUG dt map = Some (H5T_sort_name NDEBUG dt map)) ∧
  (∀ St (gt : nat → St → bool) (swp : nat → St → St) (c : loop_cfg St),
     pc c = AtOuterTest →
     (0 < var_i c → var_swapped c = true →
        let c' := Nat.iter (Z.to_nat (var_i c) + 2) (loop_step gt swp) c in
        pc c' = AtOuterTest ∧ var_i c' = var_i c - 1) ∧
     (var_swapped c = false ∨ var_i c ≤ 0 →
        pc (loop_step gt swp c) = AtLoopExit)).
Proof.
  split.
  - intros fuel Hfuel. rewrite H5T_sort_value_skeleton, H5T_sort_name_skeleton.
    split; by apply skeleton_run_total.
  - intros St gt swp [p i j sw s k]. cbn [pc var_i var_swapped]. intros ->. split.
    + intros Hi ->. destruct (Z.to_nat i) as [|n] eqn:En; [lia|].
      replace i with (Z.of_nat (S n)) by lia.
      replace (S n + 2)%nat with (S (S (S n))) by lia.
      rewrite pass_steps.
      by destruct (inner_loop gt swp (S n) 0 s false k) as [[s' sw'] k'].
    + unfold loop_step. cbn [pc var_i var_swapped].
      intros [->|Hi]; [by rewrite andb_false_r|].
      by destruct (Z.ltb_spec 0 i); [lia|].
Qed.

(* ===================================================================== *)
(** ** The sort state stays truthful *)
(* ===================================================================== *)

(** A member list not marked as sorted satisfies the invariant. *)
Lemma unsorted_consistent dt :
  sort_state dt = Some H5T_SORT_NONE → sort_state_consistent dt.
Proof.
  unfold sort_state, sort_state_consistent.
  destruct (dt_u dt) as [c|e|a]; [| |done]; intros [= ->]; by split.
Qed.

(** Both sorts keep the invariant on the sort state. *)
Lemma sort_keeps_consistent NDEBUG dt map r :
  value_buffer_ok dt → sort_state_consistent dt →
  H5T_sort_value NDEBUG dt map = Returned r ∨
  H5T_sort_name NDEBUG dt map = Returned r →
  sort_state_consistent (ret_dt r).
Proof.
  intros Hok Hinv [H|H].
  - destruct dt as [size [c|e|a]]; unfold H5T_sort_value in H;
      cbn [dt_u dt_size] in H.
    + destruct (decide _); [by injection H as <-|].
      pose proof (compnd_value_sorted (compnd_memb c) map) as Hs.
      destruct (bubble _ _ _ _) as [s k]. destruct (NDEBUG || _); [|done].
      injection H as <-. by split.
    + destruct (decide _); [by injection H as <-|].
      destruct (size <=? tbuf_size)%nat eqn:Hsz; cbn [negb andb] in H.
      * apply Nat.leb_le in Hsz.
        pose proof (enumer_value_sorted size (enumer_name e) (enumer_value e) map
                      Hok Hsz) as [(Hn & _) Hs].
        destruct (bubble _ _ _ _) as [s k]. destruct (NDEBUG || _); [|done].
        injection H as <-. cbn in *. split; [|done]. intros _ i Hi.
        apply Hs. by rewrite <- Hn.
      * destruct NDEBUG; [|done]. cbn [negb orb] in H.
        destruct (bubble _ _ _ _) as [s k] eqn:E. destruct k as [|k]; [|done].
        apply bubble_no_exchange in E as [-> Hno]. injection H as <-.
        cbn in *. split; [|done]. intros _ i Hi.
        specialize (Hno i Hi). unfold enumer_value_gt in Hno. cbn in Hno.
        apply Z.ltb_ge in Hno. by replace (i + 1)%nat with (S i) in Hno by lia.
    + destruct NDEBUG; [|done]. by injection H as <-.
  - destruct dt as [size [c|e|a]]; unfold H5T_sort_name in H;
      cbn [dt_u dt_size] in H.
    + destruct (decide _); [by injection H as <-|].
      pose proof (compnd_name_sorted (compnd_memb c) map) as Hs.
      destruct (bubble _ _ _ _) as [s k]. destruct (NDEBUG || _); [|done].
      injection H as <-. by split.
    + destruct (decide _); [by injection H as <-|].
      destruct (negb (_ <=? _)%nat && negb NDEBUG); [done|].
      pose proof (enumer_name_sorted size (enumer_name e) (enumer_value e)
                    tbuf_init map) as Hs.
      destruct (bubble _ _ _ _) as [s k].
      destruct (negb _ && negb (k =? 0)%nat); [done|]. destruct (NDEBUG || _); [|done].
      injection H as <-. by split.
    + destruct NDEBUG; [|done]. by injection H as <-.
Qed.

(* ===================================================================== *)
(** ** The theorems at work on the scenarios *)
(* ===================================================================== *)

Lemma sort_order_invariant_witness :
  adjacent_ordered N.le (member_offsets scenario_A_by_value) ∧
  adjacent_ordered name_le (member_names scenario_B_by_name).
Proof.
  split.
  - apply (proj1 (sort_order_invariant false scenario_A (Some [0; 1; 2])
                    (mk_sort_ret SUCCEED scenario_A_by_value (Some [1; 2; 0]) 2)
                    ltac:(split; discriminate))).
    reflexivity.
  - apply (proj2 (sort_order_invariant false scenario_B_le None
                    (mk_sort_ret SUCCEED scenario_B_by_name None 1)
                    ltac:(split; discriminate))).
    reflexivity.
Defined.

Lemma map_tracks_origin_witness :
  ∃ map', Some [1; 2; 0] = Some map' ∧
          length map' = 3%nat ∧
          tracks_origin ["b"; "a"; "c"]%string ["a"; "c"; "b"]%string map'.
Proof.
  apply (proj1 (map_tracks_origin false scenario_A
                  (mk_sort_ret SUCCEED scenario_A_by_value (Some [1; 2; 0]) 2)
                  (or_introl eq_refl))).
Defined.

Lemma sort_short_circuit_witness :
  H5T_sort_value false scenario_A_by_value (Some [1; 2; 0]) =
    Returned (mk_sort_ret SUCCEED scenario_A_by_value (Some [1; 2; 0]) 0) ∧
  H5T_sort_name false scenario_B_by_name None =
    Returned (mk_sort_ret SUCCEED scenario_B_by_name None 0).
Proof.
  split.
  - apply (proj1 (proj2 (proj2 (sort_short_circuit false scenario_A (Some [0; 1; 2])
             (mk_sort_ret SUCCEED scenario_A_by_value (Some [1; 2; 0]) 2))))).
    reflexivity.
  - apply (proj1 (proj2 (sort_short_circuit false scenario_B_by_name None
             (mk_sort_ret SUCCEED scenario_B_by_name None 0)))).
    reflexivity.
Defined.

Lemma sort_unsupported_kind_witness :
  H5T_sort_value true int_descriptor None =
    Returned (mk_sort_ret SUCCEED int_descriptor None 0) ∧
  H5T_sort_name false int_descriptor None = AssertFailed.
Proof.
  split.
  - apply (proj1 (sort_unsupported_kind true int_descriptor None
                    ltac:(discriminate) ltac:(discriminate))).
  - apply (proj1 (proj2 (sort_unsupported_kind false int_descriptor None
                    ltac:(discriminate) ltac:(discriminate)))).
Defined.

Lemma enum_value_comparison_witness :
  enumer_value_gt 4 0 scenario_B_store = true ↔
  ∃ k x y,
    (k < 4)%nat ∧
    es_value scenario_B_store !! (0 * 4 + k)%nat = Some x ∧
    es_value scenario_B_store !! ((0 + 1) * 4 + k)%nat = Some y ∧
    ubyte y < ubyte x ∧
    ∀ q, (q < k)%nat →
         es_value scenario_B_store !! (0 * 4 + q)%nat =
         es_value scenario_B_store !! ((0 + 1) * 4 + q)%nat.
Proof.
  refine (proj1 (enum_value_comparison 2 4 0 scenario_B_store _ _)).
  - split_and!; [reflexivity|reflexivity|vm_compute; lia].
  - lia.
Defined.

Lemma member_name_bounds_witness :
  (H5T_get_member_name scenario_A 3 = InvalidIndex ↔ 3 < 0 ∨ 3 ≤ 3) ∧
  H5T_get_member_name empty_compound 0 = InvalidIndex ∧
  H5Tget_member_index (λ _ : unit, Some empty_compound) () "a" = NotFound.
Proof.
  split.
  - apply (proj1 (member_name_bounds (λ _ : unit, Some scenario_A) () scenario_A
                    3 3 "a" eq_refl eq_refl)).
  - apply (proj2 (proj2 (proj2
             (member_name_bounds (λ _ : unit, Some empty_compound) () empty_compound
                0 0 "a" eq_refl eq_refl))) eq_refl).
Defined.

Lemma scenario_A_names_distinct : NoDup (c_str <$> member_names scenario_A).
Proof. apply (bool_decide_unpack _). vm_compute. reflexivity. Defined.

Lemma member_index_of_name_witness :
  ∃ nm, H5T_get_member_name scenario_A 1 = Success nm ∧
        H5Tget_member_index (λ _ : unit, Some scenario_A) () nm = Success 1.
Proof.
  refine (member_index_of_name (λ _ : unit, Some scenario_A) () scenario_A 3 1
            eq_refl eq_refl _ scenario_A_names_distinct).
  lia.
Defined.

Lemma member_index_first_match_witness :
  ∃ r, H5Tget_member_index (λ _ : unit, Some duplicate_names) () "x" = Success r ∧
    ((r = FAIL ∧
      ∀ k nm, member_names duplicate_names !! k = Some nm → c_str nm ≠ c_str "x") ∨
     (0 ≤ r < 3 ∧
      ∃ nm, member_names duplicate_names !! Z.to_nat r = Some nm ∧
            c_str nm = c_str "x" ∧
            ∀ k nm', (k < Z.to_nat r)%nat →
                     member_names duplicate_names !! k = Some nm' →
                     c_str nm' ≠ c_str "x")).
Proof.
  apply (proj1 (member_index_first_match (λ _ : unit, Some duplicate_names) ()
                  duplicate_names 3 "x" eq_refl eq_refl)).
Defined.

Lemma sort_permutes_members_witness :
  H5T_get_nmembers scenario_B_by_name = H5T_get_nmembers scenario_B_le ∧
  length (members scenario_B_by_name) = length (members scenario_B_le) ∧
  members scenario_B_by_name ≡ₚ members scenario_B_le ∧
  (∀ p, p ∈ members scenario_B_by_name ↔ p ∈ members scenario_B_le).
Proof.
  apply (sort_permutes_members false scenario_B_le None
           (mk_sort_ret SUCCEED scenario_B_by_name None 1)
           eq_refl (or_intror eq_refl)).
Defined.

Lemma sorts_terminate_witness :
  H5T_sort_value_run 10 false scenario_A (Some [0; 1; 2]) =
    Some (H5T_sort_value false scenario_A (Some [0; 1; 2])) ∧
  H5T_sort_name_run 10 false scenario_A (Some [0; 1; 2]) =
    Some (H5T_sort_name false scenario_A (Some [0; 1; 2])).
Proof.
  apply (proj1 (sorts_terminate false scenario_A (Some [0; 1; 2])) 10%nat).
  vm_compute. lia.
Defined.

(** * Part III: further properties of the code *)

(* ===================================================================== *)
(** ** The public entry points *)
(* ===================================================================== *)

Lemma get_nmembers_has_members dt :
  (∃ n, H5T_get_nmembers dt = Success n) ↔ has_members dt.
Proof.
  unfold H5T_get_nmembers, has_members.
  destruct (dt_u dt); split; try done; try (by intros [? [=]]); by eexists.
Qed.

Lemma get_nmembers_atomic dt :
  ¬ has_members dt → H5T_get_nmembers dt = Failure H5E_ARGS H5E_BADTYPE.
Proof. unfold H5T_get_nmembers, has_members. by destruct (dt_u dt). Qed.

Lemma get_member_name_atomic dt i :
  ¬ has_members dt → H5T_get_member_name dt i = Failure H5E_ARGS H5E_BADTYPE.
Proof. unfold H5T_get_member_name, has_members. by destruct (dt_u dt). Qed.

(** X1. When [H5Tget_nmembers] returns a count [n], the count is not
    negative and is the number of member names, [H5Tget_member_name]
    returns a name exactly for the indices [0 <= membno < n], and for
    every other index it fails with the bad-value error of the private
    function below the bad-type error it pushes itself. *)
Theorem api_count_bounds_names {hid_t} (tbl : hid_t → option H5T_t) id n membno :
  H5Tget_nmembers tbl id = ApiOk n →
  0 ≤ n ∧
  (∃ dt, tbl id = Some dt ∧ n = Z.of_nat (length (member_names dt))) ∧
  ((∃ nm, H5Tget_member_name tbl id membno = ApiOk nm) ↔ 0 ≤ membno < n) ∧
  (¬ 0 ≤ membno < n →
     H5Tget_member_name tbl id membno =
       ApiFail [(H5E_ARGS, H5E_BADVALUE); (H5E_ARGS, H5E_BADTYPE)]).
Proof.
  unfold H5Tget_nmembers, H5Tget_member_name.
  destruct (tbl id) as [dt|]; [|done].
  destruct (H5T_get_nmembers dt) as [m|] eqn:Hm; [|done].
  destruct (Z.ltb_spec m 0); [done|]. intros [= ->].
  rewrite (get_member_name_spec dt n _ Hm).
  pose proof (get_nmembers_names dt n Hm) as Hlen.
  split_and!; [done|by exists dt| |].
  - destruct (Z.ltb_spec membno 0), (Z.geb_spec membno n); simpl;
      (split; [intros [nm [=]]; lia || done|intros ?; try lia; by eexists]).
  - intros Hout.
    destruct (Z.ltb_spec membno 0), (Z.geb_spec membno n); simpl; try done; lia.
Qed.

(** X2. [H5Tget_nmembers] fails exactly when the identifier is not that
    of a datatype or the datatype is neither compound nor enumeration.
    Then [H5Tget_member_name] fails for every index and
    [H5Tget_member_index] for every name, and the error on top of the
    stack is the bad-type error in each case.  The bad-type error is on
    top after every failure of [H5Tget_member_name], an index out of
    range included. *)
Theorem api_unsupported {hid_t} (tbl : hid_t → option H5T_t) id membno name :
  ((∀ n, H5Tget_nmembers tbl id ≠ ApiOk n) ↔
   (tbl id = None ∨ ∃ dt, tbl id = Some dt ∧ ¬ has_members dt)) ∧
  ((∀ n, H5Tget_nmembers tbl id ≠ ApiOk n) →
     top_error (H5Tget_nmembers tbl id) = Some (H5E_ARGS, H5E_BADTYPE) ∧
     top_error (H5Tget_member_name tbl id membno) = Some (H5E_ARGS, H5E_BADTYPE) ∧
     H5Tget_member_index tbl id name = Failure H5E_ARGS H5E_BADTYPE) ∧
  ((∀ nm, H5Tget_member_name tbl id membno ≠ ApiOk nm) →
     top_error (H5Tget_member_name tbl id membno) = Some (H5E_ARGS, H5E_BADTYPE)).
Proof.
  assert (Hcount : ∀ dt, has_members dt →
            ∃ n, H5T_get_nmembers dt = Success n ∧ 0 ≤ n).
  { intros dt [n Hn]%get_nmembers_has_members. exists n. split; [done|].
    rewrite (get_nmembers_names dt n Hn). lia. }
  unfold H5Tget_nmembers, H5Tget_member_name, H5Tget_member_index.
  destruct (tbl id) as [dt|].
  2:{ split_and!; try done. split; [by left|done]. }
  assert (has_members dt ∨ ¬ has_members dt) as [Hm|Hm]
    by (unfold has_members; destruct (dt_u dt); tauto).
  - destruct (Hcount dt Hm) as (n & Hn & Hn0). rewrite Hn.
    destruct (Z.ltb_spec n 0); [lia|]. split_and!.
    + split; [intros H'; by destruct (H' _ eq_refl)|].
      intros [[=]|(dt' & [= <-] & Hno)]. by destruct Hno.
    + intros H'. by destruct (H' _ eq_refl).
    + rewrite (get_member_name_spec dt n _ Hn).
      destruct (_ || _); [done|]. intros H'. by destruct (H' _ eq_refl).
  - rewrite (get_nmembers_atomic dt Hm), (get_member_name_atomic dt _ Hm).
    split_and!; try done.
    + split; [|done]. intros _. right. by exists dt.
    + intros _. split_and!; try done.
      unfold has_members in Hm. destruct (dt_u dt); try done; by destruct Hm.
Qed.

(* ===================================================================== *)
(** ** Lookup by name *)
(* ===================================================================== *)

(** X3. An index returned by [H5Tget_member_index] other than [FAIL] is
    a valid member index, and the name [H5T_get_member_name] returns for
    it is the C string that was looked up. *)
Theorem member_name_of_index {hid_t} (tbl : hid_t → option H5T_t) id dt name r :
  tbl id = Some dt →
  H5Tget_member_index tbl id name = Success r →
  r ≠ FAIL →
  0 ≤ r < Z.of_nat (length (member_names dt)) ∧
  H5T_get_member_name dt r = Success (c_str name).
Proof.
  intros Htbl Hr Hfound.
  assert (∃ n, H5T_get_nmembers dt = Success n) as [n Hn].
  { apply get_nmembers_has_members. unfold H5Tget_member_index in Hr.
    rewrite Htbl in Hr. unfold has_members. by destruct (dt_u dt). }
  pose proof (get_nmembers_names dt n Hn) as Hlen.
  rewrite (get_member_index_spec tbl id dt n name Htbl Hn) in Hr.
  injection Hr as Hr.
  destruct (locate_member_spec (member_names dt) name 0)
    as [[Hf _]|(k & nm & Hk & Hnm & Hm & _)]; [congruence|].
  rewrite Hk in Hr. subst r. pose proof (lookup_lt_Some _ _ _ Hnm).
  split; [lia|]. rewrite (get_member_name_spec dt n _ Hn).
  destruct (Z.ltb_spec (0 + Z.of_nat k) 0), (Z.geb_spec (0 + Z.of_nat k) n);
    try lia. simpl. f_equal.
  rewrite Z.add_0_l, Nat2Z.id, (nth_lookup_Some _ _ _ _ Hnm).
  unfold H5MM_xstrdup. by apply HDstrcmp_c_str.
Qed.

Lemma locate_member_fail_iff names name :
  locate_member names name 0 = FAIL ↔
  ∀ nm, nm ∈ names → c_str nm ≠ c_str name.
Proof.
  destruct (locate_member_spec names name 0)
    as [[Hf Hnone]|(k & nm & Hk & Hnm & Hm & _)].
  - split; [|done]. intros _ nm [k Hk]%list_elem_of_lookup.
    rewrite <- HDstrcmp_c_str. by eapply Hnone.
  - split.
    + rewrite Hk. unfold FAIL. lia.
    + intros Hnone. destruct (Hnone nm).
      * by eapply list_elem_of_lookup_2.
      * by apply HDstrcmp_c_str.
Qed.

Lemma compnd_swap_names (orig : list H5T_cmemb_t) j s :
  cm_name <$> cs_memb s ≡ₚ cm_name <$> orig →
  cm_name <$> cs_memb (compnd_swap j s) ≡ₚ cm_name <$> orig.
Proof. intros Hp. simpl. by rewrite swap_elems_perm. Qed.

Lemma enumer_swap_names size (orig : list string) j s :
  es_name s ≡ₚ orig → es_name (enumer_swap size j s) ≡ₚ orig.
Proof. intros Hp. simpl. by rewrite swap_elems_perm. Qed.

(** The names are only reordered, whatever the value buffer holds. *)
Lemma skeleton_names want c_gt c_lt e_gt e_lt NDEBUG dt map r :
  sort_skeleton want c_gt c_lt e_gt e_lt NDEBUG dt map = Returned r →
  member_names (ret_dt r) ≡ₚ member_names dt ∧
  (has_members (ret_dt r) ↔ has_members dt).
Proof.
  destruct dt as [size [c|e|a]]; unfold sort_skeleton, member_names, has_members;
    cbn [dt_u dt_size]; intros H.
  - destruct (decide _); [by injection H as <-|].
    pose proof (bubble_keeps c_gt compnd_swap (length (compnd_memb c))
                  (λ s, cm_name <$> cs_memb s ≡ₚ cm_name <$> compnd_memb c)
                  (λ j s _, compnd_swap_names (compnd_memb c) j s)
                  (mk_compnd_st (compnd_memb c) map) ltac:(simpl; reflexivity)) as Hk.
    destruct (bubble _ _ _ _) as [s k]. destruct (NDEBUG || _); [|done].
    by injection H as <-.
  - destruct (decide _); [by injection H as <-|].
    destruct (negb (_ <=? _)%nat && negb NDEBUG); [done|].
    pose proof (bubble_keeps (e_gt size) (enumer_swap size) (length (enumer_name e))
                  (λ s, es_name s ≡ₚ enumer_name e)
                  (λ j s _, enumer_swap_names size (enumer_name e) j s)
                  (mk_enumer_st (enumer_name e) (enumer_value e) tbuf_init map)
                  ltac:(simpl; reflexivity)) as Hk.
    destruct (bubble _ _ _ _) as [s k].
    destruct (negb _ && negb (k =? 0)%nat); [done|].
    destruct (NDEBUG || _); [|done]. by injection H as <-.
  - destruct NDEBUG; [|done]. by injection H as <-.
Qed.

Lemma get_member_index_names {hid_t} (tbl : hid_t → option H5T_t) id dt name :
  tbl id = Some dt →
  H5Tget_member_index tbl id name =
    match dt_u dt with
    | U_atomic _ => Failure H5E_ARGS H5E_BADTYPE
    | _ => Success (locate_member (member_names dt) name 0)
    end.
Proof.
  unfold H5Tget_member_index, member_names. intros ->. by destruct (dt_u dt).
Qed.


Lemma members_names dt : (fst <$> members dt) = member_names dt.
Proof.
  unfold members, member_names, enum_members. destruct (dt_u dt) as [c|e|a]; [| |done].
  - rewrite <- list_fmap_compose. by apply list_fmap_ext.
  - rewrite <- list_fmap_compose. apply list_eq. intros k.
    rewrite list_lookup_fmap, list_lookup_imap. by destruct (enumer_name e !! k).
Qed.

(** X5. With member names that are pairwise different C strings, a name
    leads to the same member before and after a sort: the member
    [H5Tget_member_index] finds in the sorted descriptor has the name
    and the offset (or value) of the member it finds in the original
    one. *)
Theorem sort_keeps_member_of_name {hid_t} (tbl tbl' : hid_t → option H5T_t) id
    NDEBUG dt map r name i i' :
  value_buffer_ok dt →
  NoDup (c_str <$> member_names dt) →
  H5T_sort_value NDEBUG dt map = Returned r ∨
  H5T_sort_name NDEBUG dt map = Returned r →
  tbl id = Some dt → tbl' id = Some (ret_dt r) →
  H5Tget_member_index tbl id name = Success i →
  H5Tget_member_index tbl' id name = Success i' →
  i ≠ FAIL →
  i' ≠ FAIL ∧
  is_Some (members dt !! Z.to_nat i) ∧
  members (ret_dt r) !! Z.to_nat i' = members dt !! Z.to_nat i.
Proof.
  intros Hok Hnd H Htbl Htbl' Hi Hi' Hfound.
  assert (members (ret_dt r) ≡ₚ members dt) as Hp.
  { destruct H as [H|H].
    - rewrite H5T_sort_value_skeleton in H. by eapply skeleton_members.
    - rewrite H5T_sort_name_skeleton in H. by eapply skeleton_members. }
  assert (Hpn : member_names (ret_dt r) ≡ₚ member_names dt)
    by (by rewrite <- !members_names, Hp).
  rewrite (get_member_index_names tbl id dt name Htbl) in Hi.
  rewrite (get_member_index_names tbl' id (ret_dt r) name Htbl') in Hi'.
  assert (locate_member (member_names dt) name 0 = i) as Hloc
    by (destruct (dt_u dt); congruence).
  assert (locate_member (member_names (ret_dt r)) name 0 = i') as Hloc'
    by (destruct (dt_u (ret_dt r)); congruence).
  clear Hi Hi'.
  destruct (locate_member_spec (member_names dt) name 0)
    as [[Hf _]|(k & nm & Hk & Hnm & Hm & _)]; [congruence|].
  destruct (locate_member_spec (member_names (ret_dt r)) name 0)
    as [[Hf' Hnone]|(k' & nm' & Hk' & Hnm' & Hm' & _)].
  { destruct (proj1 (locate_member_fail_iff _ _) Hf' nm).
    - rewrite Hpn. by eapply list_elem_of_lookup_2.
    - by apply HDstrcmp_c_str. }
  rewrite Hk in Hloc. rewrite Hk' in Hloc'. subst i i'.
  rewrite !Z.add_0_l, !Nat2Z.id. split; [unfold FAIL; lia|].
  rewrite <- members_names in Hnm, Hnm'. rewrite list_lookup_fmap in Hnm, Hnm'.
  destruct (members dt !! k) as [e|] eqn:He; [|done].
  destruct (members (ret_dt r) !! k') as [e'|] eqn:He'; [|done].
  injection Hnm as <-. injection Hnm' as <-. split; [by eexists|].
  assert (e' ∈ members dt) as [k0 Hk0]%list_elem_of_lookup.
  { rewrite <- Hp. by eapply list_elem_of_lookup_2. }
  assert (k0 = k); [|congruence].
  apply HDstrcmp_c_str in Hm, Hm'.
  eapply (NoDup_lookup _ _ _ (c_str name) Hnd);
    rewrite <- members_names, !list_lookup_fmap.
  - by rewrite Hk0; simpl; rewrite Hm'.
  - by rewrite He; simpl; rewrite Hm.
Qed.

(* ===================================================================== *)
(** ** The sort state after a sort *)
(* ===================================================================== *)

Lemma sort_state_consistent_in_order dt :
  sort_state_consistent dt ↔
  ∀ want, sort_state dt = Some want → members_in_order want dt.
Proof.
  unfold sort_state_consistent, sort_state, members_in_order, member_names.
  destruct (dt_u dt) as [c|e|a].
  - split.
    + intros [Hv Hn] want [= <-]. destruct (compnd_sorted c); auto.
    + intros H. split; intros E; exact (H _ (f_equal Some E)).
  - split.
    + intros [Hv Hn] want [= <-]. destruct (enumer_sorted e); auto.
    + intros H. split; intros E; exact (H _ (f_equal Some E)).
  - split; [by intros _ want [=]|done].
Qed.

Lemma skeleton_size want c_gt c_lt e_gt e_lt NDEBUG dt map r :
  sort_skeleton want c_gt c_lt e_gt e_lt NDEBUG dt map = Returned r →
  dt_size (ret_dt r) = dt_size dt.
Proof.
  destruct dt as [size [c|e|a]]; unfold sort_skeleton;
    cbn [dt_u dt_size]; intros H.
  - destruct (decide _); [by injection H as <-|].
    destruct (bubble _ _ _ _) as [s k]. destruct (NDEBUG || _); [|done].
    by injection H as <-.
  - destruct (decide _); [by injection H as <-|].
    destruct (negb (_ <=? _)%nat && negb NDEBUG); [done|].
    destruct (bubble _ _ _ _) as [s k].
    destruct (negb _ && negb (k =? 0)%nat); [done|].
    destruct (NDEBUG || _); [|done]. by injection H as <-.
  - destruct NDEBUG; [|done]. by injection H as <-.
Qed.

Lemma skeleton_type want c_gt c_lt e_gt e_lt NDEBUG dt map r :
  sort_skeleton want c_gt c_lt e_gt e_lt NDEBUG dt map = Returned r →
  dt_type (ret_dt r) = dt_type dt.
Proof.
  destruct dt as [size [c|e|a]]; unfold sort_skeleton;
    cbn [dt_u dt_size]; intros H.
  - destruct (decide _); [by injection H as <-|].
    destruct (bubble _ _ _ _) as [s k]. destruct (NDEBUG || _); [|done].
    by injection H as <-.
  - destruct (decide _); [by injection H as <-|].
    destruct (negb (_ <=? _)%nat && negb NDEBUG); [done|].
    destruct (bubble _ _ _ _) as [s k].
    destruct (negb _ && negb (k =? 0)%nat); [done|].
    destruct (NDEBUG || _); [|done]. by injection H as <-.
  - destruct NDEBUG; [|done]. by injection H as <-.
Qed.

(** X6. On a compound or enumeration descriptor that satisfies the
    invariant on the sort state (the value buffer of an enumeration
    holding one value per name), a call of [H5T_sort_value] that returns
    leaves the sort state at [H5T_SORT_VALUE] and a call of
    [H5T_sort_name] at [H5T_SORT_NAME], never at [H5T_SORT_NONE]; the
    members are then in that order (for an enumeration sorted by value:
    no value compares greater than the next under [memcmp]), the
    invariant and the layout of the value buffer still hold, and the
    size and the class of the descriptor are unchanged. *)
Theorem sort_establishes_state NDEBUG dt map r :
  value_buffer_ok dt → sort_state_consistent dt → has_members dt →
  (H5T_sort_value NDEBUG dt map = Returned r →
     sort_state (ret_dt r) = Some H5T_SORT_VALUE ∧
     members_in_order H5T_SORT_VALUE (ret_dt r)) ∧
  (H5T_sort_name NDEBUG dt map = Returned r →
     sort_state (ret_dt r) = Some H5T_SORT_NAME ∧
     members_in_order H5T_SORT_NAME (ret_dt r)) ∧
  (H5T_sort_value NDEBUG dt map = Returned r ∨
   H5T_sort_name NDEBUG dt map = Returned r →
     sort_state_consistent (ret_dt r) ∧ value_buffer_ok (ret_dt r) ∧
     dt_size (ret_dt r) = dt_size dt ∧ dt_type (ret_dt r) = dt_type dt).
Proof.
  intros Hok Hinv Hm.
  assert (Hstate : ∀ want c_gt c_lt e_gt e_lt,
            sort_skeleton want c_gt c_lt e_gt e_lt NDEBUG dt map = Returned r →
            sort_state (ret_dt r) = Some want ∧ dt_type (ret_dt r) = dt_type dt).
  { intros want c_gt c_lt e_gt e_lt H.
    split; [|by eapply skeleton_type].
    destruct (skeleton_sort_state _ _ _ _ _ _ _ _ _ H) as [Hs|(Hs & _)]; [done|].
    unfold sort_state, has_members in *. by destruct (dt_u dt). }
  assert (Hall : H5T_sort_value NDEBUG dt map = Returned r ∨
                 H5T_sort_name NDEBUG dt map = Returned r →
                 sort_state_consistent (ret_dt r) ∧ value_buffer_ok (ret_dt r) ∧
                 dt_size (ret_dt r) = dt_size dt ∧ dt_type (ret_dt r) = dt_type dt).
  { intros H. split; [by eapply sort_keeps_consistent|].
    destruct H as [H|H].
    - rewrite H5T_sort_value_skeleton in H. split_and!.
      + by eapply skeleton_members.
      + by eapply skeleton_size.
      + by eapply Hstate.
    - rewrite H5T_sort_name_skeleton in H. split_and!.
      + by eapply skeleton_members.
      + by eapply skeleton_size.
      + by eapply Hstate. }
  split_and!; [| |done].
  - intros H. destruct (Hall (or_introl H)) as (Hc & _).
    rewrite H5T_sort_value_skeleton in H. destruct (Hstate _ _ _ _ _ H) as [Hs _].
    split; [done|]. by apply sort_state_consistent_in_order.
  - intros H. destruct (Hall (or_intror H)) as (Hc & _).
    rewrite H5T_sort_name_skeleton in H. destruct (Hstate _ _ _ _ _ H) as [Hs _].
    split; [done|]. by apply sort_state_consistent_in_order.
Qed.

(* ===================================================================== *)
(** ** Stability *)
(* ===================================================================== *)

Section LoopInvariantGt.
Context {St : Type}.
Variable gt : nat → St → bool.
Variable swp : nat → St → St.

(** As [bubble_keeps], for a property that only the exchanges the loops
    really make need to keep: those of two elements found out of
    order. *)
Variable nmembs : nat.
Variable P : St → Prop.
Hypothesis swp_keeps : ∀ j s,
  (S j < nmembs)%nat → gt j s = true → P s → P (swp j s).

Lemma inner_loop_keeps_gt todo : ∀ j s sw k,
  (j + todo < nmembs)%nat → P s → P (inner_loop gt swp todo j s sw k).1.1.
Proof.
  induction todo as [|todo IH]; intros j s sw k Hj Hs; [done|].
  cbn [inner_loop]. destruct (gt j s) eqn:E; apply IH; try lia; try done.
  apply swp_keeps; [lia|done|done].
Qed.

Lemma outer_loop_keeps_gt i : ∀ s sw k,
  (i < nmembs)%nat → P s → P (outer_loop gt swp i sw s k).1.
Proof.
  induction i as [|i IH]; intros s sw k Hi Hs; [done|].
  cbn [outer_loop]. destruct sw; [|done].
  pose proof (inner_loop_keeps_gt (S i) 0 s false k ltac:(lia) Hs) as Hp.
  destruct (inner_loop gt swp (S i) 0 s false k) as [[s' sw'] k'].
  apply IH; [lia|done].
Qed.

Lemma bubble_keeps_gt s : P s → P (bubble gt swp nmembs s).1.
Proof.
  intros Hs. unfold bubble.
  destruct (Nat.eq_dec nmembs 0%nat) as [E|E]; [by rewrite E|].
  apply outer_loop_keeps_gt; [lia|done].
Qed.

End LoopInvariantGt.

Lemma filter_swap_elems {A} (Q : A → Prop) `{∀ x, Decision (Q x)} j (l : list A) a b :
  l !! j = Some a → l !! S j = Some b → ¬ (Q a ∧ Q b) →
  filter Q (swap_elems j l) = filter Q l.
Proof.
  intros Ha Hb Hnot. destruct (swap_elems_split j l a b Ha Hb) as [E Hlen].
  rewrite E at 1. rewrite <- Hlen at 1. rewrite swap_elems_app.
  rewrite E at 3. rewrite !filter_app. f_equal.
  destruct (decide (Q a)) as [qa|qa], (decide (Q b)) as [qb|qb]; [tauto|..];
    repeat first [ rewrite (filter_cons_True _ a) by done
                 | rewrite (filter_cons_False _ a) by done
                 | rewrite (filter_cons_True _ b) by done
                 | rewrite (filter_cons_False _ b) by done ]; done.
Qed.

Lemma lex_gt_irrefl a : lex_gt a a = false.
Proof. destruct (lex_gt a a) eqn:E; [|done]. by rewrite (lex_gt_asym _ _ E) in E. Qed.

Lemma name_gtb_differ a b : name_gtb a b = true → c_str a ≠ c_str b.
Proof.
  unfold name_gtb. intros H%Z.ltb_lt E%HDstrcmp_c_str. lia.
Qed.

Lemma compnd_value_stable memb map o :
  filter (λ m, cm_offset m = o)
    (cs_memb (bubble compnd_value_gt compnd_swap (length memb)
                (mk_compnd_st memb map)).1)
  = filter (λ m, cm_offset m = o) memb.
Proof.
  apply (bubble_keeps_gt compnd_value_gt compnd_swap (length memb)
           (λ s, filter (λ m, cm_offset m = o) (cs_memb s)
                 = filter (λ m, cm_offset m = o) memb)); [|done].
  intros j s _ Hgt Hs. rewrite <- Hs. unfold compnd_value_gt in Hgt. simpl.
  destruct (cs_memb s !! j) as [a|] eqn:Ha; [|done].
  destruct (cs_memb s !! S j) as [b|] eqn:Hb; [|done].
  apply (filter_swap_elems _ j _ a b Ha Hb).
  apply N.ltb_lt in Hgt. lia.
Qed.

Lemma compnd_name_stable memb map nm :
  filter (λ m, c_str (cm_name m) = c_str nm)
    (cs_memb (bubble compnd_name_gt compnd_swap (length memb)
                (mk_compnd_st memb map)).1)
  = filter (λ m, c_str (cm_name m) = c_str nm) memb.
Proof.
  apply (bubble_keeps_gt compnd_name_gt compnd_swap (length memb)
           (λ s, filter (λ m, c_str (cm_name m) = c_str nm) (cs_memb s)
                 = filter (λ m, c_str (cm_name m) = c_str nm) memb)); [|done].
  intros j s _ Hgt Hs. rewrite <- Hs. unfold compnd_name_gt in Hgt. simpl.
  destruct (cs_memb s !! j) as [a|] eqn:Ha; [|done].
  destruct (cs_memb s !! S j) as [b|] eqn:Hb; [|done].
  apply (filter_swap_elems _ j _ a b Ha Hb).
  apply name_gtb_differ in Hgt. intros [E1 E2]. congruence.
Qed.

Lemma enumer_swap_filtered n size (Q : string * list byte → Prop)
    `{∀ p, Decision (Q p)} orig j s :
  (S j < n)%nat →
  (∀ a b, enum_members size (es_name s) (es_value s) !! j = Some a →
          enum_members size (es_name s) (es_value s) !! S j = Some b →
          ¬ (Q a ∧ Q b)) →
  enumer_filtered n size Q orig s →
  enumer_filtered n size Q orig (enumer_swap size j s).
Proof.
  intros Hj Hnot [Hwf Hf]. split; [by apply enumer_swap_values|].
  rewrite (enumer_swap_members n) by done. rewrite <- Hf.
  pose proof Hwf as (Hn & _).
  destruct (lookup_lt_is_Some_2 (es_name s) j ltac:(lia)) as [x Hx].
  destruct (lookup_lt_is_Some_2 (es_name s) (S j) ltac:(lia)) as [y Hy].
  eapply filter_swap_elems; [| |apply Hnot];
    by rewrite enum_members_lookup, ?Hx, ?Hy.
Qed.

Lemma enumer_value_stable size name value map v :
  length value = (length name * size)%nat → (size ≤ tbuf_size)%nat →
  let s' := (bubble (enumer_value_gt size) (enumer_swap size) (length name)
               (mk_enumer_st name value tbuf_init map)).1 in
  filter (λ p, p.2 = v) (enum_members size (es_name s') (es_value s'))
  = filter (λ p, p.2 = v) (enum_members size name value).
Proof.
  intros Hv Hsz.
  apply (bubble_keeps_gt (enumer_value_gt size) (enumer_swap size) (length name)
           (enumer_filtered (length name) size (λ p, p.2 = v)
              (enum_members size name value))); [|done].
  intros j s Hj Hgt Hs. apply enumer_swap_filtered; [done| |done].
  intros a b Ha Hb [Ea Eb]. destruct Hs as [Hwf _].
  rewrite (enumer_value_gt_lex (length name)) in Hgt by done.
  rewrite enum_members_lookup in Ha, Hb.
  destruct (es_name s !! j); [|done]. destruct (es_name s !! S j); [|done].
  injection Ha as <-. injection Hb as <-. simpl in *.
  rewrite Ea, Eb, lex_gt_irrefl in Hgt. done.
Qed.

Lemma enumer_name_stable size name value map nm :
  length value = (length name * size)%nat → (size ≤ tbuf_size)%nat →
  let s' := (bubble enumer_name_gt (enumer_swap size) (length name)
               (mk_enumer_st name value tbuf_init map)).1 in
  filter (λ p, c_str p.1 = c_str nm) (enum_members size (es_name s') (es_value s'))
  = filter (λ p, c_str p.1 = c_str nm) (enum_members size name value).
Proof.
  intros Hv Hsz.
  apply (bubble_keeps_gt enumer_name_gt (enumer_swap size) (length name)
           (enumer_filtered (length name) size (λ p, c_str p.1 = c_str nm)
              (enum_members size name value))); [|done].
  intros j s Hj Hgt Hs. apply enumer_swap_filtered; [done| |done].
  intros a b Ha Hb [Ea Eb]. unfold enumer_name_gt in Hgt.
  rewrite enum_members_lookup in Ha, Hb.
  destruct (es_name s !! j); [|done]. destruct (es_name s !! S j); [|done].
  injection Ha as <-. injection Hb as <-. simpl in *.
  apply name_gtb_differ in Hgt. congruence.
Qed.

(** X7. Both sorts are stable.  After a call of [H5T_sort_value] that
    returns, the members with any given offset (compound) or any given
    value (enumeration) are in the order they had before; after a call
    of [H5T_sort_name] that returns, so are the members whose names are
    any given C string.  (The value buffer of an enumeration holds one
    value per name.) *)
Theorem sorts_are_stable NDEBUG dt map r :
  value_buffer_ok dt →
  (H5T_sort_value NDEBUG dt map = Returned r →
     (∀ o, filter (λ m, cm_offset m = o) (record_members (ret_dt r))
           = filter (λ m, cm_offset m = o) (record_members dt)) ∧
     (∀ v, filter (λ p, p.2 = v) (enumeration_members (ret_dt r))
           = filter (λ p, p.2 = v) (enumeration_members dt))) ∧
  (H5T_sort_name NDEBUG dt map = Returned r →
     (∀ nm, filter (λ m, c_str (cm_name m) = c_str nm) (record_members (ret_dt r))
            = filter (λ m, c_str (cm_name m) = c_str nm) (record_members dt)) ∧
     (∀ nm, filter (λ p, c_str p.1 = c_str nm) (enumeration_members (ret_dt r))
            = filter (λ p, c_str p.1 = c_str nm) (enumeration_members dt))).
Proof.
  intros Hok. destruct dt as [size [c|e|a]];
    unfold H5T_sort_value, H5T_sort_name, value_buffer_ok, record_members,
      enumeration_members in *; cbn [dt_u dt_size] in *; split; intros H.
  - destruct (decide _); [by injection H as <-|].
    pose proof (compnd_value_stable (compnd_memb c) map) as Hs.
    destruct (bubble _ _ _ _) as [s k]. destruct (NDEBUG || _); [|done].
    by injection H as <-.
  - destruct (decide _); [by injection H as <-|].
    pose proof (compnd_name_stable (compnd_memb c) map) as Hs.
    destruct (bubble _ _ _ _) as [s k]. destruct (NDEBUG || _); [|done].
    by injection H as <-.
  - destruct (decide _); [by injection H as <-|].
    destruct (size <=? tbuf_size)%nat eqn:Hsz; cbn [negb andb] in H.
    + apply Nat.leb_le in Hsz.
      pose proof (λ v, enumer_value_stable size (enumer_name e) (enumer_value e)
                         map v Hok Hsz) as Hs.
      destruct (bubble _ _ _ _) as [s k]. destruct (NDEBUG || _); [|done].
      by injection H as <-.
    + destruct NDEBUG; [|done]. cbn [negb orb] in H.
      destruct (bubble _ _ _ _) as [s k] eqn:E. destruct k as [|k]; [|done].
      apply bubble_no_exchange in E as [-> _]. by injection H as <-.
  - destruct (decide _); [by injection H as <-|].
    destruct (size <=? tbuf_size)%nat eqn:Hsz; cbn [negb andb] in H.
    + apply Nat.leb_le in Hsz.
      pose proof (λ nm, enumer_name_stable size (enumer_name e) (enumer_value e)
                          map nm Hok Hsz) as Hs.
      destruct (bubble _ _ _ _) as [s k]. destruct (NDEBUG || _); [|done].
      by injection H as <-.
    + destruct NDEBUG; [|done]. cbn [negb orb] in H.
      destruct (bubble _ _ _ _) as [s k] eqn:E. destruct k as [|k]; [|done].
      apply bubble_no_exchange in E as [-> _]. by injection H as <-.
  - destruct NDEBUG; [|done]. by injection H as <-.
  - destruct NDEBUG; [|done]. by injection H as <-.
Qed.

(* ===================================================================== *)
(** ** The caller's map, whatever it holds *)
(* ===================================================================== *)

Section SwapOnPairs.
Context {A B : Type}.

Lemma fmap_swap_elems (f : A → B) j (l : list A) :
  f <$> swap_elems j l = swap_elems j (f <$> l).
Proof.
  unfold swap_elems. rewrite !list_lookup_fmap.
  destruct (l !! j), (l !! S j); simpl; try done.
  by rewrite !list_fmap_insert.
Qed.

Lemma zip_swap_elems j (l : list A) (k : list B) :
  (S j < length l)%nat → (S j < length k)%nat →
  zip (swap_elems j l) (swap_elems j k) = swap_elems j (zip l k).
Proof.
  intros Hl Hk.
  destruct (lookup_lt_is_Some_2 l j ltac:(lia)) as [a Ha].
  destruct (lookup_lt_is_Some_2 l (S j) ltac:(lia)) as [a' Ha'].
  destruct (lookup_lt_is_Some_2 k j ltac:(lia)) as [b Hb].
  destruct (lookup_lt_is_Some_2 k (S j) ltac:(lia)) as [b' Hb'].
  apply list_eq. intros p.
  rewrite (swap_elems_lookup j (zip l k) (a, b) (a', b'))
    by (rewrite lookup_zip_with, ?Ha, ?Ha'; simpl; by rewrite ?Hb, ?Hb').
  rewrite !lookup_zip_with.
  rewrite (swap_elems_lookup j l a a' Ha Ha'), (swap_elems_lookup j k b b' Hb Hb').
  repeat case_decide; done.
Qed.

Lemma drop_swap_elems n j (l : list A) :
  (S j < n)%nat → drop n (swap_elems j l) = drop n l.
Proof.
  intros Hj. unfold swap_elems.
  destruct (l !! j) as [a|]; [|done]. destruct (l !! S j) as [b|]; [|done].
  by rewrite !drop_insert_lt by lia.
Qed.

End SwapOnPairs.

Lemma map_in_step_swap n orig_names orig_map names map j :
  (n ≤ length orig_map)%nat → (S j < n)%nat →
  map_in_step n orig_names orig_map names map →
  map_in_step n orig_names orig_map (swap_elems j names) (swap_map j map).
Proof.
  intros Hn Hj (m & -> & Hlen & Hnames & Hp & Hd & Hz).
  exists (swap_elems j m). simpl. rewrite !swap_elems_length.
  split_and!; try done.
  - by rewrite swap_elems_perm.
  - by rewrite drop_swap_elems.
  - rewrite zip_swap_elems by lia. by rewrite swap_elems_perm.
Qed.

Lemma skeleton_map want c_gt c_lt e_gt e_lt NDEBUG dt map r :
  sort_skeleton want c_gt c_lt e_gt e_lt NDEBUG dt map = Returned r →
  (map = None → ret_map r = None) ∧
  (∀ m, map = Some m → (length (member_names dt) ≤ length m)%nat →
        map_in_step (length (member_names dt)) (member_names dt) m
          (member_names (ret_dt r)) (ret_map r)).
Proof.
  assert (Hinit : ∀ names m,
            map_in_step (length names) names m names (Some m))
    by (intros; by exists m).
  destruct dt as [size [c|e|a]]; unfold sort_skeleton, member_names;
    cbn [dt_u dt_size]; intros H.
  - destruct (decide _); [injection H as <-; split; [done|by intros m ->]|].
    pose proof (bubble_keeps c_gt compnd_swap (length (compnd_memb c))
                  (λ s, cs_map s = None) (λ j s _ E, ltac:(simpl; by rewrite E))
                  (mk_compnd_st (compnd_memb c) map)) as Hnone.
    pose proof (λ m (Hm : (length (cm_name <$> compnd_memb c) ≤ length m)%nat),
                  bubble_keeps c_gt compnd_swap (length (compnd_memb c))
                  (λ s, map_in_step (length (cm_name <$> compnd_memb c))
                          (cm_name <$> compnd_memb c) m
                          (cm_name <$> cs_memb s) (cs_map s))
                  (λ j s Hj Hs, ltac:(
                     simpl; rewrite fmap_swap_elems;
                     apply map_in_step_swap;
                       [done|by rewrite length_fmap|done]))
                  (mk_compnd_st (compnd_memb c) (Some m)) (Hinit _ _)) as Hsome.
    destruct map as [m0|].
    + specialize (Hsome m0).
      destruct (bubble _ _ _ _) as [s k]. destruct (NDEBUG || _); [|done].
      injection H as <-. split; [done|]. intros m [= <-] Hm. by apply Hsome.
    + destruct (bubble _ _ _ _) as [s k]. destruct (NDEBUG || _); [|done].
      injection H as <-. split; [|done]. intros _. by apply Hnone.
  - destruct (decide _); [injection H as <-; split; [done|by intros m ->]|].
    destruct (negb (_ <=? _)%nat && negb NDEBUG); [done|].
    pose proof (bubble_keeps (e_gt size) (enumer_swap size) (length (enumer_name e))
                  (λ s, es_map s = None) (λ j s _ E, ltac:(simpl; by rewrite E))
                  (mk_enumer_st (enumer_name e) (enumer_value e) tbuf_init map))
      as Hnone.
    pose proof (λ m (Hm : (length (enumer_name e) ≤ length m)%nat),
                  bubble_keeps (e_gt size) (enumer_swap size) (length (enumer_name e))
                  (λ s, map_in_step (length (enumer_name e)) (enumer_name e) m
                          (es_name s) (es_map s))
                  (λ j s Hj Hs, ltac:(
                     simpl; apply map_in_step_swap; [done|done|done]))
                  (mk_enumer_st (enumer_name e) (enumer_value e) tbuf_init (Some m))
                  (Hinit _ _)) as Hsome.
    destruct map as [m0|].
    + specialize (Hsome m0).
      destruct (bubble _ _ _ _) as [s k].
      destruct (negb _ && negb (k =? 0)%nat); [done|].
      destruct (NDEBUG || _); [|done].
      injection H as <-. split; [done|]. intros m [= <-] Hm. by apply Hsome.
    + destruct (bubble _ _ _ _) as [s k].
      destruct (negb _ && negb (k =? 0)%nat); [done|].
      destruct (NDEBUG || _); [|done].
      injection H as <-. split; [|done]. intros _. by apply Hnone.
  - destruct NDEBUG; [|done]. injection H as <-. split; [done|].
    intros m -> _. by exists m.
Qed.

(** X8. Whatever the caller's map holds, as long as it has an entry for
    every member, a sort that returns hands back a map of the same
    length whose entries are those of the map it was given, reordered
    along with the members: the pairs of a member name and the map entry
    at the same position are the same pairs as before the call, and the
    entries past the members are untouched.  A call without a map hands
    back none. *)
Theorem sort_map_in_step NDEBUG dt m r :
  (length (member_names dt) ≤ length m)%nat →
  H5T_sort_value NDEBUG dt (Some m) = Returned r ∨
  H5T_sort_name NDEBUG dt (Some m) = Returned r →
  (∃ m', ret_map r = Some m' ∧ length m' = length m ∧ m' ≡ₚ m ∧
         drop (length (member_names dt)) m' = drop (length (member_names dt)) m ∧
         zip (member_names (ret_dt r)) m' ≡ₚ zip (member_names dt) m) ∧
  (∀ NDEBUG' dt' r',
     H5T_sort_value NDEBUG' dt' None = Returned r' ∨
     H5T_sort_name NDEBUG' dt' None = Returned r' → ret_map r' = None).
Proof.
  intros Hlen H. split.
  - assert (map_in_step (length (member_names dt)) (member_names dt) m
              (member_names (ret_dt r)) (ret_map r))
      as (m' & Hm' & Hl & _ & Hp & Hd & Hz).
    { destruct H as [H|H].
      - rewrite H5T_sort_value_skeleton in H.
        by apply (proj2 (skeleton_map _ _ _ _ _ _ _ _ _ H) m).
      - rewrite H5T_sort_name_skeleton in H.
        by apply (proj2 (skeleton_map _ _ _ _ _ _ _ _ _ H) m). }
    by exists m'.
  - intros N' dt' r' [H'|H'].
    + rewrite H5T_sort_value_skeleton in H'.
      by apply (proj1 (skeleton_map _ _ _ _ _ _ _ _ _ H')).
    + rewrite H5T_sort_name_skeleton in H'.
      by apply (proj1 (skeleton_map _ _ _ _ _ _ _ _ _ H')).
Qed.

(* ===================================================================== *)
(** ** Members already in order *)
(* ===================================================================== *)

Section EarlyExit.
Context {St : Type}.
Variable gt : nat → St → bool.
Variable swp : nat → St → St.

Lemma inner_loop_in_order todo : ∀ j s sw k,
  (∀ j', (j ≤ j' < j + todo)%nat → gt j' s = false) →
  inner_loop gt swp todo j s sw k = (s, sw, k).
Proof.
  induction todo as [|todo IH]; intros j s sw k Hno; [done|].
  cbn [inner_loop]. rewrite (Hno j) by lia. apply IH. intros j' Hj'. apply Hno. lia.
Qed.

Lemma bubble_in_order nmembs s :
  (∀ j, (S j < nmembs)%nat → gt j s = false) →
  bubble gt swp nmembs s = (s, 0%nat).
Proof.
  intros Hno. unfold bubble. destruct (nmembs - 1)%nat as [|i] eqn:E; [done|].
  cbn [outer_loop]. rewrite inner_loop_in_order by (intros j' Hj'; apply Hno; lia).
  by destruct i.
Qed.

(** The loops make no exchange exactly when they find every pair in
    order, and then they change nothing. *)
Lemma bubble_zero_iff nmembs s s' k :
  bubble gt swp nmembs s = (s', k) →
  (k = 0%nat ↔ ∀ j, (S j < nmembs)%nat → gt j s = false) ∧
  (k = 0%nat → s' = s).
Proof.
  intros H. split; [split|].
  - intros ->. by apply bubble_no_exchange in H as [_ ?].
  - intros Hno. rewrite (bubble_in_order _ _ Hno) in H. by injection H.
  - intros ->. by apply bubble_no_exchange in H as [? _].
Qed.

End EarlyExit.

Lemma lgt_false_ordered {A} (gtb : A → A → bool) (l : list A) :
  (∀ j, (S j < length l)%nat → lgt gtb j l = false) ↔
  adjacent_ordered (ngt gtb) l.
Proof.
  unfold lgt, adjacent_ordered, ngt. split.
  - intros H i a b Ha Hb. specialize (H i (lookup_lt_Some _ _ _ Hb)).
    by rewrite Ha, Hb in H.
  - intros H j Hj.
    destruct (l !! j) as [a|] eqn:Ha; [|done].
    destruct (l !! S j) as [b|] eqn:Hb; [|done]. by eapply H.
Qed.

Lemma adjacent_ordered_fmap_iff {A B} (f : A → B) (R : B → B → Prop) (l : list A) :
  adjacent_ordered R (f <$> l) ↔ adjacent_ordered (λ a b, R (f a) (f b)) l.
Proof.
  split; [|apply adjacent_ordered_fmap].
  intros H i a b Ha Hb. apply (H i); by rewrite list_lookup_fmap, ?Ha, ?Hb.
Qed.

Lemma adjacent_ordered_iff {A} (R R' : A → A → Prop) (l : list A) :
  (∀ a b, R a b ↔ R' a b) → adjacent_ordered R l ↔ adjacent_ordered R' l.
Proof.
  intros HR. split; apply adjacent_ordered_impl; intros a b; by apply HR.
Qed.

Lemma compnd_value_gt_ordered memb map :
  (∀ j, (S j < length memb)%nat →
        compnd_value_gt j (mk_compnd_st memb map) = false) ↔
  adjacent_ordered N.le (cm_offset <$> memb).
Proof.
  rewrite adjacent_ordered_fmap_iff.
  rewrite <- (adjacent_ordered_iff (ngt offset_gtb)).
  - apply (lgt_false_ordered offset_gtb).
  - intros a b. unfold ngt, offset_gtb. rewrite N.ltb_ge. lia.
Qed.

Lemma compnd_name_gt_ordered memb map :
  (∀ j, (S j < length memb)%nat →
        compnd_name_gt j (mk_compnd_st memb map) = false) ↔
  adjacent_ordered name_le (cm_name <$> memb).
Proof.
  rewrite adjacent_ordered_fmap_iff.
  rewrite <- (adjacent_ordered_iff (ngt cname_gtb)).
  - apply (lgt_false_ordered cname_gtb).
  - intros a b. unfold ngt, cname_gtb, name_gtb, name_le. by rewrite Z.ltb_ge.
Qed.

Lemma enumer_name_gt_ordered name value tbuf map :
  (∀ j, (S j < length name)%nat →
        enumer_name_gt j (mk_enumer_st name value tbuf map) = false) ↔
  adjacent_ordered name_le name.
Proof.
  rewrite <- (adjacent_ordered_iff (ngt name_gtb)).
  - apply (lgt_false_ordered name_gtb).
  - intros a b. unfold ngt, name_gtb, name_le. by rewrite Z.ltb_ge.
Qed.

Lemma enumer_value_gt_ordered size name value tbuf map :
  (∀ j, (S j < length name)%nat →
        enumer_value_gt size j (mk_enumer_st name value tbuf map) = false) ↔
  (∀ i, (S i < length name)%nat →
        HDmemcmp (drop (i * size) value) (drop (S i * size) value) size ≤ 0).
Proof.
  unfold enumer_value_gt. cbn [es_value].
  split; intros H i Hi; specialize (H i Hi);
    replace (i + 1)%nat with (S i) in * by lia; by apply Z.ltb_ge.
Qed.

Lemma retag_same dt want : sort_state dt = Some want → retag want dt = dt.
Proof.
  unfold sort_state, retag. destruct dt as [size [[t memb]|[t name value]|a]];
    simpl; intros [= ->]; done.
Qed.

(** X9. A sort of members that are already in the order asked for moves
    nothing.  On a compound or enumeration descriptor that satisfies the
    invariant on the sort state, a call that returns has made no
    exchange exactly when the members were in order before the call;
    the descriptor it hands back then differs from the one it was given
    in the sort state at most, and the map is as it was.  With the
    assertions compiled out, a call on members in order does return. *)
Theorem sort_of_ordered NDEBUG dt map r :
  sort_state_consistent dt → has_members dt →
  (H5T_sort_value NDEBUG dt map = Returned r →
     (ret_swaps r = 0%nat ↔ members_in_order H5T_SORT_VALUE dt) ∧
     (ret_swaps r = 0%nat →
        ret_dt r = retag H5T_SORT_VALUE dt ∧ ret_map r = map)) ∧
  (H5T_sort_name NDEBUG dt map = Returned r →
     (ret_swaps r = 0%nat ↔ members_in_order H5T_SORT_NAME dt) ∧
     (ret_swaps r = 0%nat →
        ret_dt r = retag H5T_SORT_NAME dt ∧ ret_map r = map)) ∧
  (members_in_order H5T_SORT_VALUE dt →
     H5T_sort_value true dt map =
       Returned (mk_sort_ret SUCCEED (retag H5T_SORT_VALUE dt) map 0)) ∧
  (members_in_order H5T_SORT_NAME dt →
     H5T_sort_name true dt map =
       Returned (mk_sort_ret SUCCEED (retag H5T_SORT_NAME dt) map 0)).
Proof.
  intros Hinv Hm.
  pose proof (proj1 (sort_state_consistent_in_order dt) Hinv) as Hcons.
  destruct dt as [size [c|e|a]]; [| |done]; clear Hm.
  - (* compound *)
    pose proof (compnd_value_gt_ordered (compnd_memb c) map) as Hv.
    pose proof (compnd_name_gt_ordered (compnd_memb c) map) as Hn.
    unfold H5T_sort_value, H5T_sort_name, members_in_order, member_names.
    cbn [dt_u dt_size]. split_and!.
    + intros H. destruct (decide _) as [E|E].
      * injection H as <-. cbn. specialize (Hcons _ (f_equal Some (eq_sym E))).
        split; [done|]. intros _. split; [|done].
        symmetry. apply retag_same. by rewrite E.
      * destruct (bubble _ _ _ _) as [s k] eqn:Eb.
        apply bubble_zero_iff in Eb as [Hz Hs].
        destruct (NDEBUG || _); [|done]. injection H as <-. cbn.
        split; [by rewrite Hz|]. intros Hk. by rewrite (Hs Hk).
    + intros H. destruct (decide _) as [E|E].
      * injection H as <-. cbn. specialize (Hcons _ (f_equal Some (eq_sym E))).
        split; [done|]. intros _. split; [|done].
        symmetry. apply retag_same. by rewrite E.
      * destruct (bubble _ _ _ _) as [s k] eqn:Eb.
        apply bubble_zero_iff in Eb as [Hz Hs].
        destruct (NDEBUG || _); [|done]. injection H as <-. cbn.
        split; [by rewrite Hz|]. intros Hk. by rewrite (Hs Hk).
    + intros Ho. destruct (decide _) as [E|E].
      * by rewrite retag_same by (by rewrite E).
      * by rewrite bubble_in_order by (by apply Hv).
    + intros Ho. destruct (decide _) as [E|E].
      * by rewrite retag_same by (by rewrite E).
      * by rewrite bubble_in_order by (by apply Hn).
  - (* enumeration *)
    pose proof (enumer_value_gt_ordered size (enumer_name e) (enumer_value e)
                  tbuf_init map) as Hv.
    pose proof (enumer_name_gt_ordered (enumer_name e) (enumer_value e)
                  tbuf_init map) as Hn.
    unfold H5T_sort_value, H5T_sort_name, members_in_order, member_names.
    cbn [dt_u dt_size]. split_and!.
    + intros H. destruct (decide _) as [E|E].
      * injection H as <-. cbn. specialize (Hcons _ (f_equal Some (eq_sym E))).
        split; [done|]. intros _. split; [|done].
        symmetry. apply retag_same. by rewrite E.
      * destruct (negb (_ <=? _)%nat && negb NDEBUG); [done|].
        destruct (bubble _ _ _ _) as [s k] eqn:Eb.
        apply bubble_zero_iff in Eb as [Hz Hs].
        destruct (negb _ && negb (k =? 0)%nat); [done|].
        destruct (NDEBUG || _); [|done]. injection H as <-. cbn.
        split; [by rewrite Hz|]. intros Hk. by rewrite (Hs Hk).
    + intros H. destruct (decide _) as [E|E].
      * injection H as <-. cbn. specialize (Hcons _ (f_equal Some (eq_sym E))).
        split; [done|]. intros _. split; [|done].
        symmetry. apply retag_same. by rewrite E.
      * destruct (negb (_ <=? _)%nat && negb NDEBUG); [done|].
        destruct (bubble _ _ _ _) as [s k] eqn:Eb.
        apply bubble_zero_iff in Eb as [Hz Hs].
        destruct (negb _ && negb (k =? 0)%nat); [done|].
        destruct (NDEBUG || _); [|done]. injection H as <-. cbn.
        split; [by rewrite Hz|]. intros Hk. by rewrite (Hs Hk).
    + intros Ho. destruct (decide _) as [E|E].
      * by rewrite retag_same by (by rewrite E).
      * rewrite bubble_in_order by (by apply Hv). cbn.
        by rewrite !andb_false_r.
    + intros Ho. destruct (decide _) as [E|E].
      * by rewrite retag_same by (by rewrite E).
      * rewrite bubble_in_order by (by apply Hn). cbn.
        by rewrite !andb_false_r.
Qed.

(* ===================================================================== *)
(** ** The closing assertions *)
(* ===================================================================== *)

Lemma StronglySorted_lookup_lt {A} (R : A → A → Prop) (l : list A) i j a b :
  StronglySorted R l → (i < j)%nat → l !! i = Some a → l !! j = Some b → R a b.
Proof.
  intros H. revert i j. induction H as [|x l Hs IH Hall]; intros i j Hij Ha Hb; [done|].
  destruct j as [|j]; [lia|]. destruct i as [|i]; simpl in *.
  - injection Ha as ->. rewrite Forall_forall in Hall. apply Hall.
    by eapply list_elem_of_lookup_2.
  - apply (IH i j); [lia|done|done].
Qed.

Section StrictlySorted.
Context {A K : Type}.
Variable gtb : A → A → bool.
Variable key : A → K.
Hypothesis gtb_trans : ∀ a b c, gtb a b = false → gtb b c = false → gtb a c = false.
Hypothesis key_eq : ∀ a b, key a = key b ↔ gtb a b = false ∧ gtb b a = false.

(** In a list in order, every element is strictly below its right
    neighbour exactly when no key occurs twice. *)
Lemma sorted_strict_NoDup (l : list A) :
  StronglySorted (ngt gtb) l →
  (∀ i a b, l !! i = Some a → l !! S i = Some b → gtb b a = true) ↔
  NoDup (key <$> l).
Proof.
  intros Hs. split.
  - intros Hadj. apply NoDup_alt. intros i j x Hi Hj.
    assert (Hlt : ∀ i j a b, (i < j)%nat → l !! i = Some a → l !! j = Some b →
                   key a ≠ key b).
    { clear i j x Hi Hj. intros i j a b Hij Ha Hb E.
      apply key_eq in E as [_ Eba].
      destruct (lookup_lt_is_Some_2 l (S i)) as [a' Ha'];
        [apply lookup_lt_Some in Hb; lia|].
      pose proof (Hadj i a a' Ha Ha') as Hstrict.
      destruct (decide (S i = j)) as [<-|].
      - assert (a' = b) as -> by congruence. congruence.
      - assert (ngt gtb a' b)
          by (apply (StronglySorted_lookup_lt _ l (S i) j); (done || lia)).
        rewrite (gtb_trans a' b a) in Hstrict; done. }
    rewrite !list_lookup_fmap in Hi, Hj.
    destruct (l !! i) as [a|] eqn:Ha; [|done].
    destruct (l !! j) as [b|] eqn:Hb; [|done].
    injection Hi as Hi. injection Hj as Hj.
    destruct (Nat.lt_trichotomy i j) as [Hij|[->|Hij]]; [|done|].
    + destruct (Hlt i j a b Hij Ha Hb). congruence.
    + destruct (Hlt j i b a Hij Hb Ha). congruence.
  - intros Hnd i a b Ha Hb.
    destruct (gtb b a) eqn:E; [done|].
    assert (ngt gtb a b)
      by (apply (StronglySorted_lookup_lt _ l i (S i)); (done || lia)).
    assert (key a = key b) as Ek by (by apply key_eq).
    assert (i = S i); [|lia].
    eapply (NoDup_lookup _ _ _ (key a) Hnd); rewrite list_lookup_fmap.
    + by rewrite Ha.
    + by rewrite Hb, Ek.
Qed.

End StrictlySorted.

Lemma assert_all_spec n ok :
  assert_all n ok = true ↔ ∀ i, (S i < n)%nat → ok i = true.
Proof.
  unfold assert_all. rewrite forallb_forall. split.
  - intros H i Hi. apply H. apply in_seq. lia.
  - intros H i Hi%in_seq. apply H. lia.
Qed.

Lemma lt_check_spec {A} (ltb : A → A → bool) (l : list A) :
  (∀ i, (S i < length l)%nat →
        match l !! i, l !! S i with
        | Some a, Some b => ltb a b
        | _, _ => true
        end = true) ↔
  (∀ i a b, l !! i = Some a → l !! S i = Some b → ltb a b = true).
Proof.
  split.
  - intros H i a b Ha Hb. specialize (H i (lookup_lt_Some _ _ _ Hb)).
    by rewrite Ha, Hb in H.
  - intros H i Hi. destruct (l !! i) as [a|] eqn:Ha; [|done].
    destruct (l !! S i) as [b|] eqn:Hb; [|done]. by eapply H.
Qed.

Lemma offset_key_eq a b :
  cm_offset a = cm_offset b ↔ offset_gtb a b = false ∧ offset_gtb b a = false.
Proof. unfold offset_gtb. rewrite !N.ltb_ge. lia. Qed.

Lemma name_key_eq a b :
  c_str a = c_str b ↔ name_gtb a b = false ∧ name_gtb b a = false.
Proof.
  unfold name_gtb. rewrite <- HDstrcmp_c_str, !Z.ltb_ge, (HDstrcmp_antisym a b). lia.
Qed.

Lemma name_ltb_gtb a b : (HDstrcmp a b <? 0) = name_gtb b a.
Proof.
  unfold name_gtb. rewrite (HDstrcmp_antisym a b).
  destruct (Z.ltb_spec (HDstrcmp a b) 0), (Z.ltb_spec 0 (- HDstrcmp a b)); lia.
Qed.

(** The compound loops followed by the strict check on offsets. *)
Lemma compnd_value_check memb map :
  let s' := (bubble compnd_value_gt compnd_swap (length memb)
               (mk_compnd_st memb map)).1 in
  assert_all (length memb) (compnd_value_lt (cs_memb s')) = true ↔
  NoDup (cm_offset <$> memb).
Proof.
  intros s'.
  pose proof (bubble_view_sorted compnd_value_gt compnd_swap cs_memb
                (λ _, True) offset_gtb ltac:(done) ltac:(done)
                offset_gtb_asym offset_gtb_trans (mk_compnd_st memb map) I) as Hs.
  pose proof (bubble_keeps compnd_value_gt compnd_swap (length memb)
                (λ s, cs_memb s ≡ₚ memb)
                (λ j s _, compnd_swap_reordered memb j s)
                (mk_compnd_st memb map) ltac:(simpl; reflexivity)) as Hp.
  cbn [cs_memb] in Hs. fold s' in Hs, Hp.
  rewrite assert_all_spec. rewrite <- (Permutation_length Hp).
  unfold compnd_value_lt.
  rewrite (lt_check_spec (λ a b, (cm_offset a <? cm_offset b)%N)).
  rewrite <- Hp.
  apply (sorted_strict_NoDup offset_gtb cm_offset offset_gtb_trans offset_key_eq _ Hs).
Qed.

Lemma compnd_name_check memb map :
  let s' := (bubble compnd_name_gt compnd_swap (length memb)
               (mk_compnd_st memb map)).1 in
  assert_all (length memb) (compnd_name_lt (cs_memb s')) = true ↔
  NoDup (c_str <$> (cm_name <$> memb)).
Proof.
  intros s'.
  pose proof (bubble_view_sorted compnd_name_gt compnd_swap cs_memb
                (λ _, True) cname_gtb ltac:(done) ltac:(done)
                (λ a b, name_gtb_asym _ _) (λ a b c, name_gtb_trans _ _ _)
                (mk_compnd_st memb map) I) as Hs.
  pose proof (bubble_keeps compnd_name_gt compnd_swap (length memb)
                (λ s, cs_memb s ≡ₚ memb)
                (λ j s _, compnd_swap_reordered memb j s)
                (mk_compnd_st memb map) ltac:(simpl; reflexivity)) as Hp.
  cbn [cs_memb] in Hs. fold s' in Hs, Hp.
  rewrite assert_all_spec. rewrite <- (Permutation_length Hp).
  unfold compnd_name_lt.
  rewrite (lt_check_spec (λ a b, HDstrcmp (cm_name a) (cm_name b) <? 0)).
  rewrite <- list_fmap_compose, <- Hp.
  rewrite <- (sorted_strict_NoDup cname_gtb (c_str ∘ cm_name)
                (λ a b c, name_gtb_trans _ _ _)
                (λ a b, name_key_eq (cm_name a) (cm_name b)) _ Hs).
  split; intros H i a b Ha Hb; specialize (H i a b Ha Hb);
    by rewrite name_ltb_gtb in *.
Qed.

Lemma enumer_name_check size name value map :
  let s' := (bubble enumer_name_gt (enumer_swap size) (length name)
               (mk_enumer_st name value tbuf_init map)).1 in
  assert_all (length name) (enumer_name_lt (es_name s')) = true ↔
  NoDup (c_str <$> name).
Proof.
  intros s'.
  pose proof (bubble_view_sorted enumer_name_gt (enumer_swap size) es_name
                (λ _, True) name_gtb ltac:(done) ltac:(done)
                name_gtb_asym name_gtb_trans
                (mk_enumer_st name value tbuf_init map) I) as Hs.
  pose proof (bubble_keeps enumer_name_gt (enumer_swap size) (length name)
                (λ s, es_name s ≡ₚ name)
                (λ j s _, enumer_swap_names size name j s)
                (mk_enumer_st name value tbuf_init map)
                ltac:(simpl; reflexivity)) as Hp.
  cbn [es_name] in Hs. fold s' in Hs, Hp.
  rewrite assert_all_spec. rewrite <- (Permutation_length Hp).
  unfold enumer_name_lt.
  rewrite (lt_check_spec (λ a b, HDstrcmp a b <? 0)).
  rewrite <- Hp.
  rewrite <- (sorted_strict_NoDup name_gtb c_str name_gtb_trans name_key_eq _ Hs).
  split; intros H i a b Ha Hb; specialize (H i a b Ha Hb);
    by rewrite name_ltb_gtb in *.
Qed.

Lemma lex_gt_total a : ∀ b, lex_gt a b = false → lex_gt b a = false → a = b.
Proof.
  induction a as [|x a IH]; intros [|y b]; simpl; try done.
  rewrite (Z.eqb_sym (ubyte y)).
  destruct (Z.eqb_spec (ubyte x) (ubyte y)) as [E|E].
  - intros H1 H2. apply ubyte_inj in E as ->. f_equal. by apply IH.
  - intros H1%Z.ltb_ge H2%Z.ltb_ge. lia.
Qed.

Lemma value_key_eq (p q : string * list byte) :
  p.2 = q.2 ↔ value_gtb p q = false ∧ value_gtb q p = false.
Proof.
  unfold value_gtb. split.
  - intros ->. by rewrite lex_gt_irrefl.
  - intros [H1 H2]. by apply lex_gt_total.
Qed.

Lemma HDmemcmp_antisym p q n : HDmemcmp q p n = - HDmemcmp p q n.
Proof.
  revert p q. induction n as [|n IH]; intros [|a p] [|b q]; simpl; try done.
  rewrite (Z.eqb_sym (ubyte b)).
  destruct (ubyte a =? ubyte b); [apply IH|lia].
Qed.

Lemma enumer_value_lt_lex n size value i :
  length value = (n * size)%nat → (S i < n)%nat →
  enumer_value_lt size value i =
    lex_gt (enum_value size value (S i)) (enum_value size value i).
Proof.
  intros Hv Hi. unfold enumer_value_lt.
  replace (i + 1)%nat with (S i) by lia.
  rewrite <- (HDmemcmp_lex_gt _ _ size)
    by (apply (enum_value_length n); (done || lia)).
  unfold enum_value. rewrite <- HDmemcmp_take.
  rewrite (HDmemcmp_antisym (drop (i * size) value)).
  destruct (Z.ltb_spec (HDmemcmp (drop (i * size) value)
                                 (drop (S i * size) value) size) 0),
           (Z.ltb_spec 0 (- HDmemcmp (drop (i * size) value)
                                     (drop (S i * size) value) size)); lia.
Qed.

Lemma enumer_value_check size name value map :
  length value = (length name * size)%nat → (size ≤ tbuf_size)%nat →
  let s' := (bubble (enumer_value_gt size) (enumer_swap size) (length name)
               (mk_enumer_st name value tbuf_init map)).1 in
  assert_all (length name) (enumer_value_lt size (es_value s')) = true ↔
  NoDup (snd <$> enum_members size name value).
Proof.
  intros Hv Hsz.
  set (s := mk_enumer_st name value tbuf_init map).
  assert (Hwf : enumer_wf (length name) size s) by done.
  pose proof (bubble_view_sorted (enumer_value_gt size) (enumer_swap size)
                (λ s, enum_members size (es_name s) (es_value s))
                (enumer_wf (length name) size) value_gtb
                (λ j s, enumer_value_sim_gt _ size j s)
                (λ j s, enumer_value_sim_swp _ size j s)
                value_gtb_asym value_gtb_trans s Hwf) as Hsorted.
  pose proof (bubble_keeps (enumer_value_gt size) (enumer_swap size) (length name)
                (enumer_reordered (length name) size (enum_members size name value))
                (λ j s Hj, enumer_swap_reordered (length name) size _ j s Hj)
                s ltac:(split; [done|simpl; reflexivity])) as [Hwf' Hp].
  assert (Hl : length (enum_members size (es_name s) (es_value s)) = length name)
    by (unfold enum_members; by rewrite length_imap).
  cbn beta in Hsorted. rewrite Hl in Hsorted.
  intros s'. fold s' in Hsorted, Hwf', Hp.
  destruct Hwf' as (Hn' & Hv' & Ht').
  rewrite <- Hp.
  rewrite <- (sorted_strict_NoDup value_gtb snd value_gtb_trans value_key_eq _ Hsorted).
  rewrite assert_all_spec. split.
  - intros H i a b Ha Hb. rewrite enum_members_lookup in Ha, Hb.
    assert (S i < length name)%nat as Hi
      by (rewrite <- Hn'; apply lookup_lt_is_Some; by destruct (es_name s' !! S i)).
    specialize (H i Hi). rewrite (enumer_value_lt_lex (length name)) in H by done.
    destruct (es_name s' !! i); [|done]. destruct (es_name s' !! S i); [|done].
    injection Ha as <-. injection Hb as <-. done.
  - intros H i Hi. rewrite (enumer_value_lt_lex (length name)) by done.
    destruct (lookup_lt_is_Some_2 (es_name s') i ltac:(lia)) as [x Hx].
    destruct (lookup_lt_is_Some_2 (es_name s') (S i) ltac:(lia)) as [y Hy].
    apply (H i (x, enum_value size (es_value s') i)
                (y, enum_value size (es_value s') (S i)));
      rewrite enum_members_lookup; by rewrite ?Hx, ?Hy.
Qed.

Lemma check_outcome {R} (b : bool) (P : Prop) (r : R) :
  (b = true ↔ P) →
  ((if b then Returned r else AssertFailed) = AssertFailed ↔ ¬ P) ∧
  (P → ∃ r', (if b then Returned r else AssertFailed) = Returned r').
Proof.
  intros H. destruct b.
  - split; [split; [done|]|by eexists]. intros []. by apply H.
  - split; [split; [|done]|].
    + intros _ HP. by apply H in HP.
    + intros HP. by apply H in HP.
Qed.

Lemma members_keys_NoDup dt :
  has_members dt →
  NoDup (snd <$> members dt) ↔
  match dt_u dt with
  | U_compnd c => NoDup (cm_offset <$> compnd_memb c)
  | U_enumer e =>
      NoDup (snd <$> enum_members (dt_size dt) (enumer_name e) (enumer_value e))
  | U_atomic _ => True
  end.
Proof.
  destruct dt as [size [c|e|a]]; unfold members, has_members; cbn [dt_u dt_size];
    intros Hm; [| |done].
  - rewrite <- list_fmap_compose.
    change (snd ∘ _) with (Offset ∘ cm_offset).
    rewrite list_fmap_compose.
    split; [apply NoDup_fmap_1|apply NoDup_fmap_2; by intros ?? [= ]].
  - rewrite <- list_fmap_compose.
    change (snd ∘ _) with (Value ∘ (snd : string * list byte → list byte)).
    rewrite list_fmap_compose.
    split; [apply NoDup_fmap_1|apply NoDup_fmap_2; by intros ?? [= ]].
Qed.

(** X10. In a build with the assertions, a sort that is not
    short-circuited runs into its closing assertion exactly when two
    members share the key sorted by (offset or value for
    [H5T_sort_value], name for [H5T_sort_name]); with distinct keys it
    returns, and a build without the assertions returns in both
    cases. *)
Theorem debug_sort_checks_keys (dt : H5T_t) (map : option (list Z)) :
  value_buffer_ok dt → fits_scratch dt → has_members dt →
  (sort_state dt ≠ Some H5T_SORT_VALUE →
     (H5T_sort_value false dt map = AssertFailed
      ↔ ¬ NoDup (snd <$> members dt)) ∧
     (NoDup (snd <$> members dt) →
      ∃ r, H5T_sort_value false dt map = Returned r)) ∧
  (sort_state dt ≠ Some H5T_SORT_NAME →
     (H5T_sort_name false dt map = AssertFailed
      ↔ ¬ NoDup (c_str <$> member_names dt)) ∧
     (NoDup (c_str <$> member_names dt) →
      ∃ r, H5T_sort_name false dt map = Returned r)) ∧
  (∃ r, H5T_sort_value true dt map = Returned r) ∧
  (∃ r, H5T_sort_name true dt map = Returned r).
Proof.
  intros Hok Hfit Hm.
  rewrite (members_keys_NoDup dt Hm).
  destruct dt as [size [c|e|a]];
    unfold value_buffer_ok, fits_scratch, has_members, sort_state, member_names,
           H5T_sort_value, H5T_sort_name in *;
    cbn [dt_u dt_size] in *; [| |done].
  - split_and!.
    + intros Hs. destruct (decide _) as [E|_]; [congruence|].
      pose proof (compnd_value_check (compnd_memb c) map) as Hc. cbn zeta in Hc.
      destruct (bubble _ _ _ _) as [s k]. cbn [fst orb] in *.
      by apply check_outcome.
    + intros Hs. destruct (decide _) as [E|_]; [congruence|].
      pose proof (compnd_name_check (compnd_memb c) map) as Hc. cbn zeta in Hc.
      destruct (bubble _ _ _ _) as [s k]. cbn [fst orb] in *.
      by apply check_outcome.
    + destruct (decide _); [by eexists|].
      destruct (bubble _ _ _ _) as [s k]. by eexists.
    + destruct (decide _); [by eexists|].
      destruct (bubble _ _ _ _) as [s k]. by eexists.
  - apply Nat.leb_le in Hfit as Hfit'. rewrite Hfit'. cbn [negb andb].
    split_and!.
    + intros Hs. destruct (decide _) as [E|_]; [congruence|].
      pose proof (enumer_value_check size (enumer_name e) (enumer_value e) map
                    Hok Hfit) as Hc. cbn zeta in Hc.
      destruct (bubble _ _ _ _) as [s k]. cbn [fst orb] in *.
      by apply check_outcome.
    + intros Hs. destruct (decide _) as [E|_]; [congruence|].
      pose proof (enumer_name_check size (enumer_name e) (enumer_value e) map)
        as Hc. cbn zeta in Hc.
      destruct (bubble _ _ _ _) as [s k]. cbn [fst orb] in *.
      by apply check_outcome.
    + destruct (decide _); [by eexists|].
      destruct (bubble _ _ _ _) as [s k]. by eexists.
    + destruct (decide _); [by eexists|].
      destruct (bubble _ _ _ _) as [s k]. by eexists.
Qed.

(* ===================================================================== *)
(** ** Sorting by name, by value and by name again *)
(* ===================================================================== *)

Lemma adjacent_StronglySorted {A} (R : A → A → Prop) `{!Transitive R} (l : list A) :
  adjacent_ordered R l → StronglySorted R l.
Proof.
  intros H. apply Sorted_StronglySorted; [done|].
  induction l as [|x l IH]; constructor.
  - apply IH. intros i a b Ha Hb. by apply (H (S i)).
  - destruct l as [|y l]; constructor. by apply (H 0%nat).
Qed.

Lemma NoDup_fmap_elem {A B} (f : A → B) (l : list A) x y :
  NoDup (f <$> l) → x ∈ l → y ∈ l → f x = f y → x = y.
Proof.
  intros Hnd [i Hi]%list_elem_of_lookup [j Hj]%list_elem_of_lookup E.
  assert (i = j) as ->; [|congruence].
  eapply (NoDup_lookup _ _ _ (f x) Hnd); rewrite list_lookup_fmap.
  - by rewrite Hi.
  - by rewrite Hj, E.
Qed.

Lemma name_le_gtb a b : name_le a b ↔ name_gtb a b = false.
Proof. unfold name_le, name_gtb. by rewrite Z.ltb_ge. Qed.

(** What a returning sort call leaves of a consistent descriptor. *)
Lemma sort_returns_facts NDEBUG dt map r :
  value_buffer_ok dt → sort_state_consistent dt → has_members dt →
  H5T_sort_value NDEBUG dt map = Returned r ∨
  H5T_sort_name NDEBUG dt map = Returned r →
  value_buffer_ok (ret_dt r) ∧ sort_state_consistent (ret_dt r) ∧
  has_members (ret_dt r) ∧ members (ret_dt r) ≡ₚ members dt.
Proof.
  intros Hok Hinv Hm H.
  split_and!; [|by eapply sort_keeps_consistent| |].
  - destruct H as [H|H];
      rewrite ?H5T_sort_value_skeleton, ?H5T_sort_name_skeleton in H;
      by eapply skeleton_members.
  - destruct H as [H|H];
      rewrite ?H5T_sort_value_skeleton, ?H5T_sort_name_skeleton in H;
      by eapply skeleton_names.
  - destruct H as [H|H];
      rewrite ?H5T_sort_value_skeleton, ?H5T_sort_name_skeleton in H;
      by eapply skeleton_members.
Qed.

Lemma sort_name_returns_ordered NDEBUG dt map r :
  value_buffer_ok dt → sort_state_consistent dt → has_members dt →
  H5T_sort_name NDEBUG dt map = Returned r →
  sort_state (ret_dt r) = Some H5T_SORT_NAME ∧
  StronglySorted (λ p q : string * member_key, name_le p.1 q.1) (members (ret_dt r)).
Proof.
  intros Hok Hinv Hm H.
  destruct (sort_returns_facts _ _ _ _ Hok Hinv Hm (or_intror H)) as (_ & Hc & _ & _).
  rewrite H5T_sort_name_skeleton in H.
  assert (Hs : sort_state (ret_dt r) = Some H5T_SORT_NAME).
  { destruct (skeleton_sort_state _ _ _ _ _ _ _ _ _ H) as [Hs|(Hs & _)]; [done|].
    unfold sort_state, has_members in *. by destruct (dt_u dt). }
  split; [done|].
  pose proof (proj1 (sort_state_consistent_in_order _) Hc _ Hs) as Ho.
  cbn [members_in_order] in Ho. rewrite <- members_names in Ho.
  apply (proj1 (adjacent_ordered_fmap_iff fst name_le _)) in Ho.
  apply adjacent_StronglySorted; [|done].
  intros p q t. rewrite !name_le_gtb. apply name_gtb_trans.
Qed.

(** X11. On a compound or enumeration descriptor whose names are
    pairwise different C strings: sorting by name, then by value, then
    by name again gives the member sequence of the first sort by name,
    whatever maps are passed along. *)
Theorem sort_name_value_name NDEBUG (dt : H5T_t) map1 map2 map3 r1 r2 r3 :
  value_buffer_ok dt → sort_state_consistent dt → has_members dt →
  NoDup (c_str <$> member_names dt) →
  H5T_sort_name NDEBUG dt map1 = Returned r1 →
  H5T_sort_value NDEBUG (ret_dt r1) map2 = Returned r2 →
  H5T_sort_name NDEBUG (ret_dt r2) map3 = Returned r3 →
  members (ret_dt r3) = members (ret_dt r1) ∧
  sort_state (ret_dt r3) = sort_state (ret_dt r1).
Proof.
  intros Hok Hinv Hm Hnd H1 H2 H3.
  destruct (sort_returns_facts _ _ _ _ Hok Hinv Hm (or_intror H1))
    as (Hok1 & Hinv1 & Hm1 & Hp1).
  destruct (sort_returns_facts _ _ _ _ Hok1 Hinv1 Hm1 (or_introl H2))
    as (Hok2 & Hinv2 & Hm2 & Hp2).
  destruct (sort_returns_facts _ _ _ _ Hok2 Hinv2 Hm2 (or_intror H3))
    as (Hok3 & Hinv3 & Hm3 & Hp3).
  destruct (sort_name_returns_ordered _ _ _ _ Hok Hinv Hm H1) as [Hs1 Hsorted1].
  destruct (sort_name_returns_ordered _ _ _ _ Hok2 Hinv2 Hm2 H3) as [Hs3 Hsorted3].
  split; [|congruence].
  assert (Hp : members (ret_dt r3) ≡ₚ members (ret_dt r1))
    by (by rewrite Hp3, Hp2).
  apply (StronglySorted_unique_strong (λ p q : string * member_key, name_le p.1 q.1)); [|done|done|done].
  intros x1 x2 Hx1 Hx2 H12 H21. rewrite Hp in Hx1.
  apply (NoDup_fmap_elem (c_str ∘ fst) (members (ret_dt r1))); [|done|done|].
  - rewrite list_fmap_compose, Hp1, members_names. done.
  - cbn. apply name_key_eq. by rewrite <- !name_le_gtb.
Qed.

(* ===================================================================== *)
(** ** The number of exchanges *)
(* ===================================================================== *)

Section ExchangeCount.
Context {St : Type}.
Variable gt : nat → St → bool.
Variable swp : nat → St → St.
Local Open Scope nat_scope.

Lemma inner_loop_at_most todo : ∀ j s swapped k,
  (inner_loop gt swp todo j s swapped k).2 ≤ k + todo.
Proof.
  induction todo as [|todo IH]; intros j s swapped k; simpl; [lia|].
  destruct (gt j s).
  - etrans; [apply IH|lia].
  - etrans; [apply IH|lia].
Qed.

Lemma outer_loop_at_most i : ∀ swapped s k,
  2 * (outer_loop gt swp i swapped s k).2 ≤ 2 * k + i * (i + 1).
Proof.
  induction i as [|i IH]; intros swapped s k; [simpl; lia|].
  cbn [outer_loop]. destruct swapped; [|simpl; lia].
  pose proof (inner_loop_at_most (S i) 0 s false k) as Hin.
  destruct (inner_loop _ _ _ _ _ _ _) as [[s' swapped'] k'].
  cbn [snd] in Hin. specialize (IH swapped' s' k'). nia.
Qed.

Lemma bubble_at_most nmembs s :
  2 * (bubble gt swp nmembs s).2 ≤ nmembs * (nmembs - 1).
Proof.
  unfold bubble. pose proof (outer_loop_at_most (nmembs - 1) true s 0). nia.
Qed.

End ExchangeCount.

Lemma skeleton_at_most want c_gt c_lt e_gt e_lt NDEBUG dt map r :
  sort_skeleton want c_gt c_lt e_gt e_lt NDEBUG dt map = Returned r →
  (2 * ret_swaps r ≤ length (member_names dt) * (length (member_names dt) - 1))%nat.
Proof.
  destruct dt as [size [c|e|a]]; unfold sort_skeleton, member_names;
    cbn [dt_u dt_size]; intros H.
  - destruct (decide _); [injection H as <-; cbn; lia|].
    rewrite length_fmap.
    pose proof (bubble_at_most c_gt compnd_swap (length (compnd_memb c))
                  (mk_compnd_st (compnd_memb c) map)) as Hk.
    destruct (bubble _ _ _ _) as [s k]. destruct (NDEBUG || _); [|done].
    by injection H as <-.
  - destruct (decide _); [injection H as <-; cbn; lia|].
    destruct (negb (_ <=? _)%nat && negb NDEBUG); [done|].
    pose proof (bubble_at_most (e_gt size) (enumer_swap size) (length (enumer_name e))
                  (mk_enumer_st (enumer_name e) (enumer_value e) tbuf_init map))
      as Hk.
    destruct (bubble _ _ _ _) as [s k].
    destruct (negb _ && negb (k =? 0)%nat); [done|].
    destruct (NDEBUG || _); [|done]. by injection H as <-.
  - destruct NDEBUG; [|done]. injection H as <-. cbn. lia.
Qed.

(** X12. A sort of [n] members that returns has made at most
    [n * (n - 1) / 2] exchanges of neighbours, and none on a descriptor
    with fewer than two members. *)
Theorem sort_exchange_bound NDEBUG (dt : H5T_t) (map : option (list Z)) r :
  H5T_sort_value NDEBUG dt map = Returned r ∨
  H5T_sort_name NDEBUG dt map = Returned r →
  (2 * ret_swaps r ≤ length (member_names dt) * (length (member_names dt) - 1))%nat ∧
  ((length (member_names dt) < 2)%nat → ret_swaps r = 0%nat).
Proof.
  intros H.
  assert (2 * ret_swaps r
          ≤ length (member_names dt) * (length (member_names dt) - 1))%nat as Hb.
  { destruct H as [H|H];
      rewrite ?H5T_sort_value_skeleton, ?H5T_sort_name_skeleton in H;
      by eapply skeleton_at_most. }
  split; [done|]. intros Hn. nia.
Qed.

(* ===================================================================== *)
(** ** Values wider than the scratch buffer *)
(* ===================================================================== *)

(** X13. The exchange of two enumeration values goes through the
    32-byte buffer [tbuf], whose size is only asserted.  A sort call has
    no defined behaviour exactly when the assertions are compiled out,
    the descriptor is an enumeration with values wider than [tbuf], the
    call is not short-circuited and some pair of neighbours is out of
    order, so that an exchange is made; with the assertions compiled in,
    a call on such an enumeration that is not short-circuited stops at
    the assertion. *)
Theorem sort_undefined_iff NDEBUG (dt : H5T_t) (map : option (list Z)) :
  (H5T_sort_value NDEBUG dt map = Undefined ↔
     NDEBUG = true ∧ ¬ fits_scratch dt ∧
     sort_state dt ≠ Some H5T_SORT_VALUE ∧
     ¬ members_in_order H5T_SORT_VALUE dt) ∧
  (H5T_sort_name NDEBUG dt map = Undefined ↔
     NDEBUG = true ∧ ¬ fits_scratch dt ∧
     sort_state dt ≠ Some H5T_SORT_NAME ∧
     ¬ members_in_order H5T_SORT_NAME dt) ∧
  (¬ fits_scratch dt →
     (sort_state dt ≠ Some H5T_SORT_VALUE →
        H5T_sort_value false dt map = AssertFailed) ∧
     (sort_state dt ≠ Some H5T_SORT_NAME →
        H5T_sort_name false dt map = AssertFailed)).
Proof.
  destruct dt as [size [c|e|a]];
    unfold H5T_sort_value, H5T_sort_name, fits_scratch, sort_state,
           members_in_order, member_names; cbn [dt_u dt_size].
  - split_and!; [| |tauto].
    + split; [|tauto]. destruct (decide _); [done|].
      destruct (bubble _ _ _ _) as [s k]. by destruct (NDEBUG || _).
    + split; [|tauto]. destruct (decide _); [done|].
      destruct (bubble _ _ _ _) as [s k]. by destruct (NDEBUG || _).
  - pose proof (enumer_value_gt_ordered size (enumer_name e) (enumer_value e)
                  tbuf_init map) as Hv.
    pose proof (enumer_name_gt_ordered (enumer_name e) (enumer_value e)
                  tbuf_init map) as Hn.
    destruct (Nat.leb_spec size tbuf_size) as [Hsz|Hsz]; cbn [negb andb].
    + split_and!; [| |lia].
      * split; [|tauto]. destruct (decide _); [done|].
        destruct (bubble _ _ _ _) as [s k]. by destruct (NDEBUG || _).
      * split; [|tauto]. destruct (decide _); [done|].
        destruct (bubble _ _ _ _) as [s k]. by destruct (NDEBUG || _).
    + split_and!.
      * destruct (decide _) as [E|E]; [split; [done|]; intros (_ & _ & ? & _); congruence|].
        destruct NDEBUG; cbn [negb orb]; [|split; [done|by intros [? _]]].
        destruct (bubble _ _ _ _) as [s k] eqn:Eb.
        apply bubble_zero_iff in Eb as [Hz _]. rewrite Hv in Hz.
        destruct (Nat.eqb_spec k 0) as [Hk|Hk]; cbn [negb].
        -- split; [done|]. intros (_ & _ & _ & Hno). destruct Hno. by apply Hz.
        -- split; [|done]. intros _. split_and!; [done|lia|congruence|].
           intros Ho. by apply Hk, Hz.
      * destruct (decide _) as [E|E]; [split; [done|]; intros (_ & _ & ? & _); congruence|].
        destruct NDEBUG; cbn [negb orb]; [|split; [done|by intros [? _]]].
        destruct (bubble _ _ _ _) as [s k] eqn:Eb.
        apply bubble_zero_iff in Eb as [Hz _]. rewrite Hn in Hz.
        destruct (Nat.eqb_spec k 0) as [Hk|Hk]; cbn [negb].
        -- split; [done|]. intros (_ & _ & _ & Hno). destruct Hno. by apply Hz.
        -- split; [|done]. intros _. split_and!; [done|lia|congruence|].
           intros Ho. by apply Hk, Hz.
      * intros _. split; intros Hs; destruct (decide _) as [E|E]; (congruence || done).
  - split_and!; [| |tauto].
    + split; [|tauto]. by destruct NDEBUG.
    + split; [|tauto]. by destruct NDEBUG.
Qed.

(* ===================================================================== *)
(** ** The further properties at work on the examples *)
(* ===================================================================== *)

Lemma api_count_bounds_names_witness :
  0 ≤ 3 ∧
  (∃ dt, (λ _ : unit, Some scenario_A) () = Some dt ∧
         3 = Z.of_nat (length (member_names dt))) ∧
  ((∃ nm, H5Tget_member_name (λ _ : unit, Some scenario_A) () 3 = ApiOk nm)
   ↔ 0 ≤ 3 < 3) ∧
  (¬ 0 ≤ 3 < 3 →
     H5Tget_member_name (λ _ : unit, Some scenario_A) () 3 =
       ApiFail [(H5E_ARGS, H5E_BADVALUE); (H5E_ARGS, H5E_BADTYPE)]).
Proof.
  apply (api_count_bounds_names (λ _ : unit, Some scenario_A) () 3 3 eq_refl).
Defined.

Lemma api_unsupported_witness :
  top_error (H5Tget_nmembers (λ _ : unit, Some int_descriptor) ())
    = Some (H5E_ARGS, H5E_BADTYPE) ∧
  top_error (H5Tget_member_name (λ _ : unit, Some int_descriptor) () 0)
    = Some (H5E_ARGS, H5E_BADTYPE) ∧
  H5Tget_member_index (λ _ : unit, Some int_descriptor) () "a"
    = Failure H5E_ARGS H5E_BADTYPE.
Proof.
  refine (proj1 (proj2 (api_unsupported (λ _ : unit, Some int_descriptor) () 0 "a")) _).
  intros n. discriminate.
Defined.

Lemma member_name_of_index_witness :
  0 ≤ 2 < Z.of_nat (length (member_names scenario_A)) ∧
  H5T_get_member_name scenario_A 2 = Success (c_str "c").
Proof.
  refine (member_name_of_index (λ _ : unit, Some scenario_A) () scenario_A "c" 2
            eq_refl eq_refl _).
  discriminate.
Defined.


Lemma sort_keeps_member_of_name_witness :
  2 ≠ FAIL ∧
  is_Some (members scenario_A !! Z.to_nat 0) ∧
  members scenario_A_by_value !! Z.to_nat 2 = members scenario_A !! Z.to_nat 0.
Proof.
  refine (sort_keeps_member_of_name (λ _ : unit, Some scenario_A)
            (λ _ : unit, Some scenario_A_by_value) () false scenario_A
            (Some [0; 1; 2])
            (mk_sort_ret SUCCEED scenario_A_by_value (Some [1; 2; 0]) 2) "b" 0 2
            I scenario_A_names_distinct (or_introl eq_refl)
            eq_refl eq_refl eq_refl eq_refl _).
  discriminate.
Defined.

Lemma sort_establishes_state_witness :
  sort_state scenario_B_by_name = Some H5T_SORT_NAME ∧
  members_in_order H5T_SORT_NAME scenario_B_by_name.
Proof.
  apply (proj1 (proj2 (sort_establishes_state false scenario_B_le None
                         (mk_sort_ret SUCCEED scenario_B_by_name None 1)
                         eq_refl (unsorted_consistent scenario_B_le eq_refl) I))
               eq_refl).
Defined.

Lemma sorts_are_stable_witness :
  filter (λ m, cm_offset m = 4%N) (record_members shared_offset_by_value)
  = filter (λ m, cm_offset m = 4%N) (record_members shared_offset).
Proof.
  apply (proj1 (proj1 (sorts_are_stable true shared_offset None
                         (mk_sort_ret SUCCEED shared_offset_by_value None 1) I)
                      eq_refl) 4%N).
Defined.

Lemma sort_map_in_step_witness :
  ∃ m', Some [8; 9; 7; 10] = Some m' ∧
        length m' = length [7; 8; 9; 10] ∧ m' ≡ₚ [7; 8; 9; 10] ∧
        drop (length (member_names scenario_A)) m'
        = drop (length (member_names scenario_A)) [7; 8; 9; 10] ∧
        zip (member_names scenario_A_by_value) m'
        ≡ₚ zip (member_names scenario_A) [7; 8; 9; 10].
Proof.
  refine (proj1 (sort_map_in_step false scenario_A [7; 8; 9; 10]
                   (mk_sort_ret SUCCEED scenario_A_by_value
                                (Some [8; 9; 7; 10]) 2)
                   _ (or_introl eq_refl))).
  simpl. lia.
Defined.

Lemma sort_of_ordered_witness :
  (2%nat = 0%nat ↔ members_in_order H5T_SORT_VALUE scenario_A) ∧
  (2%nat = 0%nat →
     scenario_A_by_value = retag H5T_SORT_VALUE scenario_A ∧
     Some [1; 2; 0] = Some [0; 1; 2]).
Proof.
  apply (proj1 (sort_of_ordered false scenario_A (Some [0; 1; 2])
                  (mk_sort_ret SUCCEED scenario_A_by_value (Some [1; 2; 0]) 2)
                  (unsorted_consistent scenario_A eq_refl) I)
               eq_refl).
Defined.

Lemma debug_sort_checks_keys_witness :
  H5T_sort_name false duplicate_names None = AssertFailed
  ↔ ¬ NoDup (c_str <$> member_names duplicate_names).
Proof.
  refine (proj1 (proj1 (proj2 (debug_sort_checks_keys duplicate_names None I I I)) _)).
  discriminate.
Defined.

Lemma sort_name_value_name_witness :
  ∃ r1 r2 r3,
    H5T_sort_name false scenario_A None = Returned r1 ∧
    H5T_sort_value false (ret_dt r1) None = Returned r2 ∧
    H5T_sort_name false (ret_dt r2) None = Returned r3 ∧
    members (ret_dt r3) = members (ret_dt r1) ∧
    sort_state (ret_dt r3) = sort_state (ret_dt r1).
Proof.
  exists (mk_sort_ret SUCCEED scenario_A_by_name None 1),
         (mk_sort_ret SUCCEED scenario_A_by_value None 1),
         (mk_sort_ret SUCCEED scenario_A_by_name None 1).
  refine (conj eq_refl (conj eq_refl (conj eq_refl _))).
  apply (sort_name_value_name false scenario_A None None None
           (mk_sort_ret SUCCEED scenario_A_by_name None 1)
           (mk_sort_ret SUCCEED scenario_A_by_value None 1)
           (mk_sort_ret SUCCEED scenario_A_by_name None 1)
           I (unsorted_consistent scenario_A eq_refl) I
           scenario_A_names_distinct eq_refl eq_refl eq_refl).
Defined.

Lemma sort_exchange_bound_witness :
  (2 * 2 ≤ length (member_names scenario_A)
           * (length (member_names scenario_A) - 1))%nat ∧
  ((length (member_names scenario_A) < 2)%nat → 2%nat = 0%nat).
Proof.
  apply (sort_exchange_bound false scenario_A (Some [0; 1; 2])
           (mk_sort_ret SUCCEED scenario_A_by_value (Some [1; 2; 0]) 2)
           (or_introl eq_refl)).
Defined.

Lemma sort_undefined_iff_witness :
  H5T_sort_value true wide_values None = Undefined ∧
  H5T_sort_value false wide_values None = AssertFailed.
Proof.
  split.
  - apply (proj1 (sort_undefined_iff true wide_values None)).
    split_and!; [done|unfold fits_scratch, tbuf_size; simpl; lia|discriminate|].
    intros H. specialize (H 0%nat ltac:(simpl; lia)). vm_compute in H. by apply H.
  - apply (proj2 (proj2 (sort_undefined_iff false wide_values None))).
    + unfold fits_scratch, tbuf_size. simpl. lia.
    + discriminate.
Defined.
